(** * change-log-o-matic: the manifest differ and the enrichment orchestrator

    A shallow embedding of [main.py]: [compare_manifests], the
    [CurseForgeCache] class, the two fetchers [scrape_mod_info] and
    [scrape_file_info], the two bulk orchestrators [scrape_all_mod_info] and
    [scrape_all_file_info], the report generator [generate_markdown], and
    [main] from the two extracted manifests to the report.
    [extract_manifest] and the writing of the report are not embedded.

    Conventions.  Python integers are [Z].  A dictionary whose iteration
    order reaches the result is an association list in insertion order
    ([PyDict]); the enrichment maps are [gmap]s and the deduplicating sets
    are [gset]s, whose [elements] stand for the unspecified order of
    [list(set(...))].  The code that touches the cache and the network
    runs in a state monad over the cache object and a trace of what the run
    did: requests, pools, submitted tasks, pauses and lines written to
    [sys.stderr] (lines printed to standard output are not traced).  The
    tasks of a worker pool are run one after the other, in submission
    order. *)

From Stdlib Require Import ZArith QArith List Ascii String Lia.
From stdpp Require Import base option list gmap sets strings pretty.

Local Open Scope Z_scope.
Local Open Scope string_scope.
Local Open Scope list_scope.

(** ** Python dictionaries keyed by integers, in insertion order

    A [dict] remembers the order in which its keys were first inserted;
    assigning to a key that is already present replaces the value and leaves
    the key where it was.  The differ iterates over its dictionaries, so the
    order is part of its result. *)
Module PyDict.

Definition t (V : Type) : Type := list (Z * V).

(** [d[k] = v] *)
Fixpoint set {V} (k : Z) (v : V) (d : t V) : t V :=
  match d with
  | [] => [(k, v)]
  | (k', v') :: d' =>
      if Z.eqb k' k then (k', v) :: d' else (k', v') :: set k v d'
  end.

(** [d.get(k)]: [None] when [d[k]] would raise [KeyError]. *)
Fixpoint get {V} (k : Z) (d : t V) : option V :=
  match d with
  | [] => None
  | (k', v') :: d' => if Z.eqb k' k then Some v' else get k d'
  end.

(** [k in d] *)
Definition mem {V} (k : Z) (d : t V) : bool :=
  match get k d with Some _ => true | None => false end.

(** [list(d)], the keys in iteration order. *)
Definition keys {V} (d : t V) : list Z := map fst d.

(** [list(d.values())] *)
Definition values {V} (d : t V) : list V := map snd d.

(** [{key(x): x for x in xs}] *)
Definition of_items {V} (key : V -> Z) (xs : list V) : t V :=
  fold_left (fun d x => set (key x) x d) xs [].

End PyDict.

(** ** Manifests *)

(** One object of the manifest's [files] list.  [required] may be absent
    from the JSON object (the report reads it with [mod.get('required')]). *)
Record FileEntry : Type := mkFileEntry {
  projectID : Z;
  fileID : Z;
  required : option bool
}.

(** A parsed [manifest.json].  [files = None] is a document without a
    [files] key; the differ and the orchestrators read the key with
    [manifest.get('files', [])].  The other keys of the document are read
    only by the report generator. *)
Record Manifest : Type := mkManifest {
  files : option (list FileEntry)
}.

(** [manifest.get('files', [])] *)
Definition get_files (m : Manifest) : list FileEntry :=
  match files m with
  | Some l => l
  | None => []
  end.

(** One element of the [updates] list. *)
Record Update : Type := mkUpdate {
  u_projectID : Z;
  old_fileID : Z;
  new_fileID : Z
}.

(** ** [compare_manifests] *)

(** [{item['projectID']: item for item in manifest.get('files', [])}] *)
Definition files_by_project (m : Manifest) : PyDict.t FileEntry :=
  PyDict.of_items projectID (get_files m).

(** [[a[p] for p in a if p not in b]] *)
Definition entries_not_in (a b : PyDict.t FileEntry) : list FileEntry :=
  omap (fun project_id =>
          if PyDict.mem project_id b then None else PyDict.get project_id a)
       (PyDict.keys a).

(** The body of the [for project_id in old_files] loop: the new value of
    [updates] after one iteration. *)
Definition updates_step (old_files new_files : PyDict.t FileEntry)
    (updates : list Update) (project_id : Z) : list Update :=
  match PyDict.get project_id new_files, PyDict.get project_id old_files with
  | Some n, Some o =>
      if negb (Z.eqb (fileID o) (fileID n))
      then updates ++ [mkUpdate project_id (fileID o) (fileID n)]
      else updates
  | _, _ => updates
  end.

Definition compare_manifests (old_manifest new_manifest : Manifest)
    : list FileEntry * list FileEntry * list Update :=
  let old_files := files_by_project old_manifest in
  let new_files := files_by_project new_manifest in
  let additions := entries_not_in new_files old_files in
  let removals := entries_not_in old_files new_files in
  let updates :=
    fold_left (updates_step old_files new_files) (PyDict.keys old_files) [] in
  (additions, removals, updates).

Definition additions_of (r : list FileEntry * list FileEntry * list Update) :=
  fst (fst r).
Definition removals_of (r : list FileEntry * list FileEntry * list Update) :=
  snd (fst r).
Definition updates_of (r : list FileEntry * list FileEntry * list Update) :=
  snd r.

(** The last entry of a [files] list that carries a given [projectID]; this
    is how the specification describes the lookup map. *)
Definition last_entry (project_id : Z) (l : list FileEntry) : option FileEntry :=
  last (filter (fun e => projectID e = project_id) l).

(** The bare entry [{projectID: p, fileID: f}]. *)
Definition entry (p f : Z) : FileEntry := mkFileEntry p f None.

(** ** JSON values and enrichment records

    The enrichment records are Python dictionaries that travel through
    [json.dump] and [json.load]; the orchestrators test them for truth
    ([if cached_info:], [if result:]).  Floating-point numbers do not occur
    in the records and are left out. *)
#[warnings="-register-all"]
Inductive Json : Type :=
  | JNull
  | JBool (b : bool)
  | JInt (n : Z)
  | JStr (s : string)
  | JList (l : list Json)
  | JDict (kvs : list (string * Json)).

(** Python's truth value: [None], [False], [0], [''], [[]] and [{}] are
    false. *)
Definition truthy (v : Json) : bool :=
  match v with
  | JNull => false
  | JBool b => b
  | JInt n => negb (Z.eqb n 0)
  | JStr s => negb (String.eqb s "")
  | JList l => match l with [] => false | _ => true end
  | JDict kvs => match kvs with [] => false | _ => true end
  end.

(** [{"id": project_id, "name": mod_name, "url": url}] *)
Definition mod_record (project_id : Z) (mod_name url : string) : Json :=
  JDict [("id", JInt project_id); ("name", JStr mod_name); ("url", JStr url)].

(** [{"id": file_id, "fileName": n, "displayName": n, "url": url}] *)
Definition file_record (file_id : Z) (file_name url : string) : Json :=
  JDict [("id", JInt file_id); ("fileName", JStr file_name);
         ("displayName", JStr file_name); ("url", JStr url)].

(** ** The outside world *)

(** The exception classes the fetchers tell apart: the two they catch, and
    any other subclass of [Exception]. *)
Inductive exn : Type :=
  | RequestException
  | AttributeError
  | OtherException.

(** [except (requests.RequestException, AttributeError)] *)
Definition caught_by_fetcher (e : exn) : bool :=
  match e with
  | RequestException | AttributeError => true
  | OtherException => false
  end.

(** What happens in the [try] block for one URL: [requests.get] or the
    parse of the page raises, or there is a response. *)
Inductive HttpResult : Type :=
  | Raises (e : exn)
  | Response (status_code : Z) (text : string).

(** A file of the cache directory, by what reading it does: it holds valid
    JSON; [json.load] rejects it with [JSONDecodeError] or fails with an
    [OSError] while reading; it exists but cannot be opened ([OSError]); or
    [json.load] rejects it with an exception of another class, as
    [UnicodeDecodeError] for bytes that are not UTF-8 or [RecursionError]
    for a text nested too deeply. *)
Inductive CacheFile : Type :=
  | FileJson (v : Json)
  | FileCorrupt
  | FileUnreadable
  | FileUndecodable.

(** One run's view of the network and of the disk.  [mod_title] and
    [file_title] are the HTML extraction: the stripped text of the first
    element found by the selector cascade of the fetcher, [None] when no
    selector matches.  [mod_write_ok] and [file_write_ok] tell whether
    writing a cache file succeeds or raises [OSError].  When it raises,
    [mod_write_leaves] and [file_write_leaves] tell what is then in the
    place of the file: [None] when [open] itself failed, so that the file
    is as it was, and otherwise the file that the interrupted write left
    after [open] had truncated it.  [makedirs_ok] tells whether the two
    [os.makedirs] of the constructor succeed for a cache directory. *)
Record World : Type := mkWorld {
  http_get : string -> HttpResult;
  mod_title : string -> option string;
  file_title : string -> option string;
  mod_write_ok : Z -> bool;
  file_write_ok : Z * Z -> bool;
  mod_write_leaves : Z -> option CacheFile;
  file_write_leaves : Z * Z -> option CacheFile;
  makedirs_ok : string -> bool
}.

(** Lines printed to [sys.stderr]. *)
Inductive LogLine : Type :=
  | ErrReadingModCache (project_id : Z)
  | ErrWritingModCache (project_id : Z)
  | ErrReadingFileCache (project_id file_id : Z)
  | ErrWritingFileCache (project_id file_id : Z)
  | ErrWithUrl (url : string) (e : exn)
  | FailedToScrapeProject (project_id : Z)
  | FailedToScrapeFile (project_id file_id : Z)
  | ErrProcessingProject (project_id : Z) (e : exn)
  | ErrProcessingFile (project_id file_id : Z) (e : exn).

(** The observable steps of a run, oldest first. *)
Inductive Event : Type :=
  | EvGet (url : string)
  | EvPool (max_workers : Z)
  | EvSubmitMod (project_id : Z)
  | EvSubmitFile (project_id file_id : Z)
  | EvSleep (seconds : Q)
  | EvStderr (line : LogLine).

(** The outcome of a call: the value returned or the exception raised. *)
Inductive Exc (A : Type) : Type :=
  | Ok (a : A)
  | Raise (e : exn).
Arguments Ok {A} a.
Arguments Raise {A} e.

(** ** [CurseForgeCache] *)

(** [f"{project_id}.json"], the name of a project's file in the directory
    [mods]. *)
Definition mod_cache_name (project_id : Z) : string :=
  pretty project_id +:+ ".json".

(** [f"{project_id}_{file_id}.json"], the name of a file's file in the
    directory [files]. *)
Definition file_cache_name (project_id file_id : Z) : string :=
  pretty project_id +:+ "_" +:+ pretty file_id +:+ ".json".

(** The cache object together with the two directories it owns:
    [mod_files] is the content of [{cache_dir}/mods] and [file_files] the
    content of [{cache_dir}/files], by file name. *)
Record CurseForgeCache : Type := mkCache {
  cache_dir : string;
  mod_files : gmap string CacheFile;
  file_files : gmap string CacheFile;
  mod_hits : Z;
  mod_misses : Z;
  file_hits : Z;
  file_misses : Z
}.

(** The object that [CurseForgeCache(cache_dir)] gives, once its two
    [os.makedirs] have succeeded, on a directory with the given files; see
    [create_cache] below for the constructor in a world. *)
Definition new_cache (dir : string) (mods fs : gmap string CacheFile)
    : CurseForgeCache :=
  mkCache dir mods fs 0 0 0 0.

(** Updates of single attributes of the object. *)
Definition with_mod_files (f : gmap string CacheFile) (c : CurseForgeCache) :=
  mkCache (cache_dir c) f (file_files c)
          (mod_hits c) (mod_misses c) (file_hits c) (file_misses c).

Definition with_file_files (f : gmap string CacheFile) (c : CurseForgeCache) :=
  mkCache (cache_dir c) (mod_files c) f
          (mod_hits c) (mod_misses c) (file_hits c) (file_misses c).

Definition mod_hit (c : CurseForgeCache) :=
  mkCache (cache_dir c) (mod_files c) (file_files c)
          (mod_hits c + 1) (mod_misses c) (file_hits c) (file_misses c).

Definition mod_miss (c : CurseForgeCache) :=
  mkCache (cache_dir c) (mod_files c) (file_files c)
          (mod_hits c) (mod_misses c + 1) (file_hits c) (file_misses c).

Definition file_hit (c : CurseForgeCache) :=
  mkCache (cache_dir c) (mod_files c) (file_files c)
          (mod_hits c) (mod_misses c) (file_hits c + 1) (file_misses c).

Definition file_miss (c : CurseForgeCache) :=
  mkCache (cache_dir c) (mod_files c) (file_files c)
          (mod_hits c) (mod_misses c) (file_hits c) (file_misses c + 1).

(** [self.get_mod_info(project_id)]: the value returned ([JNull] is
    Python's [None]) or the exception raised, the object afterwards, and the
    lines printed.  The hit is counted once the file is open; the [except]
    clause catches [JSONDecodeError] and [OSError] only, so that any other
    exception of [json.load] leaves the method, after the hit and without a
    miss. *)
Definition get_mod_info (project_id : Z) (self : CurseForgeCache)
    : Exc Json * CurseForgeCache * list LogLine :=
  match mod_files self !! mod_cache_name project_id with
  | Some (FileJson v) => (Ok v, mod_hit self, [])
  | Some FileCorrupt =>
      (Ok JNull, mod_miss (mod_hit self), [ErrReadingModCache project_id])
  | Some FileUnreadable =>
      (Ok JNull, mod_miss self, [ErrReadingModCache project_id])
  | Some FileUndecodable => (Raise OtherException, mod_hit self, [])
  | None => (Ok JNull, mod_miss self, [])
  end.

(** [self.set_mod_info(project_id, mod_info)].  An [OSError] is caught and
    printed; when it comes after [open], the file has been truncated and
    holds what the interrupted write left. *)
Definition set_mod_info (w : World) (project_id : Z) (mod_info : Json)
    (self : CurseForgeCache) : CurseForgeCache * list LogLine :=
  if mod_write_ok w project_id
  then (with_mod_files
          (<[mod_cache_name project_id := FileJson mod_info]> (mod_files self))
          self, [])
  else
    match mod_write_leaves w project_id with
    | Some remains =>
        (with_mod_files
           (<[mod_cache_name project_id := remains]> (mod_files self)) self,
         [ErrWritingModCache project_id])
    | None => (self, [ErrWritingModCache project_id])
    end.

(** [self.get_file_info(project_id, file_id)] *)
Definition get_file_info (project_id file_id : Z) (self : CurseForgeCache)
    : Exc Json * CurseForgeCache * list LogLine :=
  match file_files self !! file_cache_name project_id file_id with
  | Some (FileJson v) => (Ok v, file_hit self, [])
  | Some FileCorrupt =>
      (Ok JNull, file_miss (file_hit self),
       [ErrReadingFileCache project_id file_id])
  | Some FileUnreadable =>
      (Ok JNull, file_miss self, [ErrReadingFileCache project_id file_id])
  | Some FileUndecodable => (Raise OtherException, file_hit self, [])
  | None => (Ok JNull, file_miss self, [])
  end.

(** [self.set_file_info(project_id, file_id, file_info)] *)
Definition set_file_info (w : World) (project_id file_id : Z) (file_info : Json)
    (self : CurseForgeCache) : CurseForgeCache * list LogLine :=
  if file_write_ok w (project_id, file_id)
  then (with_file_files
          (<[file_cache_name project_id file_id := FileJson file_info]>
             (file_files self))
          self, [])
  else
    match file_write_leaves w (project_id, file_id) with
    | Some remains =>
        (with_file_files
           (<[file_cache_name project_id file_id := remains]> (file_files self))
           self,
         [ErrWritingFileCache project_id file_id])
    | None => (self, [ErrWritingFileCache project_id file_id])
    end.

(** [self.get_stats()] *)
Record Stats : Type := mkStats {
  stat_mod_hits : Z;
  stat_mod_misses : Z;
  stat_file_hits : Z;
  stat_file_misses : Z;
  stat_total_hits : Z;
  stat_total_misses : Z
}.

Definition get_stats (self : CurseForgeCache) : Stats :=
  mkStats (mod_hits self) (mod_misses self) (file_hits self) (file_misses self)
          (mod_hits self + file_hits self) (mod_misses self + file_misses self).

(** ** Running the enrichment code

    The functions below share one argument [cache: Optional[CurseForgeCache]]
    that they mutate, and they act on the world; they are written in a monad
    that threads the cache object and the trace of events, and that stops at
    a raised exception. *)
Record St : Type := mkSt {
  st_cache : option CurseForgeCache;
  st_trace : list Event
}.

(** A computation: from a state to a result or a raised exception, and
    the state reached. *)
Definition M (A : Type) : Type := St -> Exc A * St.

#[global] Instance M_ret : MRet M := fun A (a : A) s => (Ok a, s).

#[global] Instance M_bind : MBind M := fun A B (f : A -> M B) (m : M A) s =>
  match m s with
  | (Ok a, s') => f a s'
  | (Raise e, s') => (Raise e, s')
  end.

(** [raise e] *)
Definition raise {A} (e : exn) : M A := fun s => (Raise e, s).

(** Appends one event to the trace. *)
Definition emit (ev : Event) : M unit :=
  fun s => (Ok tt, mkSt (st_cache s) (st_trace s ++ [ev])).

(** [print(..., file=sys.stderr)] *)
Definition stderr (lines : list LogLine) : M unit :=
  fun s => (Ok tt, mkSt (st_cache s) (st_trace s ++ (EvStderr <$> lines))).

(** [cached_info = cache.get_mod_info(project_id)] under [if cache:], and
    [None] without a cache. *)
Definition cache_get_mod_info (project_id : Z) : M Json := fun s =>
  match st_cache s with
  | Some c =>
      let '(r, c', lines) := get_mod_info project_id c in
      (r, mkSt (Some c') (st_trace s ++ (EvStderr <$> lines)))
  | None => (Ok JNull, s)
  end.

(** [if cache: cache.set_mod_info(project_id, mod_info)] *)
Definition cache_set_mod_info (w : World) (project_id : Z) (mod_info : Json)
    : M unit := fun s =>
  match st_cache s with
  | Some c =>
      let '(c', lines) := set_mod_info w project_id mod_info c in
      (Ok tt, mkSt (Some c') (st_trace s ++ (EvStderr <$> lines)))
  | None => (Ok tt, s)
  end.

(** [cached_info = cache.get_file_info(project_id, file_id)] under
    [if cache:]. *)
Definition cache_get_file_info (project_id file_id : Z) : M Json := fun s =>
  match st_cache s with
  | Some c =>
      let '(r, c', lines) := get_file_info project_id file_id c in
      (r, mkSt (Some c') (st_trace s ++ (EvStderr <$> lines)))
  | None => (Ok JNull, s)
  end.

(** [if cache: cache.set_file_info(project_id, file_id, file_info)] *)
Definition cache_set_file_info (w : World) (project_id file_id : Z)
    (file_info : Json) : M unit := fun s =>
  match st_cache s with
  | Some c =>
      let '(c', lines) := set_file_info w project_id file_id file_info c in
      (Ok tt, mkSt (Some c') (st_trace s ++ (EvStderr <$> lines)))
  | None => (Ok tt, s)
  end.

(** [for url in urls: ...]: the body either returns from the function
    ([Some]) or goes on to the next URL ([None]). *)
Fixpoint for_urls (body : string -> M (option Json)) (urls : list string)
    : M (option Json) :=
  match urls with
  | [] => mret None
  | url :: rest =>
      r ← body url;
      match r with
      | Some v => mret (Some v)
      | None => for_urls body rest
      end
  end.

(** ** [scrape_mod_info] *)

Definition mod_urls (project_id : Z) : list string :=
  [ "https://www.curseforge.com/minecraft/mc-mods/" +:+ pretty project_id;
    "https://legacy.curseforge.com/minecraft/mc-mods/p" +:+ pretty project_id ].

(** [f"Project-{project_id}"] *)
Definition project_label (project_id : Z) : string :=
  "Project-" +:+ pretty project_id.

(** The [try] block of [scrape_mod_info] for one URL. *)
Definition try_mod_url (w : World) (project_id : Z) (url : string)
    : M (option Json) :=
  emit (EvGet url);;
  match http_get w url with
  | Raises e =>
      if caught_by_fetcher e
      then stderr [ErrWithUrl url e];; mret None
      else raise e
  | Response status_code text =>
      if negb (Z.eqb status_code 200) then mret None
      else
        let mod_name := default (project_label project_id) (mod_title w text) in
        let mod_info := mod_record project_id mod_name url in
        cache_set_mod_info w project_id mod_info;;
        mret (Some mod_info)
  end.

Definition scrape_mod_info (w : World) (project_id : Z) : M Json :=
  cached_info ← cache_get_mod_info project_id;
  if truthy cached_info then mret cached_info
  else
    r ← for_urls (try_mod_url w project_id) (mod_urls project_id);
    match r with
    | Some mod_info => mret mod_info
    | None =>
        stderr [FailedToScrapeProject project_id];;
        let minimal_info :=
          mod_record project_id (project_label project_id)
            ("https://www.curseforge.com/minecraft/mc-mods/" +:+ pretty project_id) in
        cache_set_mod_info w project_id minimal_info;;
        mret minimal_info
    end.

(** ** [scrape_file_info] *)

Definition file_urls (project_id file_id : Z) : list string :=
  [ "https://www.curseforge.com/minecraft/mc-mods/" +:+ pretty project_id
      +:+ "/files/" +:+ pretty file_id;
    "https://legacy.curseforge.com/minecraft/mc-mods/p" +:+ pretty project_id
      +:+ "/files/" +:+ pretty file_id ].

(** [f"File-{file_id}"] *)
Definition file_label (file_id : Z) : string := "File-" +:+ pretty file_id.

(** The [try] block of [scrape_file_info] for one URL. *)
Definition try_file_url (w : World) (project_id file_id : Z) (url : string)
    : M (option Json) :=
  emit (EvGet url);;
  match http_get w url with
  | Raises e =>
      if caught_by_fetcher e
      then stderr [ErrWithUrl url e];; mret None
      else raise e
  | Response status_code text =>
      if negb (Z.eqb status_code 200) then mret None
      else
        let file_name := default (file_label file_id) (file_title w text) in
        let file_info := file_record file_id file_name url in
        cache_set_file_info w project_id file_id file_info;;
        mret (Some file_info)
  end.

Definition scrape_file_info (w : World) (project_id file_id : Z) : M Json :=
  cached_info ← cache_get_file_info project_id file_id;
  if truthy cached_info then mret cached_info
  else
    r ← for_urls (try_file_url w project_id file_id) (file_urls project_id file_id);
    match r with
    | Some file_info => mret file_info
    | None =>
        stderr [FailedToScrapeFile project_id file_id];;
        let minimal_info :=
          file_record file_id (file_label file_id)
            ("https://www.curseforge.com/minecraft/mc-mods/" +:+ pretty project_id
               +:+ "/files/" +:+ pretty file_id) in
        cache_set_file_info w project_id file_id minimal_info;;
        mret minimal_info
    end.

(** ** The bulk orchestrators *)

(** [l.remove(x)]: drops the first occurrence of [x].  (Python raises
    [ValueError] when there is none; the orchestrators only remove an
    element they are iterating over.) *)
Fixpoint list_remove_first {A} `{EqDecision A} (x : A) (l : list A) : list A :=
  match l with
  | [] => []
  | y :: l' => if decide (y = x) then l' else y :: list_remove_first x l'
  end.

(** A completed future: the value the task returned or the exception it
    raised, delivered by [future.result()]. *)
Definition Future : Type := Exc Json.

(** [executor.submit(task)].  The tasks of one pool are run here one after
    the other, in submission order; every task reads and writes only the
    cache file of its own key. *)
Definition submit (task : M Json) : M Future := fun s =>
  let '(r, s') := task s in (Ok r, s').

(** The loop [for pid in project_ids[:]] that consults the cache: the
    state is the pair of [mod_info] and [project_ids]. *)
Fixpoint check_mod_cache (copy : list Z) (acc : gmap Z Json * list Z)
    : M (gmap Z Json * list Z) :=
  match copy with
  | [] => mret acc
  | pid :: rest =>
      cached_info ← cache_get_mod_info pid;
      if truthy cached_info
      then check_mod_cache rest
             (<[pid := cached_info]> acc.1, list_remove_first pid acc.2)
      else check_mod_cache rest acc
  end.

(** [{executor.submit(scrape_mod_info, pid, cache): pid for pid in project_ids}] *)
Fixpoint submit_mod_tasks (w : World) (project_ids : list Z)
    : M (list (Future * Z)) :=
  match project_ids with
  | [] => mret []
  | pid :: rest =>
      emit (EvSubmitMod pid);;
      future ← submit (scrape_mod_info w pid);
      futures ← submit_mod_tasks w rest;
      mret ((future, pid) :: futures)
  end.

(** [for future in futures: ...] with its [try] / [except Exception]. *)
Fixpoint collect_mod_results (futures : list (Future * Z)) (mod_info : gmap Z Json)
    : M (gmap Z Json) :=
  match futures with
  | [] => mret mod_info
  | (future, pid) :: rest =>
      match future with
      | Ok result =>
          let mod_info' :=
            if truthy result then <[pid := result]> mod_info else mod_info in
          emit (EvSleep (1 # 2));;
          collect_mod_results rest mod_info'
      | Raise e =>
          stderr [ErrProcessingProject pid e];;
          collect_mod_results rest mod_info
      end
  end.

Definition scrape_all_mod_info (w : World) (manifest : Manifest)
    : M (gmap Z Json) := fun s =>
  let project_ids := projectID <$> get_files manifest in
  let mod_info : gmap Z Json := ∅ in
  let project_ids := elements (list_to_set project_ids : gset Z) in
  (p ← (match st_cache s with
        | Some _ => check_mod_cache project_ids (mod_info, project_ids)
        | None => mret (mod_info, project_ids)
        end);
   let '(mod_info, project_ids) := p in
   match project_ids with
   | [] => mret mod_info
   | _ :: _ =>
       emit (EvPool 3);;
       futures ← submit_mod_tasks w project_ids;
       collect_mod_results futures mod_info
   end) s.

(** The same three loops for file-level lookups. *)
Fixpoint check_file_cache (copy : list (Z * Z))
    (acc : gmap (Z * Z) Json * list (Z * Z)) : M (gmap (Z * Z) Json * list (Z * Z)) :=
  match copy with
  | [] => mret acc
  | file_tuple :: rest =>
      cached_info ← cache_get_file_info file_tuple.1 file_tuple.2;
      if truthy cached_info
      then check_file_cache rest
             (<[file_tuple := cached_info]> acc.1,
              list_remove_first file_tuple acc.2)
      else check_file_cache rest acc
  end.

Fixpoint submit_file_tasks (w : World) (fs : list (Z * Z))
    : M (list (Future * (Z * Z))) :=
  match fs with
  | [] => mret []
  | (pid, fid) :: rest =>
      emit (EvSubmitFile pid fid);;
      future ← submit (scrape_file_info w pid fid);
      futures ← submit_file_tasks w rest;
      mret ((future, (pid, fid)) :: futures)
  end.

Fixpoint collect_file_results (futures : list (Future * (Z * Z)))
    (file_info : gmap (Z * Z) Json) : M (gmap (Z * Z) Json) :=
  match futures with
  | [] => mret file_info
  | (future, (pid, fid)) :: rest =>
      match future with
      | Ok result =>
          let file_info' :=
            if truthy result then <[(pid, fid) := result]> file_info
            else file_info in
          emit (EvSleep (1 # 2));;
          collect_file_results rest file_info'
      | Raise e =>
          stderr [ErrProcessingFile pid fid e];;
          collect_file_results rest file_info
      end
  end.

Definition scrape_all_file_info (w : World) (manifest : Manifest)
    : M (gmap (Z * Z) Json) := fun s =>
  let file_info : gmap (Z * Z) Json := ∅ in
  let fs := (fun item => (projectID item, fileID item)) <$> get_files manifest in
  let fs := elements (list_to_set fs : gset (Z * Z)) in
  (p ← (match st_cache s with
        | Some _ => check_file_cache fs (file_info, fs)
        | None => mret (file_info, fs)
        end);
   let '(file_info, fs) := p in
   match fs with
   | [] => mret file_info
   | _ :: _ =>
       emit (EvPool 3);;
       futures ← submit_file_tasks w fs;
       collect_file_results futures file_info
   end) s.

(** ** The enrichment part of [main] *)

(** The parsed command line. *)
Record Args : Type := mkArgs {
  old_zip : string;
  new_zip : string;
  output : option string;
  scrape : bool;
  no_scrape_files : bool;
  delay : Q;
  max_workers : Z;
  args_cache_dir : string;
  no_cache : bool
}.

(** The command line [old_zip new_zip] with every option at its default. *)
Definition default_args (old new : string) : Args :=
  mkArgs old new None false false (1 # 2) 3 ".cursecache" false.

(** The loop that builds [all_files]: an entry of the new manifest is
    skipped when the list already has its pair. *)
Definition add_new_file (all_files : list FileEntry) (item : FileEntry)
    : list FileEntry :=
  if existsb (fun f => Z.eqb (projectID f) (projectID item)
                       && Z.eqb (fileID f) (fileID item)) all_files
  then all_files
  else all_files ++ [entry (projectID item) (fileID item)].

Definition combined_manifest (old_manifest new_manifest : Manifest) : Manifest :=
  let all_files :=
    (fun item => entry (projectID item) (fileID item)) <$> get_files old_manifest in
  mkManifest (Some (fold_left add_new_file (get_files new_manifest) all_files)).

(** The result of the [if args.scrape:] block: [old_mod_info],
    [new_mod_info] and [file_info]. *)
Definition Enrichment : Type :=
  gmap Z Json * gmap Z Json * gmap (Z * Z) Json.

(** The body of [if args.scrape:], from the creation of the cache to the
    call of [scrape_all_file_info]. *)
Definition scrape_block (w : World) (args : Args)
    (old_manifest new_manifest : Manifest) : M Enrichment :=
  old_mod_info ← scrape_all_mod_info w old_manifest;
  let old_project_ids : gset Z :=
    list_to_set (projectID <$> get_files old_manifest) in
  let new_project_ids : gset Z :=
    list_to_set (projectID <$> get_files new_manifest) in
  new_mod_info ← (if decide (old_project_ids ≠ new_project_ids)
                  then scrape_all_mod_info w new_manifest
                  else mret old_mod_info);
  file_info ← (if negb (no_scrape_files args)
               then scrape_all_file_info w (combined_manifest old_manifest new_manifest)
               else mret ∅);
  mret (old_mod_info, new_mod_info, file_info).

(** [CurseForgeCache(cache_dir)] in a world: the constructor calls
    [os.makedirs] for the two directories and lets their [OSError] out. *)
Definition create_cache (w : World) (dir : string) (mods fs : gmap string CacheFile)
    : Exc CurseForgeCache :=
  if makedirs_ok w dir then Ok (new_cache dir mods fs) else Raise OtherException.

(** [main], from the parsed command line and the two extracted manifests
    to the arguments of the report generator: the enrichment maps and the
    diff, together with the state the run ends in.  [mods] and [fs] are the
    files found in the directory [args.cache_dir].  An exception raised on
    the way, by the constructor of the cache or by an orchestration, is the
    result: [main] then prints it and exits with status 1. *)
Definition main (w : World) (args : Args)
    (mods fs : gmap string CacheFile)
    (old_manifest new_manifest : Manifest)
    : Exc (Enrichment * (list FileEntry * list FileEntry * list Update)) * St :=
  let cache :=
    if scrape args && negb (no_cache args)
    then match create_cache w (args_cache_dir args) mods fs with
         | Ok c => Ok (Some c)
         | Raise e => Raise e
         end
    else Ok None in
  match cache with
  | Raise e => (Raise e, mkSt None [])
  | Ok cache =>
      (enrichment ← (if scrape args
                     then scrape_block w args old_manifest new_manifest
                     else mret (∅, ∅, ∅));
       mret (enrichment, compare_manifests old_manifest new_manifest))
        (mkSt cache [])
  end.

(** ** What one key resolves to

    The value [scrape_mod_info] produces for a key depends only on the
    cache file of that key and on the responses to that key's URLs. *)

(** The outcome of the URL loop and of the fallback after it. *)
Fixpoint fetch_outcome (w : World) (record : string -> string -> Json)
    (title : string -> option string) (label : string) (fallback : Json)
    (urls : list string) : Exc Json :=
  match urls with
  | [] => Ok fallback
  | url :: rest =>
      match http_get w url with
      | Raises e =>
          if caught_by_fetcher e
          then fetch_outcome w record title label fallback rest
          else Raise e
      | Response status_code text =>
          if negb (Z.eqb status_code 200)
          then fetch_outcome w record title label fallback rest
          else Ok (record (default label (title text)) url)
      end
  end.

(** The placeholder records. *)
Definition mod_placeholder (project_id : Z) : Json :=
  mod_record project_id (project_label project_id)
    ("https://www.curseforge.com/minecraft/mc-mods/" +:+ pretty project_id).

Definition file_placeholder (project_id file_id : Z) : Json :=
  file_record file_id (file_label file_id)
    ("https://www.curseforge.com/minecraft/mc-mods/" +:+ pretty project_id
       +:+ "/files/" +:+ pretty file_id).

Definition mod_fetch (w : World) (project_id : Z) : Exc Json :=
  fetch_outcome w (mod_record project_id) (mod_title w)
    (project_label project_id) (mod_placeholder project_id) (mod_urls project_id).

Definition file_fetch (w : World) (project_id file_id : Z) : Exc Json :=
  fetch_outcome w (file_record file_id) (file_title w)
    (file_label file_id) (file_placeholder project_id file_id)
    (file_urls project_id file_id).

(** What the cache returns for a key: the stored value when the file holds
    valid JSON, [None] otherwise and without a cache; also [None], for want
    of a value, where the lookup raises (see [mod_lookup]). *)
Definition cached_mod (cache : option CurseForgeCache) (project_id : Z) : Json :=
  match cache with
  | Some c =>
      match mod_files c !! mod_cache_name project_id with
      | Some (FileJson v) => v
      | _ => JNull
      end
  | None => JNull
  end.

Definition cached_file (cache : option CurseForgeCache) (project_id file_id : Z)
    : Json :=
  match cache with
  | Some c =>
      match file_files c !! file_cache_name project_id file_id with
      | Some (FileJson v) => v
      | _ => JNull
      end
  | None => JNull
  end.

(** Whether the lookup of a key raises: its file is one that [json.load]
    rejects with an exception the cache does not catch. *)
Definition mod_lookup_raises (cache : option CurseForgeCache) (project_id : Z)
    : bool :=
  match cache with
  | Some c =>
      match mod_files c !! mod_cache_name project_id with
      | Some FileUndecodable => true
      | _ => false
      end
  | None => false
  end.

Definition file_lookup_raises (cache : option CurseForgeCache)
    (project_id file_id : Z) : bool :=
  match cache with
  | Some c =>
      match file_files c !! file_cache_name project_id file_id with
      | Some FileUndecodable => true
      | _ => false
      end
  | None => false
  end.

(** The outcome of the lookup of a key. *)
Definition mod_lookup (cache : option CurseForgeCache) (project_id : Z)
    : Exc Json :=
  if mod_lookup_raises cache project_id then Raise OtherException
  else Ok (cached_mod cache project_id).

Definition file_lookup (cache : option CurseForgeCache) (project_id file_id : Z)
    : Exc Json :=
  if file_lookup_raises cache project_id file_id then Raise OtherException
  else Ok (cached_file cache project_id file_id).

(** The exception of the lookup leaves the fetcher; a cached record that is
    true is used; otherwise the key is fetched. *)
Definition mod_resolution (w : World) (cache : option CurseForgeCache)
    (project_id : Z) : Exc Json :=
  if mod_lookup_raises cache project_id then Raise OtherException
  else if truthy (cached_mod cache project_id)
  then Ok (cached_mod cache project_id)
  else mod_fetch w project_id.

Definition file_resolution (w : World) (cache : option CurseForgeCache)
    (project_id file_id : Z) : Exc Json :=
  if file_lookup_raises cache project_id file_id then Raise OtherException
  else if truthy (cached_file cache project_id file_id)
  then Ok (cached_file cache project_id file_id)
  else file_fetch w project_id file_id.

(** Every candidate URL of a list fails: a caught exception or a status
    other than 200. *)
Definition url_fails (w : World) (url : string) : bool :=
  match http_get w url with
  | Raises e => caught_by_fetcher e
  | Response status_code _ => negb (Z.eqb status_code 200)
  end.

(** No candidate URL of a list raises an exception the fetcher lets through. *)
Definition url_escapes (w : World) (url : string) : bool :=
  match http_get w url with
  | Raises e => negb (caught_by_fetcher e)
  | Response _ _ => false
  end.

(** The events by which a key reaches the fetcher or the network. *)
Definition is_fetch_event (ev : Event) : bool :=
  match ev with
  | EvGet _ | EvPool _ | EvSubmitMod _ | EvSubmitFile _ _ => true
  | EvSleep _ | EvStderr _ => false
  end.

(** The project keys dispatched by a trace, in order. *)
Definition submitted_mods (t : list Event) : list Z :=
  omap (fun ev => match ev with EvSubmitMod pid => Some pid | _ => None end) t.

(** The pool widths and the pacing delays a trace has used. *)
Definition pool_widths (t : list Event) : list Z :=
  omap (fun ev => match ev with EvPool n => Some n | _ => None end) t.

Definition pacing_delays (t : list Event) : list Q :=
  omap (fun ev => match ev with EvSleep d => Some d | _ => None end) t.

(** ** Vocabulary of the statements *)

(** The cache file of a project, if there is a cache and a file. *)
Definition mod_file (cache : option CurseForgeCache) (project_id : Z)
    : option CacheFile :=
  match cache with
  | Some c => mod_files c !! mod_cache_name project_id
  | None => None
  end.

(** Two cache arguments that agree on being absent. *)
Definition same_presence (a b : option CurseForgeCache) : Prop :=
  match a, b with
  | Some _, Some _ | None, None => True
  | _, _ => False
  end.

(** An action appends to the trace, and only events accepted by [P]. *)
Definition extends (P : Event -> bool) (s s' : St) : Prop :=
  exists t, st_trace s' = st_trace s ++ t /\ forallb P t = true.

Definition emits {A} (P : Event -> bool) (m : M A) : Prop :=
  forall s, extends P s (m s).2.

Definition is_stderr (ev : Event) : bool :=
  match ev with EvStderr _ => true | _ => false end.

Definition is_get_or_stderr (ev : Event) : bool :=
  match ev with EvGet _ | EvStderr _ => true | _ => false end.

(** The pool is three workers wide and the pause is half a second. *)
Definition is_hardwired (ev : Event) : bool :=
  match ev with
  | EvPool n => Z.eqb n 3
  | EvSleep d => Qeq_bool d (1 # 2)
  | _ => true
  end.

(** Two cache arguments with the same project files. *)
Definition same_mod_files (a b : option CurseForgeCache) : Prop :=
  same_presence a b /\ forall q, mod_file b q = mod_file a q.

(** Two cache arguments with the same project files except that of [pid]. *)
Definition mod_frame (pid : Z) (a b : option CurseForgeCache) : Prop :=
  same_presence a b /\ forall q, q <> pid -> mod_file b q = mod_file a q.

(** ** Worlds and inputs of the examples *)

(** Every page is missing and the disk can be written. *)
Definition world_all_404 : World :=
  mkWorld (fun _ => Response 404 "") (fun _ => None) (fun _ => None)
          (fun _ => true) (fun _ => true)
          (fun _ => None) (fun _ => None) (fun _ => true).


(** The first URL of project 2 raises such an exception; every other page
    is missing. *)
Definition world_project_2_raises : World :=
  mkWorld (fun url =>
             if String.eqb url "https://www.curseforge.com/minecraft/mc-mods/2"
             then Raises OtherException else Response 404 "")
          (fun _ => None) (fun _ => None) (fun _ => true) (fun _ => true)
          (fun _ => None) (fun _ => None) (fun _ => true).

(** The page every URL of [world_faulty] serves: its heading is found by
    the first selector of the project fetcher and by the selector [main h1]
    of the file fetcher. *)
Definition page_a_mod : string :=
  "<main><h1 class='project-title'>A mod</h1></main>".

(** Every page is served and titled, the first URL of project 2 raises,
    and the cache file of project 1 cannot be opened for writing. *)
Definition world_faulty : World :=
  mkWorld (fun url =>
             if String.eqb url "https://www.curseforge.com/minecraft/mc-mods/2"
             then Raises OtherException else Response 200 page_a_mod)
          (fun text => if String.eqb text page_a_mod then Some "A mod" else None)
          (fun text => if String.eqb text page_a_mod then Some "A mod" else None)
          (fun project_id => negb (Z.eqb project_id 1)) (fun _ => true)
          (fun _ => None) (fun _ => None) (fun _ => true).

(** No cache, nothing traced yet. *)
Definition start_without_cache : St := mkSt None [].

(** A fresh cache on an empty directory. *)
Definition start_with_empty_cache : St :=
  mkSt (Some (new_cache ".cursecache" ∅ ∅)) [].

Definition manifest_1_2 : Manifest :=
  mkManifest (Some [entry 1 10; entry 2 20]).

Definition manifest_1_2_3 : Manifest :=
  mkManifest (Some [entry 1 10; entry 2 20; entry 3 30; entry 1 11]).

(** [--scrape --no-scrape-files --delay 2.0 --max-workers 8] *)
Definition args_delay_2_workers_8 : Args :=
  mkArgs "old.zip" "new.zip" None true true 2 8 ".cursecache" false.

(** ** More vocabulary: the differ *)

(** The update the [updates] loop appends for one project, if any. *)
Definition update_for (old_files new_files : PyDict.t FileEntry)
    (project_id : Z) : option Update :=
  match PyDict.get project_id new_files, PyDict.get project_id old_files with
  | Some n, Some o =>
      if negb (Z.eqb (fileID o) (fileID n))
      then Some (mkUpdate project_id (fileID o) (fileID n))
      else None
  | _, _ => None
  end.

(** The projectIDs of a manifest, in the order of its [files] list. *)
Definition project_ids_of (m : Manifest) : list Z := projectID <$> get_files m.

(** The pair the report and the file orchestrator identify an entry by. *)
Definition file_key (e : FileEntry) : Z * Z := (projectID e, fileID e).

(** The new manifest of the end-to-end example. *)
Definition manifest_2_3 : Manifest :=
  mkManifest (Some [entry 2 21; entry 3 30]).

(** The manifest [manifest_1_2] with every entry marked as required. *)
Definition manifest_1_2_required : Manifest :=
  mkManifest (Some [mkFileEntry 1 10 (Some true); mkFileEntry 2 20 (Some true)]).

(** ** More vocabulary: the cache and the fetchers *)

(** A text without the character [_]. *)
Definition underscore_free (s : string) : Prop :=
  forall a b, s <> a +:+ "_" +:+ b.

(** What a cache lookup adds to the two counters of its namespace taken
    together: a file that opens and that [json.load] rejects with
    [JSONDecodeError] is counted as a hit and as a miss. *)
Definition lookups_counted (file : option CacheFile) : Z :=
  match file with
  | Some FileCorrupt => 2
  | _ => 1
  end.

(** The URLs requested by a trace, in order. *)
Definition requested_urls (t : list Event) : list string :=
  omap (fun ev => match ev with EvGet url => Some url | _ => None end) t.

(** The candidates the URL loop gets to: it goes on to the next one only
    after a failure. *)
Fixpoint urls_tried (w : World) (urls : list string) : list string :=
  match urls with
  | [] => []
  | url :: rest => url :: (if url_fails w url then urls_tried w rest else [])
  end.

(** The page of the legacy site in [world_legacy_only]: its heading is
    found by the first selector of the project fetcher and by the selector
    [main h1] of the file fetcher. *)
Definition page_old_name : string :=
  "<main><h1 class='project-title'>Old name</h1></main>".

(** The URLs a fetch requests in a state: none when the lookup raises or
    gives a true value, and otherwise the candidates the loop gets to. *)
Definition mod_requests (w : World) (cache : option CurseForgeCache)
    (project_id : Z) : list string :=
  if mod_lookup_raises cache project_id then []
  else if truthy (cached_mod cache project_id) then []
  else urls_tried w (mod_urls project_id).

Definition file_requests (w : World) (cache : option CurseForgeCache)
    (project_id file_id : Z) : list string :=
  if file_lookup_raises cache project_id file_id then []
  else if truthy (cached_file cache project_id file_id) then []
  else urls_tried w (file_urls project_id file_id).

(** The current site answers 404 and the legacy site serves titled pages. *)
Definition world_legacy_only : World :=
  mkWorld (fun url =>
             if String.prefix "https://legacy." url
             then Response 200 page_old_name else Response 404 "")
          (fun text => if String.eqb text page_old_name then Some "Old name" else None)
          (fun text => if String.eqb text page_old_name then Some "Old name" else None)
          (fun _ => true) (fun _ => true)
          (fun _ => None) (fun _ => None) (fun _ => true).

(** The cache argument before and after an action that works on the
    project namespace only: the object is still there (or still absent),
    the directory [files] and its two counters are as they were, and the
    counters of the project namespace have not gone down. *)
Definition mod_side_only (a b : option CurseForgeCache) : Prop :=
  match a, b with
  | Some x, Some y =>
      cache_dir y = cache_dir x
      /\ file_files y = file_files x
      /\ file_hits y = file_hits x /\ file_misses y = file_misses x
      /\ (mod_hits x <= mod_hits y)%Z /\ (mod_misses x <= mod_misses y)%Z
  | None, None => True
  | _, _ => False
  end.

(** The same for an action that works on the file namespace only. *)
Definition file_side_only (a b : option CurseForgeCache) : Prop :=
  match a, b with
  | Some x, Some y =>
      cache_dir y = cache_dir x
      /\ mod_files y = mod_files x
      /\ mod_hits y = mod_hits x /\ mod_misses y = mod_misses x
      /\ (file_hits x <= file_hits y)%Z /\ (file_misses x <= file_misses y)%Z
  | None, None => True
  | _, _ => False
  end.

(** An action relates the cache argument it finds to the one it leaves. *)
Definition preserves {A} (R : option CurseForgeCache -> option CurseForgeCache -> Prop)
    (m : M A) : Prop :=
  forall s, R (st_cache s) (st_cache (m s).2).


(** A cache in which the file of project 2 and the file of (2, 20) are not
    valid UTF-8. *)
Definition start_with_undecodable : St :=
  mkSt (Some (new_cache ".cursecache"
                {[ mod_cache_name 2 := FileUndecodable ]}
                {[ file_cache_name 2 20 := FileUndecodable ]})) [].

(** ** More vocabulary: the orchestrators and [main] *)

(** Whether the fetch of a project, called in a given state, returns. *)
Definition fetch_returns (w : World) (s : St) (project_id : Z) : bool :=
  match (scrape_mod_info w project_id s).1 with
  | Ok _ => true
  | Raise _ => false
  end.

(** Whether a result is a returned value. *)
Definition is_ok {A} (r : Exc A) : bool :=
  match r with
  | Ok _ => true
  | Raise _ => false
  end.

(** The events of the tasks themselves: neither a pool nor a pause. *)
Definition is_task_event (ev : Event) : bool :=
  match ev with
  | EvPool _ | EvSleep _ => false
  | _ => true
  end.

(** Any event but the dispatch of a project key. *)
Definition is_not_submit_mod (ev : Event) : bool :=
  match ev with
  | EvSubmitMod _ => false
  | _ => true
  end.

(** The state [main] starts the enrichment in. *)
Definition main_start (args : Args) (mods fs : gmap string CacheFile) : St :=
  mkSt (if scrape args && negb (no_cache args)
        then Some (new_cache (args_cache_dir args) mods fs)
        else None) [].

(** [--scrape --no-scrape-files] and [--scrape --no-scrape-files --no-cache] *)
Definition args_scrape : Args :=
  mkArgs "old.zip" "new.zip" None true true (1 # 2) 3 ".cursecache" false.

Definition args_scrape_no_cache : Args :=
  mkArgs "old.zip" "new.zip" None true true (1 # 2) 3 ".cursecache" true.

(** ** More vocabulary: the file orchestrator *)

(** The cache file of a (project, file) pair, if there is a cache and a
    file. *)
Definition file_file (cache : option CurseForgeCache) (key : Z * Z)
    : option CacheFile :=
  match cache with
  | Some c => file_files c !! file_cache_name key.1 key.2
  | None => None
  end.

(** Two cache arguments with the same files in [files]. *)
Definition same_file_files (a b : option CurseForgeCache) : Prop :=
  same_presence a b /\ forall k, file_file b k = file_file a k.

(** Two cache arguments with the same files in [files] except that of
    [key]. *)
Definition file_frame (key : Z * Z) (a b : option CurseForgeCache) : Prop :=
  same_presence a b /\ forall k, k <> key -> file_file b k = file_file a k.

(** The (project, file) pairs dispatched by a trace, in order. *)
Definition submitted_files (t : list Event) : list (Z * Z) :=
  omap (fun ev => match ev with
                  | EvSubmitFile pid fid => Some (pid, fid)
                  | _ => None
                  end) t.

(** Whether the fetch of a file, called in a given state, returns. *)
Definition file_fetch_returns (w : World) (s : St) (key : Z * Z) : bool :=
  is_ok (scrape_file_info w key.1 key.2 s).1.

(** ** [generate_markdown]

    Of the two manifests the report generator reads the keys [name],
    [version] and [minecraft] only; the [files] come to it through the three
    lists of the diff.  The values of these keys are taken to be what a
    CurseForge manifest has there: texts, and for a mod loader a text and a
    boolean.  A key that is missing is [None]. *)
(** A mod loader: the keys [id] and [primary]. *)
Record ModLoader : Type := mkModLoader {
  loader_id : option string;
  loader_primary : option bool
}.

(** The value of the key [minecraft]: the keys [version] and [modLoaders]. *)
Record Minecraft : Type := mkMinecraft {
  mc_version : option string;
  modLoaders : option (list ModLoader)
}.

(** The keys [name], [version] and [minecraft] of a manifest. *)
Record Header : Type := mkHeader {
  pack_name : option string;
  pack_version : option string;
  minecraft : option Minecraft
}.

#[global] Instance ModLoader_eq_dec : EqDecision ModLoader.
Proof. solve_decision. Defined.

(** The line feed. *)
Definition LF : string := String "010"%char "".

(** [str(b)] for a boolean. *)
Definition py_str_bool (b : bool) : string := if b then "True" else "False".

(** [bool(d)] for a dictionary: it has an entry. *)
Definition nonempty `{Countable K} {V} (d : gmap K V) : bool :=
  negb (Nat.eqb (size d) 0).

(** The value of a key among the pairs of a JSON object; of two pairs with
    the same key the later one counts, as for [json.load]. *)
Fixpoint dict_lookup (key : string) (kvs : list (string * Json)) : option Json :=
  match kvs with
  | [] => None
  | (k, v) :: rest =>
      match dict_lookup key rest with
      | Some v' => Some v'
      | None => if String.eqb k key then Some v else None
      end
  end.

(** [record.get(key, dflt)]: only a dictionary has the method [get]. *)
Definition json_get (record : Json) (key : string) (dflt : Json) : Exc Json :=
  match record with
  | JDict kvs => Ok (default dflt (dict_lookup key kvs))
  | _ => Raise AttributeError
  end.

(** Sequencing of computations that may raise. *)
Definition and_then {A B} (r : Exc A) (k : A -> Exc B) : Exc B :=
  match r with
  | Ok a => k a
  | Raise e => Raise e
  end.

(** [for x in l: markdown += row(x)] *)
Fixpoint for_rows {A} (row : A -> Exc string) (l : list A) (markdown : string)
    : Exc string :=
  match l with
  | [] => Ok markdown
  | x :: rest => and_then (row x) (fun r => for_rows row rest (markdown +:+ r))
  end.

(** [for loader in loaders: markdown += f"- `{id}` ({primary})" + ending] *)
Definition loader_line (ending : string) (loader : ModLoader) : string :=
  let primary :=
    if default false (loader_primary loader) then "primary" else "secondary" in
  "- `" +:+ default "Unknown" (loader_id loader) +:+ "` (" +:+ primary +:+ ")"
    +:+ ending.

Definition for_loaders (ending : string) (loaders : list ModLoader)
    (markdown : string) : string :=
  fold_left (fun markdown loader => markdown +:+ loader_line ending loader)
            loaders markdown.

Section Report.

(** What [str] makes of a list or of a dictionary is left open. *)
Variable py_repr : Json -> string.

(** [str(v)], as an f-string formats a value. *)
Definition py_str (v : Json) : string :=
  match v with
  | JNull => "None"
  | JBool b => py_str_bool b
  | JInt n => pretty n
  | JStr s => s
  | JList _ | JDict _ => py_repr v
  end.

(** [mod_name]: ["Unknown"], or the name of the project's record. *)
Definition mod_name_of (mod_info : gmap Z Json) (project_id : Z) : Exc Json :=
  match mod_info !! project_id with
  | Some record => json_get record "name" (JStr "Unknown")
  | None => Ok (JStr "Unknown")
  end.

(** [file_data.get('displayName', file_data.get('fileName', 'Unknown'))],
    or ["Unknown"] without a record. *)
Definition version_of (file_info : gmap (Z * Z) Json) (key : Z * Z) : Exc Json :=
  match file_info !! key with
  | Some file_data =>
      and_then (json_get file_data "fileName" (JStr "Unknown")) (fun file_name =>
      json_get file_data "displayName" file_name)
  | None => Ok (JStr "Unknown")
  end.

(** [file_name]: ["Unknown"], or the file name of the file's record. *)
Definition file_name_of (file_info : gmap (Z * Z) Json) (key : Z * Z) : Exc Json :=
  match file_info !! key with
  | Some file_data => json_get file_data "fileName" (JStr "Unknown")
  | None => Ok (JStr "Unknown")
  end.

(** One row of the enhanced table of additions or removals. *)
Definition entry_row (mod_info : gmap Z Json) (file_info : gmap (Z * Z) Json)
    (mod_ : FileEntry) : Exc string :=
  let project_id := projectID mod_ in
  let file_id := fileID mod_ in
  let required := py_str_bool (default false (required mod_)) in
  and_then (mod_name_of mod_info project_id) (fun mod_name =>
  and_then (file_name_of file_info (project_id, file_id)) (fun file_name =>
  and_then (version_of file_info (project_id, file_id)) (fun version =>
  Ok ("| " +:+ pretty project_id +:+ " | " +:+ py_str mod_name +:+ " | "
        +:+ py_str file_name +:+ " | " +:+ py_str version +:+ " | "
        +:+ required +:+ " |" +:+ LF)))).

(** One row of the basic table of additions or removals. *)
Definition basic_entry_row (mod_ : FileEntry) : Exc string :=
  let required := py_str_bool (default false (required mod_)) in
  Ok ("| " +:+ pretty (projectID mod_) +:+ " | " +:+ pretty (fileID mod_) +:+ " | "
        +:+ required +:+ " |" +:+ LF).

(** One row of the enhanced table of updates. *)
Definition update_row (mod_info : gmap Z Json) (file_info : gmap (Z * Z) Json)
    (mod_ : Update) : Exc string :=
  let project_id := u_projectID mod_ in
  let old_file_id := old_fileID mod_ in
  let new_file_id := new_fileID mod_ in
  and_then (mod_name_of mod_info project_id) (fun mod_name =>
  and_then (version_of file_info (project_id, old_file_id)) (fun old_version =>
  and_then (version_of file_info (project_id, new_file_id)) (fun new_version =>
  Ok ("| " +:+ pretty project_id +:+ " | " +:+ py_str mod_name +:+ " | "
        +:+ py_str old_version +:+ " | " +:+ py_str new_version +:+ " |"
        +:+ LF)))).

(** One row of the basic table of updates. *)
Definition basic_update_row (mod_ : Update) : Exc string :=
  Ok ("| " +:+ pretty (u_projectID mod_) +:+ " | " +:+ pretty (old_fileID mod_)
        +:+ " | " +:+ pretty (new_fileID mod_) +:+ " |" +:+ LF).

(** The section [## Additions] or [## Removals]. *)
Definition entries_section (title : string) (entries : list FileEntry)
    (mod_info : gmap Z Json) (file_info : gmap (Z * Z) Json) (markdown : string)
    : Exc string :=
  match entries with
  | [] => Ok markdown
  | _ :: _ =>
      let markdown := markdown +:+ "## " +:+ title +:+ LF +:+ LF in
      and_then
        (if nonempty mod_info && nonempty file_info
         then
           let markdown :=
             markdown
               +:+ "| Project ID | Mod Name | File Name | Version | Required |" +:+ LF in
           let markdown :=
             markdown
               +:+ "|-----------|----------|-----------|---------|----------|" +:+ LF in
           for_rows (entry_row mod_info file_info) entries markdown
         else
           let markdown := markdown +:+ "| Project ID | File ID | Required |" +:+ LF in
           let markdown := markdown +:+ "|-----------|---------|----------|" +:+ LF in
           for_rows basic_entry_row entries markdown)
        (fun markdown => Ok (markdown +:+ LF))
  end.

(** The section [## Updates]. *)
Definition updates_section (updates : list Update)
    (mod_info : gmap Z Json) (file_info : gmap (Z * Z) Json) (markdown : string)
    : Exc string :=
  match updates with
  | [] => Ok markdown
  | _ :: _ =>
      let markdown := markdown +:+ "## Updates" +:+ LF +:+ LF in
      and_then
        (if nonempty mod_info && nonempty file_info
         then
           let markdown :=
             markdown
               +:+ "| Project ID | Mod Name | From Version | To Version |" +:+ LF in
           let markdown :=
             markdown
               +:+ "|-----------|----------|--------------|------------|" +:+ LF in
           for_rows (update_row mod_info file_info) updates markdown
         else
           let markdown :=
             markdown +:+ "| Project ID | Old File ID | New File ID |" +:+ LF in
           let markdown :=
             markdown +:+ "|-----------|------------|------------|" +:+ LF in
           for_rows basic_update_row updates markdown)
        (fun markdown => Ok (markdown +:+ LF))
  end.

(** The lines before the three tables: the title, the two packs, and the
    changes of the Minecraft version and of the mod loaders. *)
Definition report_head (old_manifest new_manifest : Header) : string :=
  let old_version := default "Unknown" (pack_version old_manifest) in
  let new_version := default "Unknown" (pack_version new_manifest) in
  let old_name := default "Unknown" (pack_name old_manifest) in
  let new_name := default "Unknown" (pack_name new_manifest) in
  let markdown := "# Manifest Comparison" +:+ LF +:+ LF in
  let markdown :=
    markdown +:+ "Comparing " +:+ old_name +:+ " v" +:+ old_version +:+ " to "
      +:+ new_name +:+ " v" +:+ new_version +:+ LF +:+ LF in
  let old_mc :=
    default "Unknown" (minecraft old_manifest ≫= mc_version) in
  let new_mc :=
    default "Unknown" (minecraft new_manifest ≫= mc_version) in
  let markdown :=
    if decide (old_mc ≠ new_mc)
    then
      let markdown := markdown +:+ "## Minecraft Version Change" +:+ LF +:+ LF in
      markdown +:+ "- Changed from `" +:+ old_mc +:+ "` to `" +:+ new_mc +:+ "`"
        +:+ LF +:+ LF
    else markdown in
  let old_loaders :=
    default [] (minecraft old_manifest ≫= modLoaders) in
  let new_loaders :=
    default [] (minecraft new_manifest ≫= modLoaders) in
  if decide (old_loaders ≠ new_loaders)
  then
    let markdown := markdown +:+ "## Mod Loader Changes" +:+ LF +:+ LF in
    let markdown := markdown +:+ "### Old Loaders:" +:+ LF in
    let markdown := for_loaders LF old_loaders markdown in
    let markdown := markdown +:+ LF +:+ "### New Loaders:" +:+ LF in
    for_loaders (LF +:+ LF) new_loaders markdown
  else markdown.

Definition generate_markdown (old_manifest new_manifest : Header)
    (additions removals : list FileEntry) (updates : list Update)
    (old_mod_info new_mod_info : gmap Z Json) (file_info : gmap (Z * Z) Json)
    : Exc string :=
  let markdown := report_head old_manifest new_manifest in
  and_then (entries_section "Additions" additions new_mod_info file_info markdown)
    (fun markdown =>
  and_then (entries_section "Removals" removals old_mod_info file_info markdown)
    (fun markdown =>
  updates_section updates new_mod_info file_info markdown)).

(** [main] to the report: the enrichment, the diff, and the call of
    [generate_markdown] on them.  An exception ends the run with exit
    status 1 and without a report. *)
Definition main_report (w : World) (args : Args) (mods fs : gmap string CacheFile)
    (old_header new_header : Header) (old_manifest new_manifest : Manifest)
    : Exc string :=
  and_then (main w args mods fs old_manifest new_manifest).1 (fun result =>
  let '(old_mod_info, new_mod_info, file_info, (additions, removals, updates)) :=
    result in
  generate_markdown old_header new_header additions removals updates
    old_mod_info new_mod_info file_info).

End Report.

(** A record is a dictionary. *)
Definition is_dict (v : Json) : bool :=
  match v with
  | JDict _ => true
  | _ => false
  end.

(** A map has, at a key, a value that is not a dictionary. *)
Definition not_a_record `{Countable K} (d : gmap K Json) (key : K) : Prop :=
  exists v, d !! key = Some v /\ is_dict v = false.

(** A pack and its loaders, for the examples. *)
Definition header_1 : Header :=
  mkHeader (Some "Pack") (Some "1.0")
    (Some (mkMinecraft (Some "1.20.1")
             (Some [mkModLoader (Some "forge-47.2.0") (Some true)]))).

(** Every file of a cache directory that parses holds a JSON object. *)
Definition holds_records (files : gmap string CacheFile) : Prop :=
  forall name v, files !! name = Some (FileJson v) -> is_dict v = true.

(** An action keeps the project files of the cache records, if they were. *)
Definition keeps_mod_records (a b : option CurseForgeCache) : Prop :=
  match a, b with
  | Some x, Some y => holds_records (mod_files x) -> holds_records (mod_files y)
  | None, None => True
  | _, _ => False
  end.

(** No file of a cache directory is one that cannot be decoded as text. *)
Definition decodable (files : gmap string CacheFile) : Prop :=
  forall name, files !! name <> Some FileUndecodable.

(** What a failed write of a project record leaves of the file can be
    decoded as text. *)
Definition writes_leave_text (w : World) : Prop :=
  forall project_id, mod_write_leaves w project_id <> Some FileUndecodable.

(** What a failed write of a project record leaves of the file holds a JSON
    object, if it parses. *)
Definition writes_leave_records (w : World) : Prop :=
  forall project_id v,
    mod_write_leaves w project_id = Some (FileJson v) -> is_dict v = true.

(** An action keeps the project files of the cache decodable, if they
    were. *)
Definition keeps_mods_decodable (a b : option CurseForgeCache) : Prop :=
  match a, b with
  | Some x, Some y => decodable (mod_files x) -> decodable (mod_files y)
  | None, None => True
  | _, _ => False
  end.

(** Nothing is served and the disk is full: every write of a cache file
    fails after [open], and leaves a truncated file that does not parse. *)
Definition world_disk_full : World :=
  mkWorld (fun _ => Response 404 "") (fun _ => None) (fun _ => None)
          (fun _ => false) (fun _ => false)
          (fun _ => Some FileCorrupt) (fun _ => Some FileCorrupt)
          (fun _ => true).

(** Nothing is served and the directories of the cache cannot be made. *)
Definition world_no_cache_dir : World :=
  mkWorld (fun _ => Response 404 "") (fun _ => None) (fun _ => None)
          (fun _ => true) (fun _ => true)
          (fun _ => None) (fun _ => None) (fun _ => false).

(** [--scrape], with the cache and with file records. *)
Definition args_scrape_files : Args :=
  mkArgs "old.zip" "new.zip" None true false (1 # 2) 3 ".cursecache" false.

(** The project counters before and after an action that counted [n]
    misses and no hit. *)
Definition counts_misses (n : Z) (a b : option CurseForgeCache) : Prop :=
  match a, b with
  | Some x, Some y => mod_hits y = mod_hits x /\ mod_misses y = mod_misses x + n
  | None, None => True
  | _, _ => False
  end.

(** * Properties of the differ *)

(** ** Insertion-ordered dictionaries *)
Module PyDictFacts.
Import PyDict.

Section Facts.
Context {V : Type}.
Implicit Types (d : PyDict.t V) (k : Z) (v : V).

Lemma get_set k k' v d :
  get k (set k' v d) = if decide (k' = k) then Some v else get k d.
Proof.
  induction d as [|[k0 v0] d IH]; simpl.
  - destruct (Z.eqb_spec k' k); case_decide; congruence.
  - destruct (Z.eqb_spec k0 k'); simpl.
    + destruct (Z.eqb_spec k0 k); case_decide; congruence.
    + rewrite IH. destruct (Z.eqb_spec k0 k); case_decide; congruence.
Qed.

Lemma get_set_eq k v d : get k (set k v d) = Some v.
Proof. rewrite get_set. by case_decide. Qed.

Lemma get_set_ne k k' v d : k' ≠ k → get k (set k' v d) = get k d.
Proof. intros. rewrite get_set. by case_decide. Qed.

Lemma get_None_keys k d : get k d = None ↔ k ∉ keys d.
Proof.
  unfold keys. induction d as [|[k0 v0] d IH]; simpl.
  - split; [intros _; apply not_elem_of_nil | done].
  - rewrite not_elem_of_cons. destruct (Z.eqb_spec k0 k).
    + split; [done | intros [? _]; congruence].
    + rewrite IH. split; [intros; split; congruence | tauto].
Qed.

Lemma mem_true_keys k d : mem k d = true ↔ k ∈ keys d.
Proof.
  unfold mem. destruct (get k d) eqn:E.
  - split; [intros _ | done].
    destruct (decide (k ∈ keys d)) as [|Hn]; [done|].
    apply get_None_keys in Hn. congruence.
  - split; [done | intros Hin]. by apply get_None_keys in E.
Qed.

Lemma mem_false_get k d : mem k d = false ↔ get k d = None.
Proof. unfold mem. destruct (get k d); split; congruence. Qed.

Lemma keys_set k v d :
  keys (set k v d) = if mem k d then keys d else keys d ++ [k].
Proof.
  unfold keys, mem. induction d as [|[k0 v0] d IH]; simpl; [done|].
  destruct (Z.eqb_spec k0 k); simpl; [done|].
  rewrite IH. by destruct (get k d).
Qed.

Lemma NoDup_keys_set k v d : NoDup (keys d) → NoDup (keys (set k v d)).
Proof.
  intros Hd. rewrite keys_set. destruct (mem k d) eqn:E; [done|].
  apply NoDup_app. split_and!; [done | | apply NoDup_singleton].
  intros x Hx Hx'. apply list_elem_of_singleton in Hx'. subst x.
  apply mem_true_keys in Hx. congruence.
Qed.

Lemma omap_ext_elem_of {A B} (f g : A → option B) (l : list A) :
  (∀ x, x ∈ l → f x = g x) → omap f l = omap g l.
Proof.
  induction l as [|x l IH]; intros Hfg; csimpl; [done|].
  rewrite (Hfg x) by left. rewrite IH; [done|].
  intros y Hy. apply Hfg. by right.
Qed.

(** Looking up the keys met while iterating gives the values, in order. *)
Lemma get_keys_values d :
  NoDup (keys d) → omap (fun k => get k d) (keys d) = values d.
Proof.
  unfold keys, values. induction d as [|[k0 v0] d IH]; simpl; [done|].
  rewrite NoDup_cons. intros [Hk0 Hd].
  rewrite Z.eqb_refl. f_equal.
  rewrite <- (IH Hd). apply omap_ext_elem_of.
  intros k Hk. destruct (Z.eqb_spec k0 k); [congruence|done].
Qed.

Lemma of_items_snoc (key : V → Z) (xs : list V) (x : V) :
  of_items key (xs ++ [x]) = set (key x) x (of_items key xs).
Proof. unfold of_items. by rewrite fold_left_app. Qed.

Lemma NoDup_keys_of_items (key : V → Z) (xs : list V) :
  NoDup (keys (of_items key xs)).
Proof.
  induction xs as [|x xs IH] using rev_ind; [apply NoDup_nil_2|].
  rewrite of_items_snoc. by apply NoDup_keys_set.
Qed.

(** The comprehension keeps, for every key, the last item that has it. *)
Lemma get_of_items (key : V → Z) (xs : list V) k :
  get k (of_items key xs) = last (filter (fun x => key x = k) xs).
Proof.
  induction xs as [|x xs IH] using rev_ind; [done|].
  rewrite of_items_snoc, get_set, filter_app.
  case_decide as Hk.
  - rewrite filter_cons_True, filter_nil by done. by rewrite last_snoc.
  - rewrite filter_cons_False, filter_nil by done. by rewrite app_nil_r.
Qed.

Lemma set_fresh k v d : k ∉ keys d → set k v d = d ++ [(k, v)].
Proof.
  unfold keys. induction d as [|[k0 v0] d IH]; simpl; [done|].
  rewrite not_elem_of_cons. intros [Hne Hnot].
  destruct (Z.eqb_spec k0 k); [congruence|]. by rewrite IH.
Qed.

(** With pairwise distinct keys nothing is overwritten. *)
Lemma of_items_NoDup (key : V → Z) (xs : list V) :
  NoDup (key <$> xs) → of_items key xs = (fun x => (key x, x)) <$> xs.
Proof.
  induction xs as [|x xs IH] using rev_ind; [done|].
  rewrite fmap_app, NoDup_app. intros (Hxs & Hx & _).
  rewrite of_items_snoc, IH, fmap_app by done.
  apply set_fresh. unfold keys. rewrite <- list_fmap_compose.
  intros Hin. apply (Hx _ Hin). by left.
Qed.

End Facts.
End PyDictFacts.

(** ** The lookup maps of [compare_manifests] *)
Module DifferFacts.
Import PyDictFacts.

Lemma get_files_by_project (m : Manifest) (project_id : Z) :
  PyDict.get project_id (files_by_project m) = last_entry project_id (get_files m).
Proof. apply get_of_items. Qed.

Lemma last_entry_projectID (l : list FileEntry) (project_id : Z) (e : FileEntry) :
  last_entry project_id l = Some e → projectID e = project_id.
Proof.
  unfold last_entry. intros Hl.
  apply last_Some_elem_of in Hl. by apply list_elem_of_filter in Hl as [? _].
Qed.

Lemma last_entry_None (l : list FileEntry) (project_id : Z) :
  last_entry project_id l = None ↔ project_id ∉ projectID <$> l.
Proof.
  unfold last_entry. rewrite last_None, list_elem_of_fmap. split.
  - intros Hnil (e & -> & He).
    by apply (filter_nil_not_elem_of _ _ e) in Hnil.
  - intros Hnot. apply elem_of_nil_inv. intros e He.
    apply list_elem_of_filter in He as [Hp He]. apply Hnot. by exists e.
Qed.

Lemma omap_all_None {A B} (f : A → option B) (l : list A) :
  (∀ x, x ∈ l → f x = None) → omap f l = [].
Proof.
  induction l as [|x l IH]; intros Hf; csimpl; [done|].
  rewrite (Hf x) by left. apply IH. intros y Hy. apply Hf. by right.
Qed.

(** The comprehension [[a[p] for p in a if p not in b]], entry by entry. *)
Lemma elem_of_entries_not_in (ma mb : Manifest) (e : FileEntry) :
  e ∈ entries_not_in (files_by_project ma) (files_by_project mb) ↔
  last_entry (projectID e) (get_files ma) = Some e ∧
  last_entry (projectID e) (get_files mb) = None.
Proof.
  unfold entries_not_in. rewrite list_elem_of_omap. split.
  - intros (p & _ & Hf).
    destruct (PyDict.mem p (files_by_project mb)) eqn:E; [done|].
    apply mem_false_get in E. rewrite get_files_by_project in Hf, E.
    pose proof (last_entry_projectID _ _ _ Hf) as ->. done.
  - intros [Ha Hb]. exists (projectID e).
    rewrite <- get_files_by_project in Ha, Hb. split.
    + apply mem_true_keys. unfold PyDict.mem. by rewrite Ha.
    + apply mem_false_get in Hb. by rewrite Hb.
Qed.

Lemma entries_not_in_self (d : PyDict.t FileEntry) : entries_not_in d d = [].
Proof.
  apply omap_all_None. intros p Hp.
  apply mem_true_keys in Hp. by rewrite Hp.
Qed.

Lemma entries_not_in_nil_l (d : PyDict.t FileEntry) : entries_not_in [] d = [].
Proof. done. Qed.

Lemma entries_not_in_nil_r (d : PyDict.t FileEntry) :
  NoDup (PyDict.keys d) → entries_not_in d [] = PyDict.values d.
Proof. intros Hd. unfold entries_not_in. simpl. by apply get_keys_values. Qed.

(** One iteration of the [updates] loop. *)
Lemma elem_of_updates_step (o n : PyDict.t FileEntry) (acc : list Update)
    (k : Z) (u : Update) :
  u ∈ updates_step o n acc k ↔
  u ∈ acc ∨
  ∃ eo en, PyDict.get k o = Some eo ∧ PyDict.get k n = Some en ∧
           fileID eo ≠ fileID en ∧ u = mkUpdate k (fileID eo) (fileID en).
Proof.
  unfold updates_step.
  destruct (PyDict.get k n) as [en|], (PyDict.get k o) as [eo|];
    [destruct (Z.eqb_spec (fileID eo) (fileID en)) as [Heq|Hne]; simpl|..].
  - split; [by left|]. intros [?|(? & ? & ? & ? & Hd & _)]; [done|].
    by simplify_eq.
  - rewrite elem_of_app, list_elem_of_singleton. split.
    + intros [?|Hu]; [by left|]. subst u. right. by exists eo, en.
    + intros [?|(? & ? & ? & ? & _ & Hu)]; [by left|]. simplify_eq. by right.
  - split; [by left|]. by intros [?|(? & ? & ? & ? & _)].
  - split; [by left|]. by intros [?|(? & ? & ? & ? & _)].
  - split; [by left|]. by intros [?|(? & ? & ? & ? & _)].
Qed.

(** The [updates] loop, update by update. *)
Lemma elem_of_fold_updates (o n : PyDict.t FileEntry) (ks : list Z)
    (acc : list Update) (u : Update) :
  u ∈ fold_left (updates_step o n) ks acc ↔
  u ∈ acc ∨
  ∃ p eo en, p ∈ ks ∧ PyDict.get p o = Some eo ∧ PyDict.get p n = Some en ∧
             fileID eo ≠ fileID en ∧ u = mkUpdate p (fileID eo) (fileID en).
Proof.
  revert acc. induction ks as [|k ks IH]; intros acc; simpl.
  - split; [by left | intros [?|(p & ? & ? & Hp & _)]; [done|]].
    by apply not_elem_of_nil in Hp.
  - rewrite IH, elem_of_updates_step. split.
    + intros [[?|(eo & en & ?)]|(p & eo & en & Hp & ?)].
      * by left.
      * right. exists k, eo, en. split; [by left|done].
      * right. exists p, eo, en. split; [by right|done].
    + intros [?|(p & eo & en & Hp & ?)]; [by left; left|].
      apply elem_of_cons in Hp as [->|Hp].
      * left. right. by exists eo, en.
      * right. by exists p, eo, en.
Qed.

Lemma fold_updates_self (d : PyDict.t FileEntry) (ks : list Z) (acc : list Update) :
  fold_left (updates_step d d) ks acc = acc.
Proof.
  revert acc. induction ks as [|k ks IH]; intros acc; simpl; [done|].
  rewrite IH. unfold updates_step.
  destruct (PyDict.get k d); [|done]. by rewrite Z.eqb_refl.
Qed.

Lemma fold_updates_nil_r (o : PyDict.t FileEntry) (ks : list Z) (acc : list Update) :
  fold_left (updates_step o []) ks acc = acc.
Proof.
  revert acc. induction ks as [|k ks IH]; intros acc; simpl; [done|].
  by rewrite IH.
Qed.

Lemma compare_manifests_self (m : Manifest) : compare_manifests m m = ([], [], []).
Proof.
  unfold compare_manifests.
  by rewrite entries_not_in_self, fold_updates_self.
Qed.

(** What is added in one direction is what is removed in the other, entry
    for entry and in the same order. *)
Lemma additions_removals_swap (a b : Manifest) :
  additions_of (compare_manifests a b) = removals_of (compare_manifests b a).
Proof. done. Qed.

Lemma files_by_project_missing (m : Manifest) :
  files m = None → files_by_project m = [].
Proof. unfold files_by_project, get_files. by intros ->. Qed.

Lemma values_files_by_project_NoDup (m : Manifest) :
  NoDup (projectID <$> get_files m) →
  PyDict.values (files_by_project m) = get_files m.
Proof.
  intros Hnd. unfold files_by_project. rewrite of_items_NoDup by done.
  unfold PyDict.values. induction (get_files m) as [|e l IH]; [done|].
  apply NoDup_cons in Hnd as [_ Hnd]. simpl. f_equal. by apply IH.
Qed.

Lemma elem_of_values_files_by_project (m : Manifest) (e : FileEntry) :
  e ∈ PyDict.values (files_by_project m) ↔
  last_entry (projectID e) (get_files m) = Some e.
Proof.
  rewrite <- entries_not_in_nil_r by apply NoDup_keys_of_items.
  change (@nil (Z * FileEntry)) with (files_by_project (mkManifest None)).
  rewrite elem_of_entries_not_in. simpl. unfold last_entry. simpl. tauto.
Qed.

End DifferFacts.

Import PyDictFacts DifferFacts.

(** ** The claims about the differ *)

(** C1.  The end-to-end example: diffing
    [{files:[{projectID:1,fileID:10},{projectID:2,fileID:20}]}] against
    [{files:[{projectID:2,fileID:21},{projectID:3,fileID:30}]}] adds project
    3, removes project 1 and updates project 2 from file 20 to file 21. *)
Theorem compare_manifests_end_to_end :
  compare_manifests
    (mkManifest (Some [entry 1 10; entry 2 20]))
    (mkManifest (Some [entry 2 21; entry 3 30]))
  = ([entry 3 30], [entry 1 10], [mkUpdate 2 20 21]).
Proof. reflexivity. Qed.

(** The specification's test for duplicates: of two entries for project 5
    the second one is compared. *)
Example duplicate_project_5 :
  compare_manifests
    (mkManifest (Some [entry 5 100; entry 5 200]))
    (mkManifest (Some [entry 5 200; entry 6 1]))
  = ([entry 6 1], [], [])
  ∧ compare_manifests
      (mkManifest (Some [entry 5 100; entry 5 200]))
      (mkManifest (Some [entry 5 100]))
    = ([], [], [mkUpdate 5 200 100]).
Proof. split; reflexivity. Qed.

(** C2.  Each lookup map binds a projectID to the last entry of the
    manifest that carries it, so that entry is the one listed in additions
    and removals and the one whose fileID is compared and recorded in
    updates. *)
Theorem duplicate_projectID_last_wins (old_manifest new_manifest : Manifest) :
  let r := compare_manifests old_manifest new_manifest in
  let old := get_files old_manifest in
  let new := get_files new_manifest in
  (∀ p, PyDict.get p (files_by_project old_manifest) = last_entry p old) ∧
  (∀ p, PyDict.get p (files_by_project new_manifest) = last_entry p new) ∧
  (∀ e, e ∈ additions_of r ↔
        last_entry (projectID e) new = Some e ∧
        last_entry (projectID e) old = None) ∧
  (∀ e, e ∈ removals_of r ↔
        last_entry (projectID e) old = Some e ∧
        last_entry (projectID e) new = None) ∧
  (∀ u, u ∈ updates_of r ↔
        ∃ o n, last_entry (u_projectID u) old = Some o ∧
               last_entry (u_projectID u) new = Some n ∧
               fileID o ≠ fileID n ∧
               old_fileID u = fileID o ∧ new_fileID u = fileID n).
Proof.
  intros r old new. subst r old new. split_and!.
  - intros p. apply get_files_by_project.
  - intros p. apply get_files_by_project.
  - intros e. apply elem_of_entries_not_in.
  - intros e. apply elem_of_entries_not_in.
  - intros u. unfold updates_of, compare_manifests. simpl.
    rewrite elem_of_fold_updates. split.
    + intros [Hnil | (p & eo & en & _ & Ho & Hn & Hd & ->)].
      { by apply not_elem_of_nil in Hnil. }
      rewrite get_files_by_project in Ho, Hn. by exists eo, en.
    + intros (o & n & Ho & Hn & Hd & Hof & Hnf). right.
      exists (u_projectID u), o, n.
      rewrite <- get_files_by_project in Ho, Hn. split_and!; try done.
      * apply mem_true_keys. unfold PyDict.mem. by rewrite Ho.
      * destruct u. simpl in *. congruence.
Qed.

(** C7.  Symmetry: the projectIDs added from A to B are the projectIDs
    removed from B to A, and the other way round. *)
Theorem compare_manifests_symmetry (a b : Manifest) :
  list_to_set (projectID <$> additions_of (compare_manifests a b))
    =@{gset Z} list_to_set (projectID <$> removals_of (compare_manifests b a))
  ∧ list_to_set (projectID <$> removals_of (compare_manifests a b))
    =@{gset Z} list_to_set (projectID <$> additions_of (compare_manifests b a)).
Proof.
  by rewrite (additions_removals_swap a b), (additions_removals_swap b a).
Qed.

(** C8.  A manifest with unique projectIDs compared with itself has no
    additions, no removals and no updates. *)
Theorem compare_manifests_identity (a : Manifest) :
  NoDup (projectID <$> get_files a) →
  compare_manifests a a = ([], [], []).
Proof. intros _. apply compare_manifests_self. Qed.

Lemma compare_manifests_identity_witness :
  NoDup (projectID <$> get_files (mkManifest (Some [entry 1 10; entry 2 20])))
  ∧ compare_manifests (mkManifest (Some [entry 1 10; entry 2 20]))
                      (mkManifest (Some [entry 1 10; entry 2 20]))
    = ([], [], []).
Proof.
  assert (Hnd : NoDup (projectID <$> get_files
                         (mkManifest (Some [entry 1 10; entry 2 20])))).
  { simpl. apply NoDup_cons. split; [|apply NoDup_singleton].
    rewrite list_elem_of_singleton. discriminate. }
  split; [exact Hnd | exact (compare_manifests_identity _ Hnd)].
Defined.

(** C10, as stated, fails on a manifest that repeats a projectID: only the
    last entry of project 5 is an addition. *)
Lemma missing_files_duplicate_counterexample :
  let old_manifest := mkManifest None in
  let new_manifest := mkManifest (Some [entry 5 100; entry 5 200]) in
  files old_manifest = None
  ∧ entry 5 100 ∈ get_files new_manifest
  ∧ additions_of (compare_manifests old_manifest new_manifest) = [entry 5 200]
  ∧ entry 5 100 ∉ additions_of (compare_manifests old_manifest new_manifest).
Proof.
  split_and!; [done | by left | done |].
  intros Hin. apply list_elem_of_singleton in Hin. discriminate Hin.
Qed.

(** C10, amended.  A manifest without a [files] key is read as one with an
    empty list: against it, the other manifest's lookup map is listed whole
    (the last entry of each of its projectIDs, all of its entries when its
    projectIDs are unique) as additions or as removals, the other two lists
    are empty, and two manifests without [files] give three empty lists. *)
Theorem compare_manifests_missing_files (old_manifest new_manifest : Manifest) :
  files old_manifest = None ∨ files new_manifest = None →
  let r := compare_manifests old_manifest new_manifest in
  (files old_manifest = None →
     additions_of r = PyDict.values (files_by_project new_manifest) ∧
     (∀ e, e ∈ additions_of r ↔
           last_entry (projectID e) (get_files new_manifest) = Some e) ∧
     (NoDup (projectID <$> get_files new_manifest) →
      additions_of r = get_files new_manifest) ∧
     removals_of r = [] ∧ updates_of r = []) ∧
  (files new_manifest = None →
     removals_of r = PyDict.values (files_by_project old_manifest) ∧
     (∀ e, e ∈ removals_of r ↔
           last_entry (projectID e) (get_files old_manifest) = Some e) ∧
     (NoDup (projectID <$> get_files old_manifest) →
      removals_of r = get_files old_manifest) ∧
     additions_of r = [] ∧ updates_of r = []) ∧
  (files old_manifest = None → files new_manifest = None → r = ([], [], [])).
Proof.
  intros _ r. unfold r, compare_manifests, additions_of, removals_of, updates_of.
  simpl. split_and!.
  - intros Ho. rewrite (files_by_project_missing _ Ho).
    rewrite entries_not_in_nil_r by apply NoDup_keys_of_items. split_and!.
    + done.
    + apply elem_of_values_files_by_project.
    + apply values_files_by_project_NoDup.
    + done.
    + done.
  - intros Hn. rewrite (files_by_project_missing _ Hn).
    rewrite entries_not_in_nil_r by apply NoDup_keys_of_items. split_and!.
    + done.
    + apply elem_of_values_files_by_project.
    + apply values_files_by_project_NoDup.
    + done.
    + apply fold_updates_nil_r.
  - intros Ho Hn.
    by rewrite (files_by_project_missing _ Ho), (files_by_project_missing _ Hn).
Qed.

Lemma compare_manifests_missing_files_witness :
  let old_manifest := mkManifest None in
  let new_manifest := mkManifest (Some [entry 5 100; entry 5 200; entry 6 1]) in
  (files old_manifest = None ∨ files new_manifest = None)
  ∧ additions_of (compare_manifests old_manifest new_manifest)
    = PyDict.values (files_by_project new_manifest)
  ∧ removals_of (compare_manifests old_manifest new_manifest) = []
  ∧ updates_of (compare_manifests old_manifest new_manifest) = [].
Proof.
  intros old_manifest new_manifest.
  assert (H : files old_manifest = None ∨ files new_manifest = None)
    by (left; reflexivity).
  split; [exact H|].
  destruct (compare_manifests_missing_files old_manifest new_manifest H)
    as [Hold _].
  destruct (Hold eq_refl) as (Ha & _ & _ & Hr & Hu).
  split_and!; [exact Ha | exact Hr | exact Hu].
Defined.

(** * Properties of the enrichment code *)

(** ** Traces *)
Module TraceFacts.

Lemma extends_refl P s : extends P s s.
Proof. exists []. by rewrite app_nil_r. Qed.

Lemma extends_trans P s1 s2 s3 :
  extends P s1 s2 → extends P s2 s3 → extends P s1 s3.
Proof.
  intros (t1 & H1 & P1) (t2 & H2 & P2). exists (t1 ++ t2).
  rewrite H2, H1, <- app_assoc, forallb_app, P1, P2. done.
Qed.

Lemma extends_mono (P Q : Event → bool) s s' :
  (∀ ev, P ev = true → Q ev = true) → extends P s s' → extends Q s s'.
Proof.
  intros HPQ (t & Ht & HP). exists t. split; [done|].
  rewrite forallb_forall in *. intros ev Hev. by apply HPQ, HP.
Qed.

Lemma extends_app P s c t :
  forallb P t = true → extends P s (mkSt c (st_trace s ++ t)).
Proof. intros Ht. by exists t. Qed.

Section Emits.
Context {A B : Type}.

Lemma emits_mono (P Q : Event → bool) (m : M A) :
  (∀ ev, P ev = true → Q ev = true) → emits P m → emits Q m.
Proof. intros HPQ Hm s. eapply extends_mono; [done | apply Hm]. Qed.

Lemma emits_ret P (a : A) : emits P (mret a).
Proof. intros s. apply extends_refl. Qed.

Lemma emits_raise P (e : exn) : emits P (raise e : M A).
Proof. intros s. apply extends_refl. Qed.

Lemma emits_bind P (m : M A) (f : A → M B) :
  emits P m → (∀ a, emits P (f a)) → emits P (m ≫= f).
Proof.
  intros Hm Hf s. unfold mbind, M_bind. specialize (Hm s).
  destruct (m s) as [[a|e] s1]; simpl in *; [|done].
  eapply extends_trans; [done | apply Hf].
Qed.

End Emits.

Lemma emits_emit P ev : P ev = true → emits P (emit ev).
Proof. intros Hev s. apply extends_app. simpl. by rewrite Hev. Qed.

Lemma forallb_stderr P (lines : list LogLine) :
  (∀ l, P (EvStderr l) = true) → forallb P (EvStderr <$> lines) = true.
Proof.
  intros HP. apply forallb_forall. intros ev Hev.
  apply list_elem_of_In, list_elem_of_fmap in Hev as (l & -> & _). apply HP.
Qed.

Lemma emits_stderr P lines :
  (∀ l, P (EvStderr l) = true) → emits P (stderr lines).
Proof. intros HP s. apply extends_app. by apply forallb_stderr. Qed.

Lemma emits_submit P (task : M Json) : emits P task → emits P (submit task).
Proof.
  intros Ht s. unfold submit. specialize (Ht s).
  by destruct (task s) as [r s'].
Qed.

(** What each function may append to the trace. *)
Section EmitsFunctions.
Variable P : Event → bool.
Hypothesis P_stderr : ∀ l, P (EvStderr l) = true.

Lemma emits_cache_get_mod_info pid : emits P (cache_get_mod_info pid).
Proof.
  intros s. unfold cache_get_mod_info.
  destruct (st_cache s) as [c|]; [|apply extends_refl].
  destruct (get_mod_info pid c) as [[v c'] lines].
  by apply extends_app, forallb_stderr.
Qed.

Lemma emits_cache_set_mod_info w pid v : emits P (cache_set_mod_info w pid v).
Proof.
  intros s. unfold cache_set_mod_info.
  destruct (st_cache s) as [c|]; [|apply extends_refl].
  destruct (set_mod_info w pid v c) as [c' lines].
  by apply extends_app, forallb_stderr.
Qed.

Lemma emits_cache_get_file_info pid fid : emits P (cache_get_file_info pid fid).
Proof.
  intros s. unfold cache_get_file_info.
  destruct (st_cache s) as [c|]; [|apply extends_refl].
  destruct (get_file_info pid fid c) as [[v c'] lines].
  by apply extends_app, forallb_stderr.
Qed.

Lemma emits_cache_set_file_info w pid fid v :
  emits P (cache_set_file_info w pid fid v).
Proof.
  intros s. unfold cache_set_file_info.
  destruct (st_cache s) as [c|]; [|apply extends_refl].
  destruct (set_file_info w pid fid v c) as [c' lines].
  by apply extends_app, forallb_stderr.
Qed.

Lemma emits_for_urls body urls :
  (∀ url, emits P (body url)) → emits P (for_urls body urls).
Proof.
  intros Hbody. induction urls as [|url rest IH]; simpl; [apply emits_ret|].
  apply emits_bind; [done|]. intros [v|]; [apply emits_ret | done].
Qed.

Hypothesis P_get : ∀ url, P (EvGet url) = true.

Lemma emits_try_mod_url w pid url : emits P (try_mod_url w pid url).
Proof.
  unfold try_mod_url. apply emits_bind; [by apply emits_emit|]. intros _.
  destruct (http_get w url) as [e|status text].
  - destruct (caught_by_fetcher e); [|apply emits_raise].
    apply emits_bind; [by apply emits_stderr | intros _; apply emits_ret].
  - destruct (negb _); [apply emits_ret|].
    apply emits_bind; [apply emits_cache_set_mod_info | intros _; apply emits_ret].
Qed.

Lemma emits_try_file_url w pid fid url : emits P (try_file_url w pid fid url).
Proof.
  unfold try_file_url. apply emits_bind; [by apply emits_emit|]. intros _.
  destruct (http_get w url) as [e|status text].
  - destruct (caught_by_fetcher e); [|apply emits_raise].
    apply emits_bind; [by apply emits_stderr | intros _; apply emits_ret].
  - destruct (negb _); [apply emits_ret|].
    apply emits_bind; [apply emits_cache_set_file_info | intros _; apply emits_ret].
Qed.

Lemma emits_scrape_mod_info w pid : emits P (scrape_mod_info w pid).
Proof.
  unfold scrape_mod_info.
  apply emits_bind; [apply emits_cache_get_mod_info|]. intros cached.
  destruct (truthy cached); [apply emits_ret|].
  apply emits_bind; [apply emits_for_urls, emits_try_mod_url|].
  intros [v|]; [apply emits_ret|].
  apply emits_bind; [by apply emits_stderr|]. intros _.
  apply emits_bind; [apply emits_cache_set_mod_info | intros _; apply emits_ret].
Qed.

Lemma emits_scrape_file_info w pid fid : emits P (scrape_file_info w pid fid).
Proof.
  unfold scrape_file_info.
  apply emits_bind; [apply emits_cache_get_file_info|]. intros cached.
  destruct (truthy cached); [apply emits_ret|].
  apply emits_bind; [apply emits_for_urls, emits_try_file_url|].
  intros [v|]; [apply emits_ret|].
  apply emits_bind; [by apply emits_stderr|]. intros _.
  apply emits_bind; [apply emits_cache_set_file_info | intros _; apply emits_ret].
Qed.

End EmitsFunctions.

Section EmitsLoops.
Variable P : Event → bool.
Hypothesis P_stderr : ∀ l, P (EvStderr l) = true.

Lemma emits_check_mod_cache copy acc : emits P (check_mod_cache copy acc).
Proof.
  revert acc. induction copy as [|pid rest IH]; intros acc; simpl.
  - apply emits_ret.
  - apply emits_bind; [by apply emits_cache_get_mod_info|]. intros cached.
    destruct (truthy cached); apply IH.
Qed.

Lemma emits_check_file_cache copy acc : emits P (check_file_cache copy acc).
Proof.
  revert acc. induction copy as [|key rest IH]; intros acc; simpl.
  - apply emits_ret.
  - apply emits_bind; [by apply emits_cache_get_file_info|]. intros cached.
    destruct (truthy cached); apply IH.
Qed.

Hypothesis P_sleep : P (EvSleep (1 # 2)) = true.

Lemma emits_collect_mod_results futures m : emits P (collect_mod_results futures m).
Proof.
  revert m. induction futures as [|[[v|e] pid] rest IH]; intros m; simpl.
  - apply emits_ret.
  - apply emits_bind; [by apply emits_emit | intros _; apply IH].
  - apply emits_bind; [by apply emits_stderr | intros _; apply IH].
Qed.

Lemma emits_collect_file_results futures m :
  emits P (collect_file_results futures m).
Proof.
  revert m. induction futures as [|[[v|e] [pid fid]] rest IH]; intros m; simpl.
  - apply emits_ret.
  - apply emits_bind; [by apply emits_emit | intros _; apply IH].
  - apply emits_bind; [by apply emits_stderr | intros _; apply IH].
Qed.

Hypothesis P_get : ∀ url, P (EvGet url) = true.
Hypothesis P_submit_mod : ∀ pid, P (EvSubmitMod pid) = true.
Hypothesis P_submit_file : ∀ pid fid, P (EvSubmitFile pid fid) = true.

Lemma emits_submit_mod_tasks w ids : emits P (submit_mod_tasks w ids).
Proof.
  induction ids as [|pid rest IH]; simpl; [apply emits_ret|].
  apply emits_bind; [by apply emits_emit|]. intros _.
  apply emits_bind; [by apply emits_submit, emits_scrape_mod_info|]. intros fut.
  apply emits_bind; [done | intros futs; apply emits_ret].
Qed.

Lemma emits_submit_file_tasks w fs : emits P (submit_file_tasks w fs).
Proof.
  induction fs as [|[pid fid] rest IH]; simpl; [apply emits_ret|].
  apply emits_bind; [by apply emits_emit|]. intros _.
  apply emits_bind; [by apply emits_submit, emits_scrape_file_info|]. intros fut.
  apply emits_bind; [done | intros futs; apply emits_ret].
Qed.

Hypothesis P_pool : P (EvPool 3) = true.

Lemma emits_scrape_all_mod_info w manifest : emits P (scrape_all_mod_info w manifest).
Proof.
  intros s. unfold scrape_all_mod_info.
  apply (emits_bind P).
  { destruct (st_cache s); [apply emits_check_mod_cache | apply emits_ret]. }
  intros [m [|pid ids]]; [apply emits_ret|].
  apply emits_bind; [by apply emits_emit|]. intros _.
  apply emits_bind; [apply emits_submit_mod_tasks|]. intros futs.
  apply emits_collect_mod_results.
Qed.

Lemma emits_scrape_all_file_info w manifest :
  emits P (scrape_all_file_info w manifest).
Proof.
  intros s. unfold scrape_all_file_info.
  apply (emits_bind P).
  { destruct (st_cache s); [apply emits_check_file_cache | apply emits_ret]. }
  intros [m [|key fs]]; [apply emits_ret|].
  apply emits_bind; [by apply emits_emit|]. intros _.
  apply emits_bind; [apply emits_submit_file_tasks|]. intros futs.
  apply emits_collect_file_results.
Qed.

Lemma emits_scrape_block w args old_manifest new_manifest :
  emits P (scrape_block w args old_manifest new_manifest).
Proof.
  unfold scrape_block.
  apply emits_bind; [apply emits_scrape_all_mod_info|]. intros old_info.
  apply emits_bind.
  { case_decide; [apply emits_scrape_all_mod_info | apply emits_ret]. }
  intros new_info. apply emits_bind.
  { destruct (negb _); [apply emits_scrape_all_file_info | apply emits_ret]. }
  intros file_info. apply emits_ret.
Qed.

End EmitsLoops.

End TraceFacts.

(** ** The cache and the fetcher, one key at a time *)
Module FetcherFacts.
Import TraceFacts.

Lemma bind_run {A B} (m : M A) (f : A → M B) (s : St) :
  (m ≫= f) s = match m s with
               | (Ok a, s') => f a s'
               | (Raise e, s') => (Raise e, s')
               end.
Proof. reflexivity. Qed.

Lemma string_length_app (s t : string) :
  String.length (s +:+ t) = (String.length s + String.length t)%nat.
Proof. induction s as [|a s IH]; simpl; [done | by rewrite IH]. Qed.

Lemma string_app_inj_r (t s1 s2 : string) : s1 +:+ t = s2 +:+ t → s1 = s2.
Proof.
  revert s2. induction s1 as [|a s1 IH]; intros [|b s2] H; simpl in H.
  - done.
  - apply (f_equal String.length) in H.
    rewrite ?string_length_app in H. simpl in H.
    rewrite ?string_length_app in H. lia.
  - apply (f_equal String.length) in H.
    rewrite ?string_length_app in H. simpl in H.
    rewrite ?string_length_app in H. lia.
  - injection H as -> H. f_equal. by apply IH.
Qed.

(** Distinct projects have distinct cache files. *)
Lemma mod_cache_name_inj (p q : Z) : mod_cache_name p = mod_cache_name q → p = q.
Proof.
  unfold mod_cache_name. intros H%string_app_inj_r. by apply pretty_Z_inj.
Qed.

Lemma same_presence_refl a : same_presence a a.
Proof. by destruct a. Qed.

Lemma same_presence_trans a b c :
  same_presence a b → same_presence b c → same_presence a c.
Proof. by destruct a, b, c. Qed.

Lemma same_presence_None a b :
  same_presence a b → (a = None ↔ b = None).
Proof. by destruct a, b. Qed.

Lemma same_mod_files_refl a : same_mod_files a a.
Proof. split; [apply same_presence_refl | done]. Qed.

Lemma same_mod_files_trans a b c :
  same_mod_files a b → same_mod_files b c → same_mod_files a c.
Proof.
  intros [P1 F1] [P2 F2]. split; [by eapply same_presence_trans|].
  intros q. by rewrite F2, F1.
Qed.

Lemma mod_frame_refl pid a : mod_frame pid a a.
Proof. split; [apply same_presence_refl | done]. Qed.

Lemma mod_frame_trans pid a b c :
  mod_frame pid a b → mod_frame pid b c → mod_frame pid a c.
Proof.
  intros [P1 F1] [P2 F2]. split; [by eapply same_presence_trans|].
  intros q Hq. by rewrite F2, F1.
Qed.

Lemma same_mod_files_frame pid a b : same_mod_files a b → mod_frame pid a b.
Proof. intros [P1 F1]. split; [done | intros q _; apply F1]. Qed.

Lemma cached_mod_file a pid :
  cached_mod a pid = match mod_file a pid with
                     | Some (FileJson v) => v
                     | _ => JNull
                     end.
Proof. by destruct a. Qed.

Lemma cached_mod_ext a b pid :
  mod_file b pid = mod_file a pid → cached_mod b pid = cached_mod a pid.
Proof. intros H. by rewrite !cached_mod_file, H. Qed.

Lemma mod_lookup_raises_file a pid :
  mod_lookup_raises a pid = match mod_file a pid with
                            | Some FileUndecodable => true
                            | _ => false
                            end.
Proof. by destruct a. Qed.

Lemma mod_lookup_raises_ext a b pid :
  mod_file b pid = mod_file a pid →
  mod_lookup_raises b pid = mod_lookup_raises a pid.
Proof. intros H. by rewrite !mod_lookup_raises_file, H. Qed.

Lemma mod_lookup_ext a b pid :
  mod_file b pid = mod_file a pid → mod_lookup b pid = mod_lookup a pid.
Proof.
  intros H. unfold mod_lookup.
  by rewrite (cached_mod_ext a b), (mod_lookup_raises_ext a b).
Qed.

Lemma mod_resolution_ext w a b pid :
  mod_file b pid = mod_file a pid →
  mod_resolution w b pid = mod_resolution w a pid.
Proof.
  intros H. unfold mod_resolution.
  by rewrite (cached_mod_ext a b), (mod_lookup_raises_ext a b).
Qed.

Lemma mod_resolution_lookup w a pid :
  mod_resolution w a pid
  = match mod_lookup a pid with
    | Raise e => Raise e
    | Ok cached => if truthy cached then Ok cached else mod_fetch w pid
    end.
Proof. unfold mod_resolution, mod_lookup. by destruct (mod_lookup_raises a pid). Qed.

(** A written file is not one the lookup raises on. *)
Lemma mod_lookup_raises_written a pid v :
  mod_file a pid = Some (FileJson v) → mod_lookup_raises a pid = false.
Proof. intros H. by rewrite mod_lookup_raises_file, H. Qed.

(** Reading the cache returns the stored value, or raises, and leaves the
    files alone. *)
Lemma cache_get_mod_info_run pid s :
  ∃ s', cache_get_mod_info pid s = (mod_lookup (st_cache s) pid, s')
        ∧ same_mod_files (st_cache s) (st_cache s').
Proof.
  unfold cache_get_mod_info, mod_lookup, mod_lookup_raises, cached_mod, get_mod_info.
  destruct s as [[c|] tr]; simpl;
    [|eexists; split; [done|apply same_mod_files_refl]].
  destruct (mod_files c !! mod_cache_name pid) as [[v| | |]|];
    (eexists; split; [done|]); by split.
Qed.

(** Writing the cache touches the file of one key. *)
Lemma cache_set_mod_info_run w pid v s :
  ∃ s', cache_set_mod_info w pid v s = (Ok tt, s')
        ∧ mod_frame pid (st_cache s) (st_cache s')
        ∧ (st_cache s ≠ None → mod_write_ok w pid = true →
           mod_file (st_cache s') pid = Some (FileJson v)).
Proof.
  unfold cache_set_mod_info, set_mod_info.
  destruct s as [[c|] tr]; simpl;
    [|eexists; split_and!; [done | apply mod_frame_refl | done]].
  destruct (mod_write_ok w pid); [|destruct (mod_write_leaves w pid) as [remains|]];
    (eexists; split_and!; [done | split; [done|] | ]); simpl.
  - intros q Hq. rewrite lookup_insert_ne; [done|].
    intros Hname. by apply mod_cache_name_inj in Hname.
  - intros _ _. by rewrite lookup_insert_eq.
  - intros q Hq. rewrite lookup_insert_ne; [done|].
    intros Hname. by apply mod_cache_name_inj in Hname.
  - done.
  - done.
  - done.
Qed.

(** One pass through the [try] block. *)
Lemma try_mod_url_run w pid url s :
  ∃ s',
    match http_get w url with
    | Raises e =>
        try_mod_url w pid url s
          = (if caught_by_fetcher e then Ok None else Raise e, s')
        ∧ st_cache s' = st_cache s
    | Response status_code text =>
        if negb (Z.eqb status_code 200)
        then try_mod_url w pid url s = (Ok None, s')
             ∧ st_cache s' = st_cache s
        else
          let mod_info :=
            mod_record pid (default (project_label pid) (mod_title w text)) url in
          try_mod_url w pid url s = (Ok (Some mod_info), s')
          ∧ mod_frame pid (st_cache s) (st_cache s')
          ∧ (st_cache s ≠ None → mod_write_ok w pid = true →
             mod_file (st_cache s') pid = Some (FileJson mod_info))
    end.
Proof.
  unfold try_mod_url. rewrite bind_run. simpl.
  destruct (http_get w url) as [e|status_code text].
  - destruct (caught_by_fetcher e); eexists; split; reflexivity.
  - destruct (negb _); [eexists; split; reflexivity|].
    rewrite bind_run.
    destruct (cache_set_mod_info_run w pid
                (mod_record pid (default (project_label pid) (mod_title w text)) url)
                (mkSt (st_cache s) (st_trace s ++ [EvGet url])))
      as (s' & -> & Hframe & Hwritten).
    exists s'. by split_and!.
Qed.

(** The URL loop computes [fetch_outcome], and stores what it returns. *)
Lemma for_urls_mod_run w pid fallback urls s :
  ∃ r s', for_urls (try_mod_url w pid) urls s = (r, s')
    ∧ mod_frame pid (st_cache s) (st_cache s')
    ∧ match r with
      | Ok (Some v) =>
          fetch_outcome w (mod_record pid) (mod_title w) (project_label pid)
            fallback urls = Ok v
          ∧ (st_cache s ≠ None → mod_write_ok w pid = true →
             mod_file (st_cache s') pid = Some (FileJson v))
      | Ok None =>
          fetch_outcome w (mod_record pid) (mod_title w) (project_label pid)
            fallback urls = Ok fallback
          ∧ same_mod_files (st_cache s) (st_cache s')
      | Raise e =>
          fetch_outcome w (mod_record pid) (mod_title w) (project_label pid)
            fallback urls = Raise e
      end.
Proof.
  revert s. induction urls as [|url rest IH]; intros s; simpl.
  - exists (Ok None), s.
    split_and!; [done | apply mod_frame_refl | done | apply same_mod_files_refl].
  - rewrite bind_run.
    destruct (try_mod_url_run w pid url s) as (s1 & Hurl).
    destruct (http_get w url) as [e|status_code text].
    + destruct Hurl as [-> Hc]. destruct (caught_by_fetcher e).
      * destruct (IH s1) as (r & s' & -> & Hframe & Hr). rewrite Hc in *.
        by exists r, s'.
      * exists (Raise e), s1. rewrite Hc.
        split_and!; [done | apply mod_frame_refl | done].
    + destruct (negb _).
      * destruct Hurl as [-> Hc].
        destruct (IH s1) as (r & s' & -> & Hframe & Hr). rewrite Hc in *.
        by exists r, s'.
      * destruct Hurl as (-> & Hframe & Hwritten). by eexists _, s1.
Qed.

Lemma fetch_outcome_truthy w record title label fallback urls v :
  (∀ n u, truthy (record n u) = true) → truthy fallback = true →
  fetch_outcome w record title label fallback urls = Ok v → truthy v = true.
Proof.
  intros Hrec Hfb. induction urls as [|url rest IH]; simpl.
  - by intros [= <-].
  - destruct (http_get w url) as [e|status_code text].
    + by destruct (caught_by_fetcher e).
    + destruct (negb _); [done|]. by intros [= <-].
Qed.

(** Whatever a key resolves to is a non-empty record. *)
Lemma mod_resolution_truthy w a pid v :
  mod_resolution w a pid = Ok v → truthy v = true.
Proof.
  unfold mod_resolution. destruct (mod_lookup_raises a pid); [done|].
  destruct (truthy (cached_mod a pid)) eqn:E; [by intros [= <-]|].
  by apply fetch_outcome_truthy.
Qed.

(** A key whose fetch returns is not one the lookup raises on. *)
Lemma mod_resolution_returns_lookup w a pid v :
  mod_resolution w a pid = Ok v → mod_lookup_raises a pid = false.
Proof. unfold mod_resolution. by destruct (mod_lookup_raises a pid). Qed.

(** [scrape_mod_info] returns what the key resolves to, touches no cache
    file but the key's own, and leaves the record it returns in the cache
    when the cache can be written. *)
Lemma scrape_mod_info_run w pid s :
  ∃ s', scrape_mod_info w pid s = (mod_resolution w (st_cache s) pid, s')
    ∧ mod_frame pid (st_cache s) (st_cache s')
    ∧ (∀ v, st_cache s ≠ None → mod_write_ok w pid = true →
            mod_resolution w (st_cache s) pid = Ok v →
            mod_file (st_cache s') pid = Some (FileJson v)).
Proof.
  unfold scrape_mod_info, mod_resolution. rewrite bind_run.
  destruct (cache_get_mod_info_run pid s) as (s1 & -> & Hsame).
  unfold mod_lookup. destruct (mod_lookup_raises (st_cache s) pid) eqn:Hraises.
  { exists s1. split_and!; [done | by apply same_mod_files_frame | done]. }
  destruct (truthy (cached_mod (st_cache s) pid)) eqn:Htruthy.
  - exists s1. split_and!; [done | by apply same_mod_files_frame|].
    intros v _ _ [= <-]. destruct Hsame as [_ ->].
    revert Htruthy. rewrite cached_mod_file.
    by destruct (mod_file (st_cache s) pid) as [[?| | |]|].
  - rewrite bind_run.
    destruct (for_urls_mod_run w pid (mod_placeholder pid) (mod_urls pid) s1)
      as (r & s2 & -> & Hframe & Hr).
    assert (Hne : st_cache s ≠ None → st_cache s1 ≠ None).
    { destruct Hsame as [Hp _]. by destruct (st_cache s), (st_cache s1). }
    destruct r as [[v|]|e].
    + destruct Hr as [Hout Hwritten]. exists s2. split_and!.
      * unfold mod_fetch. by rewrite Hout.
      * eapply mod_frame_trans; [by apply same_mod_files_frame|done].
      * intros v' Hc Hw Hv'. unfold mod_fetch in Hv'.
        rewrite Hout in Hv'. injection Hv' as <-. by apply Hwritten; [apply Hne|].
    + destruct Hr as [Hout Hsame2]. rewrite bind_run. simpl. rewrite bind_run.
      fold (mod_placeholder pid).
      destruct (cache_set_mod_info_run w pid (mod_placeholder pid)
                  (mkSt (st_cache s2)
                        (st_trace s2 ++ [EvStderr (FailedToScrapeProject pid)])))
        as (s3 & Hset & Hframe3 & Hwritten).
      rewrite Hset. simpl in Hframe3, Hwritten.
      exists s3. split_and!.
      * unfold mod_fetch. by rewrite Hout.
      * eapply mod_frame_trans; [by apply same_mod_files_frame|].
        eapply mod_frame_trans; [exact Hframe|done].
      * intros v' Hc Hw Hv'. unfold mod_fetch in Hv'.
        rewrite Hout in Hv'. injection Hv' as <-. apply Hwritten; [|done].
        destruct Hsame2 as [Hp _]. specialize (Hne Hc).
        by destruct (st_cache s1), (st_cache s2).
    + exists s2. split_and!.
      * unfold mod_fetch. by rewrite Hr.
      * eapply mod_frame_trans; [by apply same_mod_files_frame|done].
      * intros v' _ _ Hv'. unfold mod_fetch in Hv'. by rewrite Hr in Hv'.
Qed.

End FetcherFacts.

(** ** The file-level fetcher *)
Module FileFetcherFacts.
Import TraceFacts FetcherFacts.

Lemma cache_get_file_info_run pid fid s :
  ∃ s', cache_get_file_info pid fid s = (file_lookup (st_cache s) pid fid, s').
Proof.
  unfold cache_get_file_info, file_lookup, file_lookup_raises, cached_file,
    get_file_info.
  destruct s as [[c|] tr]; simpl; [|by eexists].
  destruct (file_files c !! file_cache_name pid fid) as [[v| | |]|]; by eexists.
Qed.

Lemma cache_set_file_info_run w pid fid v s :
  ∃ s', cache_set_file_info w pid fid v s = (Ok tt, s').
Proof.
  unfold cache_set_file_info, set_file_info.
  destruct s as [[c|] tr]; simpl; [|by eexists].
  destruct (file_write_ok w (pid, fid));
    [|destruct (file_write_leaves w (pid, fid))]; by eexists.
Qed.

Lemma try_file_url_run w pid fid url s :
  ∃ s',
    try_file_url w pid fid url s =
    (match http_get w url with
     | Raises e => if caught_by_fetcher e then Ok None else Raise e
     | Response status_code text =>
         if negb (Z.eqb status_code 200) then Ok None
         else Ok (Some (file_record fid
                          (default (file_label fid) (file_title w text)) url))
     end, s').
Proof.
  unfold try_file_url. rewrite bind_run. simpl.
  destruct (http_get w url) as [e|status_code text].
  - destruct (caught_by_fetcher e); by eexists.
  - destruct (negb _); [by eexists|].
    rewrite bind_run.
    destruct (cache_set_file_info_run w pid fid
                (file_record fid (default (file_label fid) (file_title w text)) url)
                (mkSt (st_cache s) (st_trace s ++ [EvGet url])))
      as (s' & ->).
    by exists s'.
Qed.

Lemma for_urls_file_run w pid fid fallback urls s :
  ∃ r s', for_urls (try_file_url w pid fid) urls s = (r, s')
    ∧ fetch_outcome w (file_record fid) (file_title w) (file_label fid)
        fallback urls
      = match r with
        | Ok (Some v) => Ok v
        | Ok None => Ok fallback
        | Raise e => Raise e
        end.
Proof.
  revert s. induction urls as [|url rest IH]; intros s; simpl.
  - by exists (Ok None), s.
  - rewrite bind_run.
    destruct (try_file_url_run w pid fid url s) as (s1 & ->).
    destruct (http_get w url) as [e|status_code text].
    + destruct (caught_by_fetcher e); [apply IH | by exists (Raise e), s1].
    + destruct (negb _); [apply IH | by eexists _, s1].
Qed.

(** [scrape_file_info] returns what the key resolves to. *)
Lemma scrape_file_info_run w pid fid s :
  ∃ s', scrape_file_info w pid fid s
        = (file_resolution w (st_cache s) pid fid, s').
Proof.
  unfold scrape_file_info, file_resolution. rewrite bind_run.
  destruct (cache_get_file_info_run pid fid s) as (s1 & ->).
  unfold file_lookup.
  destruct (file_lookup_raises (st_cache s) pid fid); [by exists s1|].
  destruct (truthy (cached_file (st_cache s) pid fid)); [by exists s1|].
  rewrite bind_run.
  destruct (for_urls_file_run w pid fid (file_placeholder pid fid)
              (file_urls pid fid) s1) as (r & s2 & -> & Hout).
  unfold file_fetch. rewrite Hout. destruct r as [[v|]|e]; [by exists s2| |by exists s2].
  rewrite bind_run. simpl. rewrite bind_run. fold (file_placeholder pid fid).
  destruct (cache_set_file_info_run w pid fid (file_placeholder pid fid)
              (mkSt (st_cache s2)
                    (st_trace s2 ++ [EvStderr (FailedToScrapeFile pid fid)])))
    as (s3 & ->).
  by exists s3.
Qed.

(** The URL loop returns when no exception gets through. *)
Lemma fetch_outcome_returns w record title label fallback urls :
  (∀ url, url ∈ urls → url_escapes w url = false) →
  ∃ v, fetch_outcome w record title label fallback urls = Ok v.
Proof.
  induction urls as [|url rest IH]; intros Hesc; simpl; [by eexists|].
  pose proof (Hesc url (list_elem_of_here _ _)) as Hurl.
  assert (Hrest : ∀ u, u ∈ rest → url_escapes w u = false).
  { intros u Hu. apply Hesc. by right. }
  unfold url_escapes in Hurl.
  destruct (http_get w url) as [e|status_code text].
  - destruct (caught_by_fetcher e); [by apply IH|done].
  - destruct (negb _); [by apply IH | by eexists].
Qed.

(** The URL loop ends in the fallback when every candidate fails. *)
Lemma fetch_outcome_all_fail w record title label fallback urls :
  (∀ url, url ∈ urls → url_fails w url = true) →
  fetch_outcome w record title label fallback urls = Ok fallback.
Proof.
  induction urls as [|url rest IH]; intros Hfail; simpl; [done|].
  pose proof (Hfail url (list_elem_of_here _ _)) as Hurl.
  assert (Hrest : ∀ u, u ∈ rest → url_fails w u = true).
  { intros u Hu. apply Hfail. by right. }
  unfold url_fails in Hurl.
  destruct (http_get w url) as [e|status_code text]; rewrite Hurl; by apply IH.
Qed.

(** What the URL loop returns is the fallback or a record for one of the
    candidate URLs. *)
Lemma fetch_outcome_shape w record title label fallback urls v :
  fetch_outcome w record title label fallback urls = Ok v →
  v = fallback ∨ ∃ name url, url ∈ urls ∧ v = record name url.
Proof.
  induction urls as [|url rest IH]; simpl.
  - intros [= <-]. by left.
  - assert (Hrest : fetch_outcome w record title label fallback rest = Ok v →
                    v = fallback ∨ ∃ name u, u ∈ url :: rest ∧ v = record name u).
    { intros [->|(name & u & Hu & ->)]%IH; [by left|].
      right. exists name, u. split; [by right|done]. }
    destruct (http_get w url) as [e|status_code text].
    + by destruct (caught_by_fetcher e).
    + destruct (negb _); [done|]. intros [= <-].
      right. eexists _, url. split; [by left|done].
Qed.

Lemma file_resolution_truthy w a pid fid v :
  file_resolution w a pid fid = Ok v → truthy v = true.
Proof.
  unfold file_resolution. destruct (file_lookup_raises a pid fid); [done|].
  destruct (truthy (cached_file a pid fid)) eqn:E; [by intros [= <-]|].
  by apply fetch_outcome_truthy.
Qed.

End FileFetcherFacts.

(** ** The three loops of the project orchestrator *)
Module OrchestratorFacts.
Import TraceFacts FetcherFacts.

Lemma elem_of_list_remove_first (x q : Z) (l : list Z) :
  NoDup l → q ∈ list_remove_first x l ↔ q ∈ l ∧ q ≠ x.
Proof.
  induction l as [|y l IH]; simpl; intros Hnd.
  - split; [intros H | intros [H _]]; by apply not_elem_of_nil in H.
  - apply NoDup_cons in Hnd as [Hy Hnd]. case_decide as Hyx.
    + subst y. rewrite elem_of_cons. split.
      * intros Hq. split; [by right|]. by intros ->.
      * by intros [[->|Hq] Hne].
    + rewrite !elem_of_cons, (IH Hnd). split.
      * intros [->|[Hq Hne]]; [by split; [left|] | by split; [right|]].
      * intros [[->|Hq] Hne]; [by left | by right].
Qed.

Lemma NoDup_list_remove_first (x : Z) (l : list Z) :
  NoDup l → NoDup (list_remove_first x l).
Proof.
  induction l as [|y l IH]; simpl; intros Hnd; [done|].
  pose proof Hnd as Hnd0. apply NoDup_cons in Hnd as [Hy Hnd]. case_decide; [done|].
  apply NoDup_cons. split; [|by apply IH].
  rewrite elem_of_list_remove_first by done. by intros [? _].
Qed.

Lemma submitted_mods_app t1 t2 :
  submitted_mods (t1 ++ t2) = submitted_mods t1 ++ submitted_mods t2.
Proof. apply omap_app. Qed.

Lemma submitted_mods_quiet t :
  forallb is_get_or_stderr t = true → submitted_mods t = [].
Proof.
  induction t as [|ev t IH]; [done|]. simpl. intros [Hev Ht]%andb_true_iff.
  unfold submitted_mods in *. csimpl. rewrite (IH Ht). by destruct ev.
Qed.

Lemma quiet_not_fetch t :
  forallb is_stderr t = true →
  forallb (fun ev => negb (is_fetch_event ev)) t = true.
Proof.
  rewrite !forallb_forall. intros H ev Hev. specialize (H ev Hev). by destruct ev.
Qed.

Lemma stderr_get_or_stderr t :
  forallb is_stderr t = true → forallb is_get_or_stderr t = true.
Proof.
  rewrite !forallb_forall. intros H ev Hev. specialize (H ev Hev). by destruct ev.
Qed.

(** The cache pass moves every key stored with a true value from
    [project_ids] to [mod_info]. *)
Lemma check_mod_cache_run copy m ids s :
  NoDup ids →
  (∀ q, q ∈ copy → mod_lookup_raises (st_cache s) q = false) →
  ∃ m' ids' s', check_mod_cache copy (m, ids) s = (Ok (m', ids'), s')
    ∧ same_mod_files (st_cache s) (st_cache s')
    ∧ NoDup ids'
    ∧ (∀ q, q ∈ ids' ↔
            q ∈ ids ∧ ¬ (q ∈ copy ∧ truthy (cached_mod (st_cache s) q) = true))
    ∧ (∀ q, m' !! q =
            if decide (q ∈ copy ∧ truthy (cached_mod (st_cache s) q) = true)
            then Some (cached_mod (st_cache s) q) else m !! q).
Proof.
  revert m ids s.
  induction copy as [|pid rest IH]; intros m ids s Hnd Hok; cbn [check_mod_cache].
  - exists m, ids, s. split_and!; [done | apply same_mod_files_refl | done | |].
    + intros q. split; [intros Hq; split; [done|] | by intros [? _]].
      intros [Hin _]. by apply not_elem_of_nil in Hin.
    + intros q. case_decide as H; [|done].
      destruct H as [Hin _]. by apply not_elem_of_nil in Hin.
  - rewrite bind_run.
    destruct (cache_get_mod_info_run pid s) as (s1 & -> & Hsame).
    unfold mod_lookup. rewrite (Hok pid) by left.
    assert (Hcached : ∀ q, cached_mod (st_cache s1) q = cached_mod (st_cache s) q).
    { intros q. apply cached_mod_ext, Hsame. }
    assert (Hok1 : ∀ q, q ∈ rest → mod_lookup_raises (st_cache s1) q = false).
    { intros q Hq. rewrite (mod_lookup_raises_ext (st_cache s)) by apply Hsame.
      apply Hok. by right. }
    destruct (truthy (cached_mod (st_cache s) pid)) eqn:Htruthy.
    + destruct (IH (<[pid := cached_mod (st_cache s) pid]> m)
                   (list_remove_first pid ids) s1
                   (NoDup_list_remove_first _ _ Hnd) Hok1)
        as (m' & ids' & s' & Hrun & Hsame' & Hnd' & Hids & Hm).
      exists m', ids', s'. cbn [fst snd]. rewrite Hrun. split_and!.
      * done.
      * by eapply same_mod_files_trans.
      * done.
      * intros q. rewrite Hids, elem_of_list_remove_first, Hcached by done.
        rewrite elem_of_cons. split.
        -- intros [[Hq Hne] Hnot]. split; [done|].
           intros [[->|Hin] Ht]; [done|]. by apply Hnot.
        -- intros [Hq Hnot]. split_and!; [done| |].
           ++ intros ->. apply Hnot. by split; [left|].
           ++ intros [Hin Ht]. apply Hnot. by split; [right|].
      * intros q. rewrite Hm, Hcached.
        destruct (decide (q = pid)) as [->|Hne].
        -- rewrite lookup_insert_eq.
           rewrite (decide_True (P := pid ∈ pid :: rest ∧ _)) by (by split; [left|]).
           by case_decide.
        -- rewrite lookup_insert_ne by done.
           apply decide_ext. rewrite elem_of_cons. split.
           ++ intros [Hin Ht]. by split; [right|].
           ++ by intros [[->|Hin] Ht].
    + destruct (IH m ids s1 Hnd Hok1)
        as (m' & ids' & s' & Hrun & Hsame' & Hnd' & Hids & Hm).
      exists m', ids', s'. rewrite Hrun. split_and!.
      * done.
      * by eapply same_mod_files_trans.
      * done.
      * intros q. rewrite Hids, Hcached, elem_of_cons.
        split; intros [Hq Hnot]; (split; [done|]).
        -- intros [[->|Hin] Ht]; [congruence|]. by apply Hnot.
        -- intros [Hin Ht]. apply Hnot. by split; [right|].
      * intros q. rewrite Hm, Hcached.
        apply decide_ext. rewrite elem_of_cons. split.
        -- intros [Hin Ht]. by split; [right|].
        -- intros [[->|Hin] Ht]; [congruence|done].
Qed.

(** The cache pass raises when the lookup of one of its keys does. *)
(** Either every lookup of a list of keys returns, or one raises. *)
Lemma mod_lookups_return_or_raise (a : option CurseForgeCache) (ids : list Z) :
  (∀ q, q ∈ ids → mod_lookup_raises a q = false)
  ∨ (∃ q, q ∈ ids ∧ mod_lookup_raises a q = true).
Proof.
  induction ids as [|q rest [IH|(q' & Hq' & Hr)]].
  - left. intros q Hq. by apply not_elem_of_nil in Hq.
  - destruct (mod_lookup_raises a q) eqn:Hq.
    + right. exists q. split; [by left | done].
    + left. intros q' [->|Hq']%elem_of_cons; [done | by apply IH].
  - right. exists q'. split; [by right | done].
Qed.

Lemma check_mod_cache_raises copy acc s :
  (∃ q, q ∈ copy ∧ mod_lookup_raises (st_cache s) q = true) →
  ∃ s', check_mod_cache copy acc s = (Raise OtherException, s')
        ∧ same_mod_files (st_cache s) (st_cache s').
Proof.
  revert acc s. induction copy as [|pid rest IH]; intros acc s (q & Hq & Hraises).
  - by apply not_elem_of_nil in Hq.
  - cbn [check_mod_cache]. rewrite bind_run.
    destruct (cache_get_mod_info_run pid s) as (s1 & -> & Hsame).
    unfold mod_lookup.
    destruct (mod_lookup_raises (st_cache s) pid) eqn:Hpid; [by exists s1|].
    assert (Hrest : ∃ q', q' ∈ rest ∧ mod_lookup_raises (st_cache s1) q' = true).
    { exists q. apply elem_of_cons in Hq as [->|Hq]; [congruence|].
      split; [done|].
      by rewrite (mod_lookup_raises_ext (st_cache s)) by apply Hsame. }
    destruct (truthy (cached_mod (st_cache s) pid));
      (edestruct IH as (s' & Hrun & Hsame'); [exact Hrest|];
       exists s'; split; [exact Hrun | by eapply same_mod_files_trans]).
Qed.

(** The dispatch loop hands every key to the fetcher once; each task sees
    the cache file of its key as it was before the loop. *)
Lemma submit_mod_tasks_run w ids s :
  NoDup ids →
  ∃ s' t, submit_mod_tasks w ids s
          = (Ok ((fun q => (mod_resolution w (st_cache s) q, q)) <$> ids), s')
    ∧ st_trace s' = st_trace s ++ t
    ∧ submitted_mods t = ids
    ∧ same_presence (st_cache s) (st_cache s')
    ∧ (∀ q, q ∉ ids → mod_file (st_cache s') q = mod_file (st_cache s) q)
    ∧ (∀ q v, q ∈ ids → st_cache s ≠ None → mod_write_ok w q = true →
              mod_resolution w (st_cache s) q = Ok v →
              mod_file (st_cache s') q = Some (FileJson v)).
Proof.
  revert s. induction ids as [|pid rest IH]; intros s Hnd; cbn [submit_mod_tasks].
  - exists s, []. rewrite app_nil_r.
    split_and!; [done | done | done | apply same_presence_refl | done |].
    intros q v Hq. by apply not_elem_of_nil in Hq.
  - apply NoDup_cons in Hnd as [Hpid Hnd].
    rewrite bind_run. cbn [emit]. rewrite bind_run. unfold submit.
    set (s0 := mkSt (st_cache s) (st_trace s ++ [EvSubmitMod pid])).
    destruct (scrape_mod_info_run w pid s0) as (s1 & Hrun & [Hp1 Hframe1] & Hwr1).
    destruct (emits_scrape_mod_info is_get_or_stderr
                (fun _ => eq_refl) (fun _ => eq_refl) w pid s0)
      as (t1 & Ht1 & Hq1).
    rewrite Hrun in Ht1 |- *. cbn [snd] in Ht1.
    destruct (IH s1 Hnd) as (s2 & t2 & Hrun2 & Ht2 & Hsub2 & Hp2 & Hframe2 & Hwr2).
    rewrite bind_run, Hrun2. cbn [mret M_ret].
    exists s2, ([EvSubmitMod pid] ++ t1 ++ t2). split_and!.
    + unfold mret, M_ret. rewrite fmap_cons.
      assert ((fun q => (mod_resolution w (st_cache s1) q, q)) <$> rest
              = (fun q => (mod_resolution w (st_cache s) q, q)) <$> rest) as ->;
        [|done].
      apply list_fmap_ext. intros i q Hq%list_elem_of_lookup_2.
      f_equal. apply mod_resolution_ext, Hframe1. by intros ->.
    + rewrite Ht2, Ht1. simpl. by rewrite <- !app_assoc.
    + rewrite !submitted_mods_app, (submitted_mods_quiet t1 Hq1), Hsub2. done.
    + by eapply same_presence_trans.
    + intros q Hq. apply not_elem_of_cons in Hq as [Hne Hq].
      rewrite Hframe2, Hframe1; done.
    + intros q v Hq Hc Hw Hv. apply elem_of_cons in Hq as [->|Hq].
      * rewrite Hframe2 by done. by apply Hwr1.
      * assert (q ≠ pid) as Hne by (by intros ->).
        apply Hwr2; [done | | done |].
        -- simpl in Hp1. by destruct (st_cache s), (st_cache s1).
        -- rewrite <- Hv. by apply mod_resolution_ext, Hframe1.
Qed.

(** The result loop stores what every task returned and reports what it
    raised. *)
Lemma collect_mod_results_run (res : Z → Exc Json) ids m s :
  ∃ m' s' t, collect_mod_results ((fun q => (res q, q)) <$> ids) m s = (Ok m', s')
    ∧ st_cache s' = st_cache s
    ∧ st_trace s' = st_trace s ++ t
    ∧ forallb (fun ev => negb (is_fetch_event ev)) t = true
    ∧ (∀ q e, q ∈ ids → res q = Raise e →
              EvStderr (ErrProcessingProject q e) ∈ t)
    ∧ (∀ q, m' !! q =
            if decide (q ∈ ids)
            then match res q with
                 | Ok v => if truthy v then Some v else m !! q
                 | Raise _ => m !! q
                 end
            else m !! q).
Proof.
  revert m s. induction ids as [|pid rest IH]; intros m s.
  - exists m, s, []. rewrite app_nil_r. split_and!; try done.
    intros q e Hq. by apply not_elem_of_nil in Hq.
  - rewrite fmap_cons. cbn [collect_mod_results].
    destruct (res pid) as [v|e] eqn:Hres.
    + rewrite bind_run. cbn [emit].
      set (m0 := if truthy v then <[pid := v]> m else m).
      set (s0 := mkSt (st_cache s) (st_trace s ++ [EvSleep (1 # 2)])).
      destruct (IH m0 s0) as (m' & s' & t & -> & Hc & Ht & Hq & Herr & Hm).
      exists m', s', ([EvSleep (1 # 2)] ++ t). split_and!.
      * done.
      * done.
      * rewrite Ht. simpl. by rewrite <- app_assoc.
      * done.
      * intros q e' Hin Hr. apply elem_of_cons in Hin as [->|Hin]; [congruence|].
        apply elem_of_app. right. by apply Herr.
      * intros q. rewrite Hm. destruct (decide (q = pid)) as [->|Hne].
        -- rewrite (decide_True (P := pid ∈ pid :: rest)) by left.
           rewrite Hres. subst m0.
           case_decide; destruct (truthy v) eqn:Hv; try done.
           by rewrite lookup_insert_eq.
        -- assert (m0 !! q = m !! q) as ->.
           { subst m0. destruct (truthy v); [by rewrite lookup_insert_ne|done]. }
           apply decide_ext. rewrite elem_of_cons. split; [by right|by intros [?|?]].
    + rewrite bind_run. cbn [stderr].
      set (s0 := mkSt (st_cache s) _).
      destruct (IH m s0) as (m' & s' & t & -> & Hc & Ht & Hq & Herr & Hm).
      exists m', s', ([EvStderr (ErrProcessingProject pid e)] ++ t). split_and!.
      * done.
      * done.
      * rewrite Ht. simpl. by rewrite <- app_assoc.
      * done.
      * intros q e' Hin Hr. apply elem_of_cons in Hin as [->|Hin].
        -- rewrite Hres in Hr. injection Hr as <-. apply elem_of_app. left. by left.
        -- apply elem_of_app. right. by apply Herr.
      * intros q. rewrite Hm. destruct (decide (q = pid)) as [->|Hne].
        -- rewrite (decide_True (P := pid ∈ pid :: rest)) by left.
           rewrite Hres. by case_decide.
        -- apply decide_ext. rewrite elem_of_cons. split; [by right|by intros [?|?]].
Qed.

(** The pool: nothing happens for an empty list of keys. *)
Lemma dispatch_mod_run w m1 ids1 s1 :
  NoDup ids1 →
  ∃ m' s' t,
    (match ids1 with
     | [] => mret m1
     | _ :: _ =>
         emit (EvPool 3);;
         futures ← submit_mod_tasks w ids1;
         collect_mod_results futures m1
     end) s1 = (Ok m', s')
    ∧ st_trace s' = st_trace s1 ++ t
    ∧ submitted_mods t = ids1
    ∧ (ids1 = [] → t = [])
    ∧ same_presence (st_cache s1) (st_cache s')
    ∧ (∀ q, q ∉ ids1 → mod_file (st_cache s') q = mod_file (st_cache s1) q)
    ∧ (∀ q v, q ∈ ids1 → st_cache s1 ≠ None → mod_write_ok w q = true →
              mod_resolution w (st_cache s1) q = Ok v →
              mod_file (st_cache s') q = Some (FileJson v))
    ∧ (∀ q e, q ∈ ids1 → mod_resolution w (st_cache s1) q = Raise e →
              EvStderr (ErrProcessingProject q e) ∈ t)
    ∧ (∀ q, m' !! q =
            if decide (q ∈ ids1)
            then match mod_resolution w (st_cache s1) q with
                 | Ok v => if truthy v then Some v else m1 !! q
                 | Raise _ => m1 !! q
                 end
            else m1 !! q).
Proof.
  intros Hnd. destruct ids1 as [|pid rest].
  - exists m1, s1, []. rewrite app_nil_r.
    split_and!; try done; try apply same_presence_refl.
    + intros q v Hq. by apply not_elem_of_nil in Hq.
    + intros q e Hq. by apply not_elem_of_nil in Hq.
  - set (ids1 := pid :: rest) in *.
    rewrite bind_run. cbn [emit].
    set (s0 := mkSt (st_cache s1) (st_trace s1 ++ [EvPool 3])).
    destruct (submit_mod_tasks_run w ids1 s0 Hnd)
      as (s2 & t2 & Hrun2 & Ht2 & Hsub2 & Hp2 & Hframe2 & Hwr2).
    rewrite bind_run, Hrun2.
    destruct (collect_mod_results_run (mod_resolution w (st_cache s0)) ids1 m1 s2)
      as (m' & s3 & t3 & Hrun3 & Hc3 & Ht3 & Hq3 & Herr3 & Hm3).
    rewrite Hrun3. exists m', s3, ([EvPool 3] ++ t2 ++ t3). split_and!.
    + done.
    + rewrite Ht3, Ht2. simpl. by rewrite <- !app_assoc.
    + rewrite !submitted_mods_app, Hsub2. simpl.
      assert (submitted_mods t3 = []) as ->; [|by rewrite app_nil_r].
      clear -Hq3. induction t3 as [|ev t3 IH]; [done|].
      simpl in Hq3. apply andb_true_iff in Hq3 as [Hev Hq3].
      unfold submitted_mods in *. csimpl. rewrite (IH Hq3). by destruct ev.
    + done.
    + by rewrite Hc3.
    + intros q Hq. rewrite Hc3. by apply Hframe2.
    + intros q v Hq Hc Hw Hv. rewrite Hc3. by apply Hwr2.
    + intros q e Hq Hr. apply elem_of_app. right. apply elem_of_app. right.
      by apply Herr3.
    + done.
Qed.

(** The cache pass of [scrape_all_mod_info], also when there is no cache. *)
Lemma cache_pass_mod_run ids s :
  NoDup ids →
  (∀ q, q ∈ ids → mod_lookup_raises (st_cache s) q = false) →
  ∃ m1 ids1 s1 t1,
    (match st_cache s with
     | Some _ => check_mod_cache ids (∅, ids)
     | None => mret (∅, ids)
     end) s = (Ok (m1, ids1), s1)
    ∧ st_trace s1 = st_trace s ++ t1
    ∧ forallb is_stderr t1 = true
    ∧ same_mod_files (st_cache s) (st_cache s1)
    ∧ NoDup ids1
    ∧ (∀ q, q ∈ ids1 ↔ q ∈ ids ∧ truthy (cached_mod (st_cache s) q) = false)
    ∧ (∀ q, m1 !! q =
            if decide (q ∈ ids ∧ truthy (cached_mod (st_cache s) q) = true)
            then Some (cached_mod (st_cache s) q) else None).
Proof.
  intros Hnd Hok. destruct (st_cache s) as [c|] eqn:Hcache.
  - destruct (check_mod_cache_run ids ∅ ids s Hnd)
      as (m1 & ids1 & s1 & Hrun & Hsame & Hnd1 & Hids & Hm).
    { intros q Hq. rewrite Hcache. by apply Hok. }
    destruct (emits_check_mod_cache is_stderr (fun _ => eq_refl) ids (∅, ids) s)
      as (t1 & Ht1 & Hq1).
    rewrite Hrun in Ht1 |- *. rewrite Hcache in *.
    exists m1, ids1, s1, t1. split_and!; try done.
    intros q. rewrite Hids. split.
    + intros [Hq Hnot]. split; [done|].
      destruct (truthy _) eqn:E; [|done]. by destruct Hnot.
    + intros [Hq Hf]. split; [done|]. intros [_ Ht]. congruence.
  - exists ∅, ids, s, []. rewrite app_nil_r, Hcache.
    split_and!; try done.
    + intros q. simpl. split; [by intros ? | by intros [? _]].
    + intros q. rewrite lookup_empty. simpl. by case_decide as H; [destruct H|].
Qed.

(** [scrape_all_mod_info] returns when no lookup of its cache pass raises;
    its map holds, for every project of the manifest, what the key resolves
    to, unless the fetch raised. *)
Lemma scrape_all_mod_info_run w manifest s :
  let ids := elements (list_to_set (projectID <$> get_files manifest) : gset Z) in
  (∀ q, q ∈ ids → mod_lookup_raises (st_cache s) q = false) →
  ∃ m' s' t, scrape_all_mod_info w manifest s = (Ok m', s')
    ∧ st_trace s' = st_trace s ++ t
    ∧ same_presence (st_cache s) (st_cache s')
    ∧ (∀ q, m' !! q =
            if decide (q ∈ ids)
            then match mod_resolution w (st_cache s) q with
                 | Ok v => Some v
                 | Raise _ => None
                 end
            else None)
    ∧ (∀ q v, q ∈ ids → st_cache s ≠ None → mod_write_ok w q = true →
              mod_resolution w (st_cache s) q = Ok v →
              mod_file (st_cache s') q = Some (FileJson v))
    ∧ NoDup (submitted_mods t)
    ∧ (∀ q, q ∈ submitted_mods t ↔
            q ∈ ids ∧ truthy (cached_mod (st_cache s) q) = false)
    ∧ (submitted_mods t = [] →
       forallb (fun ev => negb (is_fetch_event ev)) t = true)
    ∧ (∀ q e, q ∈ ids → mod_resolution w (st_cache s) q = Raise e →
              EvStderr (ErrProcessingProject q e) ∈ t).
Proof.
  intros ids Hok. unfold scrape_all_mod_info. fold ids.
  rewrite bind_run.
  destruct (cache_pass_mod_run ids s (NoDup_elements _) Hok)
    as (m1 & ids1 & s1 & t1 & -> & Ht1 & Hq1 & Hsame & Hnd1 & Hids1 & Hm1).
  destruct (dispatch_mod_run w m1 ids1 s1 Hnd1)
    as (m' & s' & t & Hrun & Ht & Hsub & Hnil & Hp & Hframe & Hwr & Herr & Hm).
  rewrite Hrun.
  assert (Hres : ∀ q, mod_resolution w (st_cache s1) q
                      = mod_resolution w (st_cache s) q).
  { intros q. apply mod_resolution_ext, Hsame. }
  assert (Hsub1 : submitted_mods t1 = []).
  { by apply submitted_mods_quiet, stderr_get_or_stderr. }
  exists m', s', (t1 ++ t). split_and!.
  - done.
  - by rewrite Ht, Ht1, app_assoc.
  - eapply same_presence_trans; [apply Hsame | done].
  - intros q. rewrite Hm, Hres, Hm1.
    destruct (decide (q ∈ ids1)) as [Hin|Hnin].
    + apply Hids1 in Hin as [Hq Hfalse].
      rewrite (decide_True (P := q ∈ ids)) by done.
      rewrite (decide_False (P := q ∈ ids ∧ _)) by (intros [_ ?]; congruence).
      destruct (mod_resolution w (st_cache s) q) as [v|e] eqn:Hr; [|done].
      by rewrite (mod_resolution_truthy _ _ _ _ Hr).
    + destruct (decide (q ∈ ids)) as [Hq|Hq].
      * destruct (truthy (cached_mod (st_cache s) q)) eqn:Ht'.
        -- rewrite decide_True by done. unfold mod_resolution.
           by rewrite (Hok q Hq), Ht'.
        -- destruct Hnin. by apply Hids1.
      * by rewrite decide_False by (by intros [? _]).
  - intros q v Hq Hc Hw Hv.
    assert (Hc1 : st_cache s1 ≠ None).
    { destruct Hsame as [Hps _]. by destruct (st_cache s), (st_cache s1). }
    destruct (decide (q ∈ ids1)) as [Hin|Hnin].
    + apply Hwr; [done..|]. by rewrite Hres.
    + rewrite Hframe by done. destruct Hsame as [_ ->].
      destruct (truthy (cached_mod (st_cache s) q)) eqn:Ht'.
      * unfold mod_resolution in Hv. rewrite (Hok q Hq), Ht' in Hv.
        injection Hv as <-.
        revert Ht'. rewrite cached_mod_file.
        by destruct (mod_file (st_cache s) q) as [[?| | |]|].
      * destruct Hnin. by apply Hids1.
  - by rewrite submitted_mods_app, Hsub1, Hsub.
  - intros q. by rewrite submitted_mods_app, Hsub1, Hsub, Hids1.
  - rewrite submitted_mods_app, Hsub1, Hsub. simpl. intros Hnil'.
    rewrite (Hnil Hnil'), app_nil_r. by apply quiet_not_fetch.
  - intros q e Hq Hr. apply elem_of_app. right.
    apply Herr; [|by rewrite Hres].
    apply Hids1. split; [done|].
    unfold mod_resolution in Hr. rewrite (Hok q Hq) in Hr. by destruct (truthy _).
Qed.

(** [scrape_all_mod_info] raises, before it dispatches anything, when a
    lookup of its cache pass raises. *)
Lemma scrape_all_mod_info_raises w manifest s :
  let ids := elements (list_to_set (projectID <$> get_files manifest) : gset Z) in
  (∃ q, q ∈ ids ∧ mod_lookup_raises (st_cache s) q = true) →
  ∃ s' t, scrape_all_mod_info w manifest s = (Raise OtherException, s')
    ∧ st_trace s' = st_trace s ++ t
    ∧ forallb is_stderr t = true
    ∧ same_mod_files (st_cache s) (st_cache s').
Proof.
  intros ids Hraises. unfold scrape_all_mod_info. fold ids. rewrite bind_run.
  destruct (st_cache s) as [c|] eqn:Hcache;
    [|by destruct Hraises as (q & _ & ?)].
  destruct (check_mod_cache_raises ids (∅, ids) s) as (s' & Hrun & Hsame).
  { by rewrite Hcache. }
  destruct (emits_check_mod_cache is_stderr (fun _ => eq_refl) ids (∅, ids) s)
    as (t & Ht & Hq).
  rewrite Hrun in Ht |- *. rewrite Hcache in Hsame. by exists s', t.
Qed.

End OrchestratorFacts.

Import TraceFacts FetcherFacts FileFetcherFacts OrchestratorFacts.

(** ** The claims about the fetchers and the orchestrator *)

Lemma scrape_mod_info_result w q s :
  (scrape_mod_info w q s).1 = mod_resolution w (st_cache s) q.
Proof. by destruct (scrape_mod_info_run w q s) as (s' & -> & _). Qed.

Lemma scrape_file_info_result w pid fid s :
  (scrape_file_info w pid fid s).1 = file_resolution w (st_cache s) pid fid.
Proof. by destruct (scrape_file_info_run w pid fid s) as (s' & ->). Qed.


(** C3.  When no fetch raises, [scrape_all_mod_info] returns a map with one
    entry for each of the N distinct projectIDs of the manifest; the entry
    is the cached record when the cache holds one and the record returned
    by the dispatched fetch otherwise; no key is dispatched twice, and only
    keys missing from the cache are dispatched. *)
Theorem scrape_all_mod_info_complete (w : World) (manifest : Manifest) (s : St) :
  let ids : gset Z := list_to_set (projectID <$> get_files manifest) in
  (∀ q e, q ∈ ids → (scrape_mod_info w q s).1 ≠ Raise e) →
  ∃ mod_info s' t,
    scrape_all_mod_info w manifest s = (Ok mod_info, s')
    ∧ st_trace s' = st_trace s ++ t
    ∧ dom mod_info = ids
    ∧ size mod_info = size ids
    ∧ (∀ q, q ∈ ids →
         ∃ v, mod_info !! q = Some v
              ∧ (truthy (cached_mod (st_cache s) q) = true →
                 v = cached_mod (st_cache s) q ∧ q ∉ submitted_mods t)
              ∧ (truthy (cached_mod (st_cache s) q) = false →
                 (scrape_mod_info w q s).1 = Ok v ∧ q ∈ submitted_mods t))
    ∧ NoDup (submitted_mods t)
    ∧ (∀ q, q ∈ submitted_mods t → q ∈ ids).
Proof.
  intros ids Hsafe.
  assert (Hres : ∀ q, q ∈ ids → ∃ v, mod_resolution w (st_cache s) q = Ok v).
  { intros q Hq. specialize (Hsafe q). rewrite scrape_mod_info_result in Hsafe.
    destruct (mod_resolution w (st_cache s) q) as [v|e]; [by eexists|].
    by destruct (Hsafe e). }
  assert (Hok : ∀ q, q ∈ elements ids → mod_lookup_raises (st_cache s) q = false).
  { intros q Hq%elem_of_elements. destruct (Hres q Hq) as [v Hv].
    by eapply mod_resolution_returns_lookup. }
  destruct (scrape_all_mod_info_run w manifest s Hok)
    as (m & s' & t & Hrun & Ht & _ & Hm & _ & Hnd & Hsub & _ & _).
  assert (Hlookup : ∀ q, is_Some (m !! q) ↔ q ∈ ids).
  { intros q. rewrite Hm. case_decide as Hq; rewrite elem_of_elements in Hq.
    - destruct (Hres q Hq) as [v ->]. split; [done | by eexists].
    - split; [by intros [? ?] | done]. }
  assert (Hdom : dom m = ids).
  { apply set_eq. intros q. by rewrite elem_of_dom. }
  exists m, s', t. split_and!; try done.
  - by rewrite <- size_dom, Hdom.
  - intros q Hq. destruct (Hres q Hq) as [v Hv]. exists v. split_and!.
    + rewrite Hm, decide_True by (by apply elem_of_elements). by rewrite Hv.
    + intros Hhit. split.
      * unfold mod_resolution in Hv.
        rewrite (Hok q) in Hv by (by apply elem_of_elements).
        rewrite Hhit in Hv. by injection Hv.
      * rewrite Hsub. intros [_ Hmiss]. congruence.
    + intros Hmiss. split; [by rewrite scrape_mod_info_result|].
      apply Hsub. split; [by apply elem_of_elements | done].
  - intros q [Hq _]%Hsub. by apply elem_of_elements in Hq.
Qed.

Lemma scrape_all_mod_info_complete_witness :
  (∀ q e, q ∈ (list_to_set (projectID <$> get_files manifest_1_2_3) : gset Z) →
          (scrape_mod_info world_all_404 q start_without_cache).1 ≠ Raise e)
  ∧ ∃ mod_info s',
      scrape_all_mod_info world_all_404 manifest_1_2_3 start_without_cache
        = (Ok mod_info, s')
      ∧ size mod_info = 3%nat.
Proof.
  assert (H : ∀ q e,
             q ∈ (list_to_set (projectID <$> get_files manifest_1_2_3) : gset Z) →
             (scrape_mod_info world_all_404 q start_without_cache).1 ≠ Raise e).
  { intros q e _. rewrite scrape_mod_info_result. discriminate. }
  split; [exact H|].
  destruct (scrape_all_mod_info_complete world_all_404 manifest_1_2_3
              start_without_cache H)
    as (m & s' & t & Hrun & _ & _ & Hsize & _).
  exists m, s'. split; [exact Hrun|]. rewrite Hsize. reflexivity.
Defined.

(** C4.  When the dispatched fetch of exactly one key [k] raises (the
    lookup of [k] in the cache pass returned, and its fetch then raised),
    the orchestrator still returns: the exception is reported on stderr,
    [k] is the only key missing from the map, which has N−1 entries, and
    every other key has the record its own fetch or the cache gives, the
    same record as in any run in which only the fetch of [k] behaves
    differently. *)
Theorem scrape_all_mod_info_fault_isolation
    (w : World) (manifest : Manifest) (s : St) (k : Z) (e : exn) :
  let ids : gset Z := list_to_set (projectID <$> get_files manifest) in
  k ∈ ids →
  mod_lookup_raises (st_cache s) k = false →
  (scrape_mod_info w k s).1 = Raise e →
  (∀ q e', q ∈ ids → q ≠ k → (scrape_mod_info w q s).1 ≠ Raise e') →
  ∃ mod_info s' t,
    scrape_all_mod_info w manifest s = (Ok mod_info, s')
    ∧ st_trace s' = st_trace s ++ t
    ∧ k ∈ submitted_mods t
    ∧ EvStderr (ErrProcessingProject k e) ∈ t
    ∧ mod_info !! k = None
    ∧ dom mod_info = ids ∖ {[k]}
    ∧ S (size mod_info) = size ids
    ∧ (∀ q, q ∈ ids → q ≠ k →
         ∃ v, mod_info !! q = Some v ∧ (scrape_mod_info w q s).1 = Ok v)
    ∧ (∀ w' mod_info' s'',
         (∀ q, q ∈ ids → q ≠ k →
               (scrape_mod_info w' q s).1 = (scrape_mod_info w q s).1) →
         scrape_all_mod_info w' manifest s = (Ok mod_info', s'') →
         ∀ q, q ≠ k → mod_info' !! q = mod_info !! q).
Proof.
  intros ids Hk Hlookup Hraise Hothers.
  rewrite scrape_mod_info_result in Hraise.
  assert (Hres : ∀ q, q ∈ ids → q ≠ k →
                      ∃ v, mod_resolution w (st_cache s) q = Ok v).
  { intros q Hq Hne. specialize (Hothers q). rewrite scrape_mod_info_result in Hothers.
    destruct (mod_resolution w (st_cache s) q) as [v|e']; [by eexists|].
    by destruct (Hothers e'). }
  assert (Hok : ∀ q, q ∈ elements ids → mod_lookup_raises (st_cache s) q = false).
  { intros q Hq%elem_of_elements. destruct (decide (q = k)) as [->|Hne]; [done|].
    destruct (Hres q Hq Hne) as [v Hv]. by eapply mod_resolution_returns_lookup. }
  destruct (scrape_all_mod_info_run w manifest s Hok)
    as (m & s' & t & Hrun & Ht & _ & Hm & _ & _ & Hsub & _ & Herr).
  assert (Hmk : m !! k = None).
  { rewrite Hm. case_decide; [by rewrite Hraise|done]. }
  assert (Hdom : dom m = ids ∖ {[k]}).
  { apply set_eq. intros q.
    rewrite elem_of_dom, elem_of_difference, not_elem_of_singleton.
    destruct (decide (q = k)) as [->|Hne].
    - rewrite Hmk. split; [by intros [? ?] | by intros [_ ?]].
    - rewrite Hm. case_decide as Hq; rewrite elem_of_elements in Hq.
      + destruct (Hres q Hq Hne) as [v ->]. split; [done | by eexists].
      + split; [by intros [? ?] | by intros [? _]]. }
  exists m, s', t. split_and!; try done.
  - apply Hsub. split; [by apply elem_of_elements|].
    unfold mod_resolution in Hraise. rewrite Hlookup in Hraise.
    by destruct (truthy _).
  - apply Herr; [by apply elem_of_elements | done].
  - rewrite <- size_dom, Hdom.
    rewrite size_difference by (by apply singleton_subseteq_l).
    rewrite size_singleton.
    assert (size ids ≠ 0%nat); [|lia].
    intros Hz. apply size_empty_inv in Hz.
    apply (not_elem_of_empty (C := gset Z) k). by apply Hz.
  - intros q Hq Hne. destruct (Hres q Hq Hne) as [v Hv]. exists v.
    rewrite scrape_mod_info_result, Hm, decide_True by (by apply elem_of_elements).
    by rewrite Hv.
  - intros w' m' s'' Hagree Hrun' q Hne.
    destruct (scrape_all_mod_info_run w' manifest s Hok)
      as (m2 & s2 & t2 & Hrun2 & _ & _ & Hm2 & _).
    rewrite Hrun' in Hrun2. injection Hrun2 as <- <-.
    rewrite Hm, Hm2. case_decide as Hq; [|done].
    rewrite elem_of_elements in Hq. specialize (Hagree q Hq Hne).
    rewrite !scrape_mod_info_result in Hagree. by rewrite Hagree.
Qed.

Lemma scrape_all_mod_info_fault_isolation_witness :
  ∃ mod_info s',
    scrape_all_mod_info world_project_2_raises manifest_1_2_3 start_without_cache
      = (Ok mod_info, s')
    ∧ mod_info !! 2 = None
    ∧ size mod_info = 2%nat.
Proof.
  assert (Hk : 2 ∈ (list_to_set (projectID <$> get_files manifest_1_2_3) : gset Z)).
  { apply elem_of_list_to_set. right. left. }
  assert (Hraise : (scrape_mod_info world_project_2_raises 2 start_without_cache).1
                   = Raise OtherException).
  { vm_compute. reflexivity. }
  assert (Hothers : ∀ q e',
             q ∈ (list_to_set (projectID <$> get_files manifest_1_2_3) : gset Z) →
             q ≠ 2 →
             (scrape_mod_info world_project_2_raises q start_without_cache).1
               ≠ Raise e').
  { intros q e' Hq Hne.
    apply elem_of_list_to_set in Hq. simpl in Hq.
    rewrite !elem_of_cons in Hq.
    destruct Hq as [->|[->|[->|[->|Hq]]]];
      [| done | | | by apply not_elem_of_nil in Hq];
      vm_compute; discriminate. }
  destruct (scrape_all_mod_info_fault_isolation world_project_2_raises
              manifest_1_2_3 start_without_cache 2 OtherException
              Hk eq_refl Hraise Hothers)
    as (m & s' & t & Hrun & _ & _ & _ & Hmk & _ & Hsize & _).
  exists m, s'. split_and!; [exact Hrun | exact Hmk |].
  apply Nat.succ_inj. etrans; [exact Hsize | reflexivity].
Defined.

(** C6, as stated, fails: after a first run in which the cache file of
    project 1 could not be written and the fetch of project 2 raised, the
    second run hands both keys to the fetcher again. *)
Lemma cache_round_trip_counterexample :
  let first :=
    scrape_all_mod_info world_faulty manifest_1_2 start_with_empty_cache in
  let second :=
    scrape_all_mod_info world_faulty manifest_1_2 (mkSt (st_cache first.2) []) in
  submitted_mods (st_trace second.2) = [2; 1].
Proof. vm_compute. reflexivity. Qed.

(** The round trip from any cache: the records of a run whose fetches all
    return and whose cache writes all succeed are found by the next run. *)
Lemma cache_round_trip_from (w1 w2 : World) (manifest : Manifest) (s : St) :
  let ids : gset Z := list_to_set (projectID <$> get_files manifest) in
  st_cache s ≠ None →
  (∀ q, q ∈ ids → mod_write_ok w1 q = true) →
  (∀ q e, q ∈ ids → (scrape_mod_info w1 q s).1 ≠ Raise e) →
  ∃ m1 s1 m2 s2 t2,
    scrape_all_mod_info w1 manifest s = (Ok m1, s1)
    ∧ scrape_all_mod_info w2 manifest s1 = (Ok m2, s2)
    ∧ m2 = m1
    ∧ dom m1 = ids
    ∧ (∀ q v, m1 !! q = Some v → mod_file (st_cache s1) q = Some (FileJson v))
    ∧ st_trace s2 = st_trace s1 ++ t2
    ∧ submitted_mods t2 = []
    ∧ forallb (fun ev => negb (is_fetch_event ev)) t2 = true.
Proof.
  intros ids Hcache Hwrite Hsafe.
  assert (Hres : ∀ q, q ∈ ids → ∃ v, mod_resolution w1 (st_cache s) q = Ok v).
  { intros q Hq. specialize (Hsafe q). rewrite scrape_mod_info_result in Hsafe.
    destruct (mod_resolution w1 (st_cache s) q) as [v|e]; [by eexists|].
    by destruct (Hsafe e). }
  assert (Hok : ∀ q, q ∈ elements ids → mod_lookup_raises (st_cache s) q = false).
  { intros q Hq%elem_of_elements. destruct (Hres q Hq) as [v Hv].
    by eapply mod_resolution_returns_lookup. }
  destruct (scrape_all_mod_info_run w1 manifest s Hok)
    as (m1 & s1 & t1 & Hrun1 & _ & Hp1 & Hm1 & Hwr1 & _).
  assert (Hstored : ∀ q v, q ∈ ids → mod_resolution w1 (st_cache s) q = Ok v →
                           mod_file (st_cache s1) q = Some (FileJson v)
                           ∧ mod_resolution w2 (st_cache s1) q = Ok v).
  { intros q v Hq Hv.
    assert (mod_file (st_cache s1) q = Some (FileJson v)) as Hfile.
    { apply Hwr1; [by apply elem_of_elements | done | by apply Hwrite | done]. }
    split; [done|]. unfold mod_resolution.
    rewrite (mod_lookup_raises_written _ _ _ Hfile), cached_mod_file, Hfile.
    by rewrite (mod_resolution_truthy _ _ _ _ Hv). }
  assert (Hok1 : ∀ q, q ∈ elements ids → mod_lookup_raises (st_cache s1) q = false).
  { intros q Hq%elem_of_elements. destruct (Hres q Hq) as [v Hv].
    destruct (Hstored q v Hq Hv) as [Hfile _].
    by eapply mod_lookup_raises_written. }
  destruct (scrape_all_mod_info_run w2 manifest s1 Hok1)
    as (m2 & s2 & t2 & Hrun2 & Ht2 & _ & Hm2 & _ & _ & Hsub2 & Hquiet2 & _).
  assert (Hnone : submitted_mods t2 = []).
  { apply elem_of_nil_inv. intros q [Hq Hmiss]%Hsub2.
    apply elem_of_elements in Hq. destruct (Hres q Hq) as [v Hv].
    destruct (Hstored q v Hq Hv) as [Hfile _].
    rewrite cached_mod_file, Hfile in Hmiss.
    by rewrite (mod_resolution_truthy _ _ _ _ Hv) in Hmiss. }
  exists m1, s1, m2, s2, t2. split_and!; try done.
  - apply map_eq. intros q. rewrite Hm1, Hm2.
    case_decide as Hq; [|done]. apply elem_of_elements in Hq.
    destruct (Hres q Hq) as [v Hv]. destruct (Hstored q v Hq Hv) as [_ Hv2].
    by rewrite Hv, Hv2.
  - apply set_eq. intros q. rewrite elem_of_dom, Hm1.
    case_decide as Hq; rewrite elem_of_elements in Hq.
    + destruct (Hres q Hq) as [v ->]. split; [done | by eexists].
    + split; [by intros [? ?] | done].
  - intros q v. rewrite Hm1. case_decide as Hq; [|done].
    apply elem_of_elements in Hq.
    destruct (mod_resolution w1 (st_cache s) q) as [v'|] eqn:Hv; [|done].
    intros [= ->]. by apply Hstored.
  - by apply Hquiet2.
Qed.

(** C6, amended.  Starting from an empty cache, if every cache write of the
    first run succeeds and none of its fetches raises, then a second run on
    the cache the first one leaves, in whatever state the network then is,
    dispatches no key, sends no request, and returns the same map, whose
    records are those stored in the cache by the first run. *)
Theorem cache_round_trip (w1 w2 : World) (manifest : Manifest)
    (c : CurseForgeCache) (tr : list Event) :
  let ids : gset Z := list_to_set (projectID <$> get_files manifest) in
  let s := mkSt (Some c) tr in
  mod_files c = ∅ →
  (∀ q, q ∈ ids → mod_write_ok w1 q = true) →
  (∀ q e, q ∈ ids → (scrape_mod_info w1 q s).1 ≠ Raise e) →
  ∃ m1 s1 m2 s2 t2,
    scrape_all_mod_info w1 manifest s = (Ok m1, s1)
    ∧ scrape_all_mod_info w2 manifest s1 = (Ok m2, s2)
    ∧ m2 = m1
    ∧ dom m1 = ids
    ∧ (∀ q v, m1 !! q = Some v → mod_file (st_cache s1) q = Some (FileJson v))
    ∧ st_trace s2 = st_trace s1 ++ t2
    ∧ submitted_mods t2 = []
    ∧ forallb (fun ev => negb (is_fetch_event ev)) t2 = true.
Proof.
  intros ids s _ Hwrite Hsafe. by apply cache_round_trip_from.
Qed.

Lemma cache_round_trip_witness :
  ∃ m1 s1 m2 s2,
    scrape_all_mod_info world_all_404 manifest_1_2_3 start_with_empty_cache
      = (Ok m1, s1)
    ∧ scrape_all_mod_info world_project_2_raises manifest_1_2_3 s1 = (Ok m2, s2)
    ∧ m2 = m1
    ∧ submitted_mods (st_trace s2) = submitted_mods (st_trace s1).
Proof.
  assert (Hempty : mod_files (new_cache ".cursecache" ∅ ∅) = ∅) by reflexivity.
  assert (Hwrite : ∀ q,
             q ∈ (list_to_set (projectID <$> get_files manifest_1_2_3) : gset Z) →
             mod_write_ok world_all_404 q = true) by (intros q _; reflexivity).
  assert (Hsafe : ∀ q e,
             q ∈ (list_to_set (projectID <$> get_files manifest_1_2_3) : gset Z) →
             (scrape_mod_info world_all_404 q
                (mkSt (Some (new_cache ".cursecache" ∅ ∅)) [])).1 ≠ Raise e).
  { intros q e _. rewrite scrape_mod_info_result.
    unfold mod_resolution, cached_mod. simpl. rewrite lookup_empty. discriminate. }
  destruct (cache_round_trip world_all_404 world_project_2_raises manifest_1_2_3
              (new_cache ".cursecache" ∅ ∅) [] Hempty Hwrite Hsafe)
    as (m1 & s1 & m2 & s2 & t2 & R1 & R2 & Heq & _ & _ & Ht2 & Hsub & _).
  exists m1, s1, m2, s2. split_and!; [exact R1 | exact R2 | exact Heq |].
  rewrite Ht2, submitted_mods_app, Hsub. apply app_nil_r.
Defined.

(** ** The configuration surface *)

Lemma hardwired_trace (t : list Event) :
  forallb is_hardwired t = true →
  (∀ n, n ∈ pool_widths t → n = 3)
  ∧ (∀ d, d ∈ pacing_delays t → Qeq d (1 # 2)).
Proof.
  rewrite forallb_forall. intros Hall.
  unfold pool_widths, pacing_delays. split.
  - intros n (ev & Hev & Hn)%list_elem_of_omap.
    apply list_elem_of_In, Hall in Hev. destruct ev; try done.
    injection Hn as <-. simpl in Hev. by apply Z.eqb_eq.
  - intros d (ev & Hev & Hd)%list_elem_of_omap.
    apply list_elem_of_In, Hall in Hev. destruct ev; try done.
    injection Hd as <-. simpl in Hev. by apply Qeq_bool_iff.
Qed.

(** C9 does not hold of the code.  Whatever [--delay] and [--max-workers]
    are, every pool of a run is three workers wide and every pause is half
    a second; so it is on the command line
    [--scrape --no-scrape-files --delay 2.0 --max-workers 8]. *)
Theorem main_ignores_delay_and_max_workers :
  (∀ (w : World) (args : Args) (mods fs : gmap string CacheFile)
     (old_manifest new_manifest : Manifest),
     let t := st_trace (main w args mods fs
                          old_manifest new_manifest).2 in
     (∀ n, n ∈ pool_widths t → n = 3)
     ∧ (∀ d, d ∈ pacing_delays t → Qeq d (1 # 2)))
  ∧ (let t := st_trace (main world_all_404
                          args_delay_2_workers_8 ∅ ∅
                          manifest_1_2 manifest_1_2_3).2 in
     delay args_delay_2_workers_8 = 2%Q
     ∧ max_workers args_delay_2_workers_8 = 8
     ∧ pool_widths t = [3; 3]
     ∧ pacing_delays t = [(1 # 2)%Q; (1 # 2)%Q; (1 # 2)%Q])
  ∧ (∀ old new : string,
       delay (default_args old new) = (1 # 2)%Q
       ∧ max_workers (default_args old new) = 3).
Proof.
  split_and!; [| | done].
  - intros w args mods fs old_manifest new_manifest t. apply hardwired_trace.
    subst t. unfold main.
    destruct (if scrape args && negb (no_cache args) then _ else _) as [cache|e];
      [|done].
    match goal with
    | |- forallb _ (st_trace (?m ?s0).2) = true =>
        assert (Hm : emits is_hardwired m);
        [| destruct (Hm s0) as (t & Ht & Hall); rewrite Ht; exact Hall ]
    end.
    apply emits_bind; [|intros enrichment; apply emits_ret].
    destruct (scrape args); [|apply emits_ret].
    by apply emits_scrape_block.
  - vm_compute. done.
Qed.

(** * Further properties *)

(** ** The differ *)
Module DifferMore.
Import PyDictFacts DifferFacts.

Lemma last_entry_elem_of (l : list FileEntry) (project_id : Z) (e : FileEntry) :
  last_entry project_id l = Some e → e ∈ l.
Proof.
  unfold last_entry. intros Hl.
  apply last_Some_elem_of in Hl. by apply list_elem_of_filter in Hl as [_ ?].
Qed.

Lemma last_entry_is_Some (l : list FileEntry) (project_id : Z) :
  is_Some (last_entry project_id l) ↔ project_id ∈ projectID <$> l.
Proof.
  rewrite <- not_eq_None_Some, last_entry_None.
  split; [apply dec_stable | by intros ? ?].
Qed.

Lemma fold_updates_omap (o n : PyDict.t FileEntry) (ks : list Z)
    (acc : list Update) :
  fold_left (updates_step o n) ks acc = acc ++ omap (update_for o n) ks.
Proof.
  revert acc. induction ks as [|k ks IH]; intros acc; csimpl.
  - by rewrite app_nil_r.
  - rewrite IH. unfold updates_step, update_for.
    destruct (PyDict.get k n), (PyDict.get k o); try done.
    destruct (negb _); [|done]. by rewrite <- app_assoc.
Qed.

Lemma update_for_projectID o n k u : update_for o n k = Some u → u_projectID u = k.
Proof.
  unfold update_for. destruct (PyDict.get k n), (PyDict.get k o); try done.
  destruct (negb _); [|done]. by intros [= <-].
Qed.

(** A pass over distinct keys that tags each output with its key gives
    distinct tags. *)
Lemma NoDup_omap_tag {A} (f : Z → option A) (tag : A → Z) (ks : list Z) :
  NoDup ks → (∀ k a, f k = Some a → tag a = k) → NoDup (tag <$> omap f ks).
Proof.
  intros Hnd Htag. induction Hnd as [|k ks Hk Hnd IH]; csimpl; [constructor|].
  destruct (f k) as [a|] eqn:Hf; csimpl; [|done].
  apply NoDup_cons. split; [|done].
  rewrite (Htag _ _ Hf). intros (a' & -> & (k' & Hk' & Hf')%list_elem_of_omap)%list_elem_of_fmap.
  rewrite (Htag _ _ Hf') in Hk. done.
Qed.

Lemma keys_files_by_project (m : Manifest) (p : Z) :
  p ∈ PyDict.keys (files_by_project m) ↔ p ∈ project_ids_of m.
Proof.
  rewrite <- mem_true_keys. unfold PyDict.mem.
  rewrite get_files_by_project. unfold project_ids_of.
  rewrite <- last_entry_is_Some.
  destruct (last_entry p (get_files m)); split; try done; by intros [? ?].
Qed.

Lemma elem_of_project_ids_entries_not_in (ma mb : Manifest) (p : Z) :
  p ∈ projectID <$> entries_not_in (files_by_project ma) (files_by_project mb) ↔
  p ∈ project_ids_of ma ∧ p ∉ project_ids_of mb.
Proof.
  unfold project_ids_of. rewrite list_elem_of_fmap. split.
  - intros (e & -> & [Ha Hb]%elem_of_entries_not_in). split.
    + apply last_entry_is_Some. by eexists.
    + by apply last_entry_None.
  - intros [Ha Hb]. apply last_entry_is_Some in Ha as [e He].
    exists e. pose proof (last_entry_projectID _ _ _ He) as Hp. split; [done|].
    apply elem_of_entries_not_in. rewrite Hp. split; [done|].
    by apply last_entry_None.
Qed.

Lemma elem_of_project_ids_updates (old new : Manifest) (p : Z) :
  p ∈ u_projectID <$> updates_of (compare_manifests old new) ↔
  ∃ o n, last_entry p (get_files old) = Some o
         ∧ last_entry p (get_files new) = Some n
         ∧ fileID o ≠ fileID n.
Proof.
  unfold updates_of, compare_manifests. simpl.
  rewrite list_elem_of_fmap. split.
  - intros (u & -> & Hu). apply elem_of_fold_updates in Hu
      as [Hu|(q & eo & en & _ & Ho & Hn & Hd & ->)].
    { by apply not_elem_of_nil in Hu. }
    rewrite get_files_by_project in Ho, Hn. by exists eo, en.
  - intros (o & n & Ho & Hn & Hd).
    exists (mkUpdate p (fileID o) (fileID n)). split; [done|].
    apply elem_of_fold_updates. right. exists p, o, n.
    rewrite !get_files_by_project. split_and!; try done.
    apply keys_files_by_project, last_entry_is_Some. by eexists.
Qed.

Lemma NoDup_project_ids_entries_not_in (ma mb : Manifest) :
  NoDup (projectID <$> entries_not_in (files_by_project ma) (files_by_project mb)).
Proof.
  apply NoDup_omap_tag; [apply NoDup_keys_of_items|].
  intros k e. destruct (PyDict.mem k _); [done|].
  rewrite get_files_by_project. apply last_entry_projectID.
Qed.

Lemma NoDup_project_ids_updates (old new : Manifest) :
  NoDup (u_projectID <$> updates_of (compare_manifests old new)).
Proof.
  unfold updates_of, compare_manifests. simpl. rewrite fold_updates_omap. simpl.
  apply NoDup_omap_tag; [apply NoDup_keys_of_items|].
  intros k u. apply update_for_projectID.
Qed.

Lemma additions_of_compare (old new : Manifest) :
  additions_of (compare_manifests old new)
  = entries_not_in (files_by_project new) (files_by_project old).
Proof. done. Qed.

Lemma removals_of_compare (old new : Manifest) :
  removals_of (compare_manifests old new)
  = entries_not_in (files_by_project old) (files_by_project new).
Proof. done. Qed.

Lemma elem_of_updates (old new : Manifest) (u : Update) :
  u ∈ updates_of (compare_manifests old new) ↔
  ∃ o n, last_entry (u_projectID u) (get_files old) = Some o
         ∧ last_entry (u_projectID u) (get_files new) = Some n
         ∧ fileID o ≠ fileID n
         ∧ old_fileID u = fileID o ∧ new_fileID u = fileID n.
Proof.
  unfold updates_of, compare_manifests. simpl.
  rewrite elem_of_fold_updates. split.
  - intros [Hnil | (p & eo & en & _ & Ho & Hn & Hd & ->)].
    { by apply not_elem_of_nil in Hnil. }
    rewrite get_files_by_project in Ho, Hn. by exists eo, en.
  - intros (o & n & Ho & Hn & Hd & Hof & Hnf). right.
    exists (u_projectID u), o, n.
    rewrite !get_files_by_project. split_and!; try done.
    + apply keys_files_by_project, last_entry_is_Some. by eexists.
    + destruct u. simpl in *. congruence.
Qed.

(** The last entry of a project, seen through the pairs of the list. *)
Lemma last_entry_file_key (l : list FileEntry) (p : Z) :
  file_key <$> last_entry p l
  = last (filter (fun k => k.1 = p) (file_key <$> l)).
Proof.
  unfold last_entry. induction l as [|x l IH] using rev_ind; [done|].
  rewrite fmap_app, !filter_app. simpl.
  destruct (decide (projectID x = p)) as [Hx|Hx].
  - rewrite (filter_cons_True _ x) by done.
    rewrite (filter_cons_True _ (file_key x)) by done.
    rewrite !filter_nil. by rewrite !last_snoc.
  - rewrite (filter_cons_False _ x) by done.
    rewrite (filter_cons_False _ (file_key x)) by done.
    rewrite !filter_nil, !app_nil_r. done.
Qed.

Lemma last_entry_same_keys (la lb : list FileEntry) (p : Z) :
  file_key <$> la = file_key <$> lb →
  file_key <$> last_entry p la = file_key <$> last_entry p lb.
Proof. intros H. by rewrite !last_entry_file_key, H. Qed.

Lemma project_ids_same_keys (la lb : list FileEntry) :
  file_key <$> la = file_key <$> lb → projectID <$> la = projectID <$> lb.
Proof.
  intros H. apply (f_equal (fmap fst)) in H.
  by rewrite <- !list_fmap_compose in H.
Qed.

(** With distinct projectIDs every entry is the last one of its project. *)
Lemma last_entry_NoDup (l : list FileEntry) (e : FileEntry) :
  NoDup (projectID <$> l) → e ∈ l → last_entry (projectID e) l = Some e.
Proof.
  induction l as [|x l IH]; intros Hnd He; [by apply not_elem_of_nil in He|].
  rewrite fmap_cons in Hnd. apply NoDup_cons in Hnd as [Hx Hnd].
  unfold last_entry. rewrite filter_cons. case_decide as Hp.
  - assert (filter (fun e0 => projectID e0 = projectID e) l = []) as ->.
    { apply last_None. apply last_entry_None. by rewrite <- Hp. }
    apply elem_of_cons in He as [->|He]; [done|].
    destruct Hx. rewrite Hp. apply list_elem_of_fmap. by exists e.
  - apply elem_of_cons in He as [->|He]; [done|]. by apply IH.
Qed.

End DifferMore.

Import DifferMore.

(** Refutes the membership of a number in a list of other numbers. *)
Ltac not_in_list :=
  let H := fresh in
  intros H;
  repeat (apply elem_of_cons in H as [H|H]; [discriminate H|]);
  by apply not_elem_of_nil in H.

(** X1.  No project is reported twice: over the three lists of a diff
    taken together, every projectID occurs at most once. *)
Theorem compare_manifests_reports_once (old_manifest new_manifest : Manifest) :
  let r := compare_manifests old_manifest new_manifest in
  NoDup ((projectID <$> additions_of r) ++ (projectID <$> removals_of r)
         ++ (u_projectID <$> updates_of r)).
Proof.
  intros r. subst r. rewrite !NoDup_app. split_and!.
  - apply NoDup_project_ids_entries_not_in.
  - intros p [Hn Ho]%elem_of_project_ids_entries_not_in.
    rewrite elem_of_app. intros [[Ho' _]%elem_of_project_ids_entries_not_in|Hu].
    + done.
    + apply elem_of_project_ids_updates in Hu as (o & n & Hlo & _).
      apply Ho. unfold project_ids_of. apply last_entry_is_Some. by eexists.
  - apply NoDup_project_ids_entries_not_in.
  - intros p [Ho Hn]%elem_of_project_ids_entries_not_in Hu.
    apply elem_of_project_ids_updates in Hu as (o & n & _ & Hln & _).
    apply Hn. unfold project_ids_of. apply last_entry_is_Some. by eexists.
  - apply NoDup_project_ids_updates.
Qed.

(** X2.  The diff is exhaustive: a projectID of either manifest that is in
    none of the three lists is in both manifests, and the last entries that
    carry it there have the same fileID. *)
Theorem compare_manifests_unreported_unchanged
    (old_manifest new_manifest : Manifest) (p : Z) :
  let r := compare_manifests old_manifest new_manifest in
  p ∈ project_ids_of old_manifest ++ project_ids_of new_manifest →
  p ∉ projectID <$> additions_of r →
  p ∉ projectID <$> removals_of r →
  p ∉ u_projectID <$> updates_of r →
  ∃ o n, last_entry p (get_files old_manifest) = Some o
         ∧ last_entry p (get_files new_manifest) = Some n
         ∧ fileID o = fileID n.
Proof.
  intros r Hp Ha Hr Hu. subst r.
  rewrite additions_of_compare in Ha. rewrite removals_of_compare in Hr.
  rewrite elem_of_project_ids_entries_not_in in Ha.
  rewrite elem_of_project_ids_entries_not_in in Hr.
  rewrite elem_of_project_ids_updates in Hu.
  assert (p ∈ project_ids_of old_manifest ∧ p ∈ project_ids_of new_manifest)
    as [Ho Hn].
  { apply elem_of_app in Hp as [Hp|Hp]; split; try done.
    - apply dec_stable. intros Hn. by apply Hr.
    - apply dec_stable. intros Ho. by apply Ha. }
  apply last_entry_is_Some in Ho as [o Ho].
  apply last_entry_is_Some in Hn as [n Hn].
  exists o, n. split_and!; [done..|].
  destruct (decide (fileID o = fileID n)) as [|Hd]; [done|].
  destruct Hu. by exists o, n.
Qed.

Lemma compare_manifests_unreported_unchanged_witness :
  ∃ o n, last_entry 2 (get_files manifest_1_2) = Some o
         ∧ last_entry 2 (get_files manifest_1_2_3) = Some n
         ∧ fileID o = fileID n.
Proof.
  apply (compare_manifests_unreported_unchanged manifest_1_2 manifest_1_2_3 2).
  - simpl. right. left.
  - vm_compute. not_in_list.
  - vm_compute. not_in_list.
  - vm_compute. not_in_list.
Defined.

(** X3.  Swapping the two manifests swaps the two fileIDs of every update:
    an update from file f to file g of a project is reported one way
    exactly when the update from g to f is reported the other way. *)
Theorem compare_manifests_updates_reverse (a b : Manifest) (u : Update) :
  u ∈ updates_of (compare_manifests a b) ↔
  mkUpdate (u_projectID u) (new_fileID u) (old_fileID u)
    ∈ updates_of (compare_manifests b a).
Proof.
  rewrite !elem_of_updates. simpl.
  split; intros (o & n & Ho & Hn & Hd & Hof & Hnf); exists n, o;
    split_and!; done.
Qed.

(** X4.  Only projectIDs and fileIDs are compared: two manifests whose
    [files] lists carry the same (projectID, fileID) pairs in the same
    order, whatever else their entries say, have an empty diff. *)
Theorem compare_manifests_same_pairs (a b : Manifest) :
  file_key <$> get_files a = file_key <$> get_files b →
  compare_manifests a b = ([], [], []).
Proof.
  intros Hkeys.
  assert (Hids : ∀ p, p ∈ project_ids_of a ↔ p ∈ project_ids_of b).
  { intros p. unfold project_ids_of. by rewrite (project_ids_same_keys _ _ Hkeys). }
  assert (Hnot : ∀ ma mb, (∀ p, p ∈ project_ids_of ma ↔ p ∈ project_ids_of mb) →
            entries_not_in (files_by_project ma) (files_by_project mb) = []).
  { intros ma mb H. apply elem_of_nil_inv. intros e [Ha Hb]%elem_of_entries_not_in.
    apply last_entry_None in Hb. apply Hb, H, last_entry_is_Some. by eexists. }
  unfold compare_manifests.
  rewrite (Hnot b a) by (intros p; by rewrite Hids).
  rewrite (Hnot a b) by done.
  do 2 f_equal. apply elem_of_nil_inv. intros u Hu.
  change (u ∈ updates_of (compare_manifests a b)) in Hu.
  apply elem_of_updates in Hu as (o & n & Ho & Hn & Hd & _).
  pose proof (last_entry_same_keys _ _ (u_projectID u) Hkeys) as Hlast.
  rewrite Ho, Hn in Hlast. simpl in Hlast. by injection Hlast.
Qed.

Lemma compare_manifests_same_pairs_witness :
  file_key <$> get_files manifest_1_2 = file_key <$> get_files manifest_1_2_required
  ∧ compare_manifests manifest_1_2 manifest_1_2_required = ([], [], []).
Proof.
  assert (H : file_key <$> get_files manifest_1_2
              = file_key <$> get_files manifest_1_2_required) by reflexivity.
  split; [exact H | exact (compare_manifests_same_pairs _ _ H)].
Defined.

(** X5.  When neither manifest repeats a projectID, the three lists keep
    the order of the manifests: additions are the entries of the new
    manifest whose project the old one lacks, removals the entries of the
    old manifest whose project the new one lacks, and updates follow the
    old manifest. *)
Theorem compare_manifests_keeps_order (old_manifest new_manifest : Manifest) :
  NoDup (project_ids_of old_manifest) →
  NoDup (project_ids_of new_manifest) →
  let r := compare_manifests old_manifest new_manifest in
  additions_of r
    = filter (fun e => projectID e ∉ project_ids_of old_manifest)
             (get_files new_manifest)
  ∧ removals_of r
    = filter (fun e => projectID e ∉ project_ids_of new_manifest)
             (get_files old_manifest)
  ∧ updates_of r
    = omap (fun o =>
              n ← last_entry (projectID o) (get_files new_manifest);
              if decide (fileID o = fileID n) then None
              else Some (mkUpdate (projectID o) (fileID o) (fileID n)))
           (get_files old_manifest).
Proof.
  intros Hold Hnew r. subst r.
  assert (Hnot : ∀ ma mb, NoDup (project_ids_of ma) →
            entries_not_in (files_by_project ma) (files_by_project mb)
            = filter (fun e => projectID e ∉ project_ids_of mb) (get_files ma)).
  { intros ma mb Hnd. unfold entries_not_in.
    assert (PyDict.keys (files_by_project ma) = projectID <$> get_files ma) as ->.
    { unfold files_by_project. rewrite of_items_NoDup by done.
      unfold PyDict.keys. by rewrite <- list_fmap_compose. }
    assert (Hget : ∀ e, e ∈ get_files ma →
              PyDict.get (projectID e) (files_by_project ma) = Some e).
    { intros e He. rewrite get_files_by_project. by apply last_entry_NoDup. }
    revert Hget. generalize (files_by_project ma).
    induction (get_files ma) as [|e l IH]; intros d Hget; [done|].
    rewrite fmap_cons. csimpl. rewrite filter_cons.
    rewrite (Hget e) by left.
    assert (Hrest : ∀ e0, e0 ∈ l → PyDict.get (projectID e0) d = Some e0).
    { intros e0 He0. apply Hget. by right. }
    destruct (PyDict.mem (projectID e) (files_by_project mb)) eqn:Hmem.
    - apply mem_true_keys, keys_files_by_project in Hmem.
      rewrite decide_False by (by intros Hc). by apply IH.
    - apply mem_false_get in Hmem. rewrite get_files_by_project in Hmem.
      apply last_entry_None in Hmem. rewrite decide_True by done.
      csimpl. f_equal. by apply IH. }
  split_and!.
  - rewrite additions_of_compare. by apply Hnot.
  - rewrite removals_of_compare. by apply Hnot.
  - unfold updates_of, compare_manifests. simpl. rewrite fold_updates_omap. simpl.
    assert (PyDict.keys (files_by_project old_manifest)
            = projectID <$> get_files old_manifest) as ->.
    { unfold files_by_project. rewrite of_items_NoDup by done.
      unfold PyDict.keys. by rewrite <- list_fmap_compose. }
    assert (Hget : ∀ e, e ∈ get_files old_manifest →
              PyDict.get (projectID e) (files_by_project old_manifest) = Some e).
    { intros e He. rewrite get_files_by_project. by apply last_entry_NoDup. }
    revert Hget. generalize (files_by_project old_manifest).
    induction (get_files old_manifest) as [|e l IH]; intros d Hget; [done|].
    rewrite fmap_cons. csimpl.
    assert (Hrest : ∀ e0, e0 ∈ l → PyDict.get (projectID e0) d = Some e0).
    { intros e0 He0. apply Hget. by right. }
    rewrite (IH d Hrest). unfold update_for at 1.
    rewrite (Hget e) by left. rewrite get_files_by_project.
    destruct (last_entry (projectID e) (get_files new_manifest)) as [n|]; csimpl;
      [|done].
    destruct (Z.eqb_spec (fileID e) (fileID n)); case_decide; done.
Qed.

Lemma compare_manifests_keeps_order_witness :
  additions_of (compare_manifests manifest_1_2 manifest_2_3)
  = filter (fun e => projectID e ∉ project_ids_of manifest_1_2)
           (get_files manifest_2_3).
Proof.
  assert (H1 : NoDup (project_ids_of manifest_1_2)).
  { apply NoDup_cons. split; [not_in_list|]. apply NoDup_singleton. }
  assert (H2 : NoDup (project_ids_of manifest_2_3)).
  { apply NoDup_cons. split; [not_in_list|]. apply NoDup_singleton. }
  exact (proj1 (compare_manifests_keeps_order manifest_1_2 manifest_2_3 H1 H2)).
Defined.

(** ** The cache *)
Module CacheMore.
Import FetcherFacts.

Lemma underscore_free_cons (c : Ascii.ascii) (s : string) :
  c ≠ "_"%char → underscore_free s → underscore_free (String c s).
Proof.
  intros Hc Hs [|a0 a] b; simpl; intros [= ? ?]; [done|]. by eapply Hs.
Qed.

Lemma underscore_free_empty : underscore_free "".
Proof. by intros [|a0 a] b. Qed.

Lemma pretty_N_char_not_underscore (x : N) : pretty_N_char x ≠ "_"%char.
Proof. unfold pretty_N_char. by repeat case_match. Qed.

Lemma underscore_free_pretty_N_go (x : N) (s : string) :
  underscore_free s → underscore_free (pretty_N_go x s).
Proof.
  revert s. induction (N.lt_wf_0 x) as [x _ IH]; intros s Hs.
  assert (x = 0 ∨ 0 < x)%N as [->|Hx] by lia.
  - by rewrite pretty_N_go_0.
  - rewrite pretty_N_go_step by done. apply IH.
    + by apply N.div_lt.
    + apply underscore_free_cons; [apply pretty_N_char_not_underscore | done].
Qed.

Lemma underscore_free_pretty_N (x : N) : underscore_free (pretty x).
Proof.
  unfold pretty, pretty_N. case_decide.
  - apply underscore_free_cons; [done | apply underscore_free_empty].
  - apply underscore_free_pretty_N_go, underscore_free_empty.
Qed.

(** The decimal form of an integer has no underscore. *)
Lemma underscore_free_pretty_Z (z : Z) : underscore_free (pretty z).
Proof.
  destruct z as [|p|p]; unfold pretty, pretty_Z.
  - apply underscore_free_cons; [done | apply underscore_free_empty].
  - apply (underscore_free_pretty_N (Npos p)).
  - apply underscore_free_cons; [done|]. apply (underscore_free_pretty_N (Npos p)).
Qed.

Lemma string_app_nil_l (s : string) : "" +:+ s = s.
Proof. done. Qed.

Lemma string_app_cons (c : ascii) (s t : string) :
  String c s +:+ t = String c (s +:+ t).
Proof. done. Qed.

(** Two texts cut at their first underscore agree part by part. *)
Lemma underscore_split (s1 s2 t1 t2 : string) :
  underscore_free s1 → underscore_free s2 →
  s1 +:+ "_" +:+ t1 = s2 +:+ "_" +:+ t2 → s1 = s2 ∧ t1 = t2.
Proof.
  revert s2. induction s1 as [|c s1 IH]; intros [|d s2] H1 H2;
    rewrite ?string_app_cons, ?string_app_nil_l.
  - by intros [= ->].
  - intros [= <- _]. by destruct (H2 "" s2).
  - intros [= -> _]. by destruct (H1 "" s1).
  - intros [= -> H]. apply IH in H as [-> ->]; [done| |].
    + intros a b ->. by apply (H1 (String d a) b).
    + intros a b ->. by apply (H2 (String d a) b).
Qed.

Lemma file_cache_name_inj (p f p' f' : Z) :
  file_cache_name p f = file_cache_name p' f' → p = p' ∧ f = f'.
Proof.
  unfold file_cache_name.
  intros [Hp Hf]%underscore_split; try apply underscore_free_pretty_Z.
  apply string_app_inj_r in Hf. split; by apply pretty_Z_inj.
Qed.

End CacheMore.

Import FetcherFacts CacheMore.

(** X6.  Cache keys never share a file: distinct projects have distinct
    file names in [mods], and distinct (project, file) pairs have distinct
    file names in [files]. *)
Theorem cache_file_names_distinct :
  (∀ p q : Z, mod_cache_name p = mod_cache_name q → p = q)
  ∧ (∀ p f p' f' : Z,
       file_cache_name p f = file_cache_name p' f' → p = p' ∧ f = f').
Proof. split; [apply mod_cache_name_inj | apply file_cache_name_inj]. Qed.

(** X7.  A record written to the cache is read back unchanged and as a
    hit, whatever the file held before.  A write, whether it succeeds or
    fails, changes no counter, prints nothing but its own error line, and
    leaves the answers for every other key of either namespace as they
    were.  A write that fails is reported on stderr and leaves, for its own
    key, the old file only when [open] itself failed: otherwise the file
    has been truncated and holds what the interrupted write left, so that
    the old record can be lost.  This holds for both namespaces. *)
Theorem cache_write_then_read (w : World) (c : CurseForgeCache)
    (project_id file_id : Z) (v : Json) :
  let c1 := (set_mod_info w project_id v c).1 in
  let c2 := (set_file_info w project_id file_id v c).1 in
  (mod_write_ok w project_id = true →
     get_mod_info project_id c1 = (Ok v, mod_hit c1, [])
     ∧ (set_mod_info w project_id v c).2 = [])
  ∧ (file_write_ok w (project_id, file_id) = true →
     get_file_info project_id file_id c2 = (Ok v, file_hit c2, [])
     ∧ (set_file_info w project_id file_id v c).2 = [])
  ∧ ((∀ q, q ≠ project_id → (get_mod_info q c1).1.1 = (get_mod_info q c).1.1)
     ∧ (∀ q f, (get_file_info q f c1).1.1 = (get_file_info q f c).1.1)
     ∧ get_stats c1 = get_stats c)
  ∧ ((∀ q f, (q, f) ≠ (project_id, file_id) →
             (get_file_info q f c2).1.1 = (get_file_info q f c).1.1)
     ∧ (∀ q, (get_mod_info q c2).1.1 = (get_mod_info q c).1.1)
     ∧ get_stats c2 = get_stats c)
  ∧ (mod_write_ok w project_id = false →
     (set_mod_info w project_id v c).2 = [ErrWritingModCache project_id]
     ∧ mod_files c1 !! mod_cache_name project_id
       = match mod_write_leaves w project_id with
         | Some remains => Some remains
         | None => mod_files c !! mod_cache_name project_id
         end)
  ∧ (file_write_ok w (project_id, file_id) = false →
     (set_file_info w project_id file_id v c).2
       = [ErrWritingFileCache project_id file_id]
     ∧ file_files c2 !! file_cache_name project_id file_id
       = match file_write_leaves w (project_id, file_id) with
         | Some remains => Some remains
         | None => file_files c !! file_cache_name project_id file_id
         end).
Proof.
  intros c1 c2. subst c1 c2. unfold set_mod_info, set_file_info. split_and!.
  - intros ->. simpl. unfold get_mod_info. simpl. by rewrite lookup_insert_eq.
  - intros ->. simpl. unfold get_file_info. simpl. by rewrite lookup_insert_eq.
  - intros q Hq. unfold get_mod_info.
    destruct (mod_write_ok w project_id);
      [|destruct (mod_write_leaves w project_id)]; simpl;
      rewrite ?lookup_insert_ne
        by (intros Hn; by apply mod_cache_name_inj in Hn);
      by destruct (mod_files c !! mod_cache_name q) as [[?| | |]|].
  - intros q f. unfold get_file_info.
    destruct (mod_write_ok w project_id);
      [|destruct (mod_write_leaves w project_id)]; simpl;
      by destruct (file_files c !! file_cache_name q f) as [[?| | |]|].
  - by destruct (mod_write_ok w project_id);
      [|destruct (mod_write_leaves w project_id)].
  - intros q f Hq. unfold get_file_info.
    destruct (file_write_ok w (project_id, file_id));
      [|destruct (file_write_leaves w (project_id, file_id))]; simpl;
      rewrite ?lookup_insert_ne
        by (intros Hn; apply file_cache_name_inj in Hn as [-> ->]; done);
      by destruct (file_files c !! file_cache_name q f) as [[?| | |]|].
  - intros q. unfold get_mod_info.
    destruct (file_write_ok w (project_id, file_id));
      [|destruct (file_write_leaves w (project_id, file_id))]; simpl;
      by destruct (mod_files c !! mod_cache_name q) as [[?| | |]|].
  - by destruct (file_write_ok w (project_id, file_id));
      [|destruct (file_write_leaves w (project_id, file_id))].
  - intros ->. destruct (mod_write_leaves w project_id); simpl; [|done].
    by rewrite lookup_insert_eq.
  - intros ->. destruct (file_write_leaves w (project_id, file_id)); simpl; [|done].
    by rewrite lookup_insert_eq.
Qed.

Lemma cache_write_then_read_witness :
  let c := new_cache ".cursecache"
             {[ mod_cache_name 7 := FileJson (mod_record 7 "Seven" "") ]} ∅ in
  (get_mod_info 7 (set_mod_info world_all_404 7 (mod_placeholder 7) c).1).1.1
  = Ok (mod_placeholder 7)
  ∧ mod_files (set_mod_info world_disk_full 7 (mod_placeholder 7) c).1
      !! mod_cache_name 7 = Some FileCorrupt
  ∧ (get_mod_info 7 (set_mod_info world_disk_full 7 (mod_placeholder 7) c).1).1.1
    = Ok JNull.
Proof.
  intros c.
  destruct (cache_write_then_read world_all_404 c 7 9 (mod_placeholder 7))
    as (Hread & _).
  destruct (cache_write_then_read world_disk_full c 7 9 (mod_placeholder 7))
    as (_ & _ & _ & _ & Hfails & _).
  destruct (Hread eq_refl) as [Hget _].
  destruct (Hfails eq_refl) as [_ Hleft].
  cbn [world_disk_full mod_write_leaves] in Hleft.
  split_and!.
  - by rewrite Hget.
  - exact Hleft.
  - unfold get_mod_info. by rewrite Hleft.
Defined.

(** X8.  A cache lookup never touches a file or the counters of the other
    namespace, and never lowers a counter.  It adds one to the hits or to
    the misses of its namespace, except on a file that opens and that
    [json.load] rejects with [JSONDecodeError], which it counts both as a
    hit and as a miss.  A lookup that returns a value has counted a hit
    and no miss; a lookup that raises has counted a hit and no miss, and
    its file is one that [json.load] rejects with another exception. *)
Theorem cache_lookup_accounting (c : CurseForgeCache) (project_id file_id : Z) :
  (let '(r, c', _) := get_mod_info project_id c in
   mod_files c' = mod_files c ∧ file_files c' = file_files c
   ∧ file_hits c' = file_hits c ∧ file_misses c' = file_misses c
   ∧ (mod_hits c ≤ mod_hits c')%Z ∧ (mod_misses c ≤ mod_misses c')%Z
   ∧ mod_hits c' + mod_misses c' = mod_hits c + mod_misses c
       + lookups_counted (mod_files c !! mod_cache_name project_id)
   ∧ (∀ v, r = Ok v → v ≠ JNull →
           mod_hits c' = mod_hits c + 1 ∧ mod_misses c' = mod_misses c)
   ∧ (∀ e, r = Raise e →
           mod_hits c' = mod_hits c + 1 ∧ mod_misses c' = mod_misses c
           ∧ mod_files c !! mod_cache_name project_id = Some FileUndecodable))
  ∧ (let '(r, c', _) := get_file_info project_id file_id c in
     mod_files c' = mod_files c ∧ file_files c' = file_files c
     ∧ mod_hits c' = mod_hits c ∧ mod_misses c' = mod_misses c
     ∧ (file_hits c ≤ file_hits c')%Z ∧ (file_misses c ≤ file_misses c')%Z
     ∧ file_hits c' + file_misses c' = file_hits c + file_misses c
         + lookups_counted (file_files c !! file_cache_name project_id file_id)
     ∧ (∀ v, r = Ok v → v ≠ JNull →
             file_hits c' = file_hits c + 1 ∧ file_misses c' = file_misses c)
     ∧ (∀ e, r = Raise e →
             file_hits c' = file_hits c + 1 ∧ file_misses c' = file_misses c
             ∧ file_files c !! file_cache_name project_id file_id
               = Some FileUndecodable)).
Proof.
  split.
  - unfold get_mod_info.
    destruct (mod_files c !! mod_cache_name project_id) as [[v| | |]|]; simpl;
      split_and!; try done; try lia; by intros ? [= <-].
  - unfold get_file_info.
    destruct (file_files c !! file_cache_name project_id file_id) as [[v| | |]|];
      simpl; split_and!; try done; try lia; by intros ? [= <-].
Qed.

(** ** What an action does to the cache object *)
Module FrameFacts.
Import FetcherFacts.

Section Preserves.
Variable R : option CurseForgeCache → option CurseForgeCache → Prop.
Hypothesis R_refl : ∀ a, R a a.
Hypothesis R_trans : ∀ a b c, R a b → R b c → R a c.

Lemma preserves_ret {A} (a : A) : preserves R (mret a).
Proof. intros s. apply R_refl. Qed.

Lemma preserves_raise {A} (e : exn) : preserves R (raise e : M A).
Proof. intros s. apply R_refl. Qed.

Lemma preserves_emit ev : preserves R (emit ev).
Proof. intros s. apply R_refl. Qed.

Lemma preserves_stderr lines : preserves R (stderr lines).
Proof. intros s. apply R_refl. Qed.

Lemma preserves_bind {A B} (m : M A) (f : A → M B) :
  preserves R m → (∀ a, preserves R (f a)) → preserves R (m ≫= f).
Proof.
  intros Hm Hf s. rewrite bind_run. specialize (Hm s).
  destruct (m s) as [[a|e] s1]; simpl in *; [|done].
  eapply R_trans; [done | apply Hf].
Qed.

Lemma preserves_submit (task : M Json) : preserves R task → preserves R (submit task).
Proof.
  intros Ht s. unfold submit. specialize (Ht s). by destruct (task s) as [r s'].
Qed.

Lemma preserves_for_urls body urls :
  (∀ url, preserves R (body url)) → preserves R (for_urls body urls).
Proof.
  intros Hbody. induction urls as [|url rest IH]; simpl; [apply preserves_ret|].
  apply preserves_bind; [done|]. intros [v|]; [apply preserves_ret | done].
Qed.

Variable w : World.
Hypothesis R_get_mod : ∀ pid, preserves R (cache_get_mod_info pid).
Hypothesis R_set_mod :
  ∀ pid v, is_dict v = true → preserves R (cache_set_mod_info w pid v).

Lemma preserves_scrape_mod_info pid : preserves R (scrape_mod_info w pid).
Proof.
  unfold scrape_mod_info. apply preserves_bind; [done|]. intros cached.
  destruct (truthy cached); [apply preserves_ret|].
  apply preserves_bind.
  { apply preserves_for_urls. intros url. unfold try_mod_url.
    apply preserves_bind; [apply preserves_emit|]. intros _.
    destruct (http_get w url) as [e|status text].
    - destruct (caught_by_fetcher e); [|apply preserves_raise].
      apply preserves_bind; [apply preserves_stderr | intros _; apply preserves_ret].
    - destruct (negb _); [apply preserves_ret|].
      apply preserves_bind; [by apply R_set_mod | intros _; apply preserves_ret]. }
  intros [v|]; [apply preserves_ret|].
  apply preserves_bind; [apply preserves_stderr|]. intros _.
  apply preserves_bind; [by apply R_set_mod | intros _; apply preserves_ret].
Qed.

Lemma preserves_scrape_all_mod_info manifest :
  preserves R (scrape_all_mod_info w manifest).
Proof.
  intros s. unfold scrape_all_mod_info. apply (preserves_bind).
  { destruct (st_cache s); [|apply preserves_ret].
    generalize (∅ : gmap Z Json,
                elements (list_to_set (projectID <$> get_files manifest) : gset Z)).
    induction (elements _) as [|pid rest IH]; intros acc; simpl;
      [apply preserves_ret|].
    apply preserves_bind; [done|]. intros cached.
    destruct (truthy cached); apply IH. }
  intros [m [|pid ids]]; [apply preserves_ret|].
  apply preserves_bind; [apply preserves_emit|]. intros _.
  apply preserves_bind.
  { induction (pid :: ids) as [|q rest IH]; simpl; [apply preserves_ret|].
    apply preserves_bind; [apply preserves_emit|]. intros _.
    apply preserves_bind; [apply preserves_submit, preserves_scrape_mod_info|].
    intros fut. apply preserves_bind; [done | intros futs; apply preserves_ret]. }
  intros futs. revert m.
  induction futs as [|[[v|e] q] rest IH]; intros m; simpl.
  - apply preserves_ret.
  - apply preserves_bind; [apply preserves_emit | intros _; apply IH].
  - apply preserves_bind; [apply preserves_stderr | intros _; apply IH].
Qed.

End Preserves.

Section PreservesFile.
Variable R : option CurseForgeCache → option CurseForgeCache → Prop.
Hypothesis R_refl : ∀ a, R a a.
Hypothesis R_trans : ∀ a b c, R a b → R b c → R a c.
Hypothesis R_get_file : ∀ pid fid, preserves R (cache_get_file_info pid fid).
Hypothesis R_set_file : ∀ w pid fid v, preserves R (cache_set_file_info w pid fid v).

Lemma preserves_scrape_file_info w pid fid : preserves R (scrape_file_info w pid fid).
Proof.
  unfold scrape_file_info. apply preserves_bind; [done..|]. intros cached.
  destruct (truthy cached); [by apply preserves_ret|].
  apply preserves_bind; [done| |].
  { apply preserves_for_urls; [done..|]. intros url. unfold try_file_url.
    apply preserves_bind; [done | by apply preserves_emit|]. intros _.
    destruct (http_get w url) as [e|status text].
    - destruct (caught_by_fetcher e); [|by apply preserves_raise].
      apply preserves_bind;
        [done | by apply preserves_stderr | intros _; by apply preserves_ret].
    - destruct (negb _); [by apply preserves_ret|].
      apply preserves_bind; [done | done | intros _; by apply preserves_ret]. }
  intros [v|]; [by apply preserves_ret|].
  apply preserves_bind; [done | by apply preserves_stderr|]. intros _.
  apply preserves_bind; [done | done | intros _; by apply preserves_ret].
Qed.

Lemma preserves_scrape_all_file_info w manifest :
  preserves R (scrape_all_file_info w manifest).
Proof.
  intros s. unfold scrape_all_file_info. apply (preserves_bind R R_trans).
  { destruct (st_cache s); [|by apply preserves_ret].
    generalize (∅ : gmap (Z * Z) Json,
                elements (list_to_set ((fun item => (projectID item, fileID item))
                                         <$> get_files manifest) : gset (Z * Z))).
    induction (elements _) as [|key rest IH]; intros acc; simpl;
      [by apply preserves_ret|].
    apply preserves_bind; [done | done|]. intros cached.
    destruct (truthy cached); apply IH. }
  intros [m [|key fs]]; [by apply preserves_ret|].
  apply preserves_bind; [done | by apply preserves_emit|]. intros _.
  apply preserves_bind; [done| |].
  { induction (key :: fs) as [|[q f] rest IH]; simpl; [by apply preserves_ret|].
    apply preserves_bind; [done | by apply preserves_emit|]. intros _.
    apply preserves_bind;
      [done | by apply preserves_submit, preserves_scrape_file_info|].
    intros fut.
    apply preserves_bind; [done | done | intros futs; by apply preserves_ret]. }
  intros futs. revert m.
  induction futs as [|[[v|e] [q f]] rest IH]; intros m; simpl.
  - by apply preserves_ret.
  - apply preserves_bind; [done | by apply preserves_emit | intros _; apply IH].
  - apply preserves_bind; [done | by apply preserves_stderr | intros _; apply IH].
Qed.

End PreservesFile.

Lemma mod_side_only_refl a : mod_side_only a a.
Proof. destruct a; simpl; [|done]. split_and!; done || lia. Qed.

Lemma mod_side_only_trans a b c :
  mod_side_only a b → mod_side_only b c → mod_side_only a c.
Proof.
  destruct a, b, c; simpl; try done.
  intros (? & ? & ? & ? & ? & ?) (? & ? & ? & ? & ? & ?).
  split_and!; try congruence; lia.
Qed.

Lemma file_side_only_refl a : file_side_only a a.
Proof. destruct a; simpl; [|done]. split_and!; done || lia. Qed.

Lemma file_side_only_trans a b c :
  file_side_only a b → file_side_only b c → file_side_only a c.
Proof.
  destruct a, b, c; simpl; try done.
  intros (? & ? & ? & ? & ? & ?) (? & ? & ? & ? & ? & ?).
  split_and!; try congruence; lia.
Qed.

Lemma mod_side_only_get pid : preserves mod_side_only (cache_get_mod_info pid).
Proof.
  intros [[c|] tr]; unfold cache_get_mod_info, get_mod_info; simpl; [|done].
  destruct (mod_files c !! mod_cache_name pid) as [[v| | |]|]; simpl;
    split_and!; done || lia.
Qed.

Lemma mod_side_only_set w pid v : preserves mod_side_only (cache_set_mod_info w pid v).
Proof.
  intros [[c|] tr]; unfold cache_set_mod_info, set_mod_info; simpl; [|done].
  destruct (mod_write_ok w pid); [|destruct (mod_write_leaves w pid)]; simpl;
    split_and!; done || lia.
Qed.

Lemma file_side_only_get pid fid :
  preserves file_side_only (cache_get_file_info pid fid).
Proof.
  intros [[c|] tr]; unfold cache_get_file_info, get_file_info; simpl; [|done].
  destruct (file_files c !! file_cache_name pid fid) as [[v| | |]|]; simpl;
    split_and!; done || lia.
Qed.

Lemma file_side_only_set w pid fid v :
  preserves file_side_only (cache_set_file_info w pid fid v).
Proof.
  intros [[c|] tr]; unfold cache_set_file_info, set_file_info; simpl; [|done].
  destruct (file_write_ok w (pid, fid)); [|destruct (file_write_leaves w (pid, fid))];
    simpl; split_and!; done || lia.
Qed.

End FrameFacts.

Import FrameFacts.

(** X9.  Each orchestrator keeps to its own namespace.  A run of
    [scrape_all_mod_info] leaves the directory [files] and the two file
    counters as they were and never lowers the two project counters; a run
    of [scrape_all_file_info] leaves the directory [mods] and the project
    counters as they were and never lowers the file counters.  Neither
    creates or drops the cache object. *)
Theorem orchestrators_keep_to_their_namespace
    (w : World) (manifest : Manifest) (s : St) :
  mod_side_only (st_cache s) (st_cache (scrape_all_mod_info w manifest s).2)
  ∧ file_side_only (st_cache s) (st_cache (scrape_all_file_info w manifest s).2).
Proof.
  split.
  - apply (preserves_scrape_all_mod_info mod_side_only
             mod_side_only_refl mod_side_only_trans w
             mod_side_only_get (fun pid v _ => mod_side_only_set w pid v)).
  - apply (preserves_scrape_all_file_info file_side_only
             file_side_only_refl file_side_only_trans
             file_side_only_get file_side_only_set).
Qed.

(** ** The requests of a fetch *)
Module RequestFacts.
Import TraceFacts FetcherFacts FileFetcherFacts.

Lemma requested_urls_app t1 t2 :
  requested_urls (t1 ++ t2) = requested_urls t1 ++ requested_urls t2.
Proof. apply omap_app. Qed.

Lemma requested_urls_get url t :
  requested_urls (EvGet url :: t) = url :: requested_urls t.
Proof. done. Qed.

Lemma requested_urls_stderr t :
  forallb is_stderr t = true → requested_urls t = [].
Proof.
  induction t as [|ev t IH]; [done|]. simpl. intros [Hev Ht]%andb_true_iff.
  unfold requested_urls in *. csimpl. rewrite (IH Ht). by destruct ev.
Qed.

Lemma pool_widths_stderr t :
  forallb is_stderr t = true → pool_widths t = [].
Proof.
  induction t as [|ev t IH]; [done|]. simpl. intros [Hev Ht]%andb_true_iff.
  unfold pool_widths in *. csimpl. rewrite (IH Ht). by destruct ev.
Qed.

Lemma urls_tried_prefix w urls : urls_tried w urls `prefix_of` urls.
Proof.
  induction urls as [|url rest IH]; simpl; [done|].
  destruct (url_fails w url).
  - by apply prefix_cons.
  - apply prefix_cons, prefix_nil.
Qed.

(** The URL loop, for any body that requests its URL once and goes on
    exactly after a failure. *)
Section Loop.
Variable w : World.
Variable body : string → M (option Json).
Hypothesis body_trace : ∀ url s,
  ∃ t, st_trace (body url s).2 = st_trace s ++ EvGet url :: t
       ∧ forallb is_stderr t = true.
Hypothesis body_result : ∀ url s,
  (body url s).1 = Ok None ↔ url_fails w url = true.

Lemma for_urls_requests urls s :
  ∃ t, st_trace (for_urls body urls s).2 = st_trace s ++ t
       ∧ requested_urls t = urls_tried w urls.
Proof.
  revert s. induction urls as [|url rest IH]; intros s; simpl.
  - exists []. by rewrite app_nil_r.
  - rewrite bind_run.
    destruct (body_trace url s) as (t & Ht & Hq).
    pose proof (body_result url s) as Hres.
    destruct (body url s) as [[[v|]|e] s1]; simpl in *.
    + exists (EvGet url :: t). split; [done|].
      rewrite requested_urls_get, (requested_urls_stderr t Hq).
      destruct (url_fails w url); [|done].
      destruct Hres as [_ Hres]. by specialize (Hres eq_refl).
    + destruct (IH s1) as (t' & Ht' & Hreq).
      exists ((EvGet url :: t) ++ t'). split.
      * by rewrite Ht', Ht, <- app_assoc.
      * rewrite requested_urls_app, Hreq.
        rewrite requested_urls_get, (requested_urls_stderr t Hq).
        destruct Hres as [Hres _]. by rewrite (Hres eq_refl).
    + exists (EvGet url :: t). split; [done|].
      rewrite requested_urls_get, (requested_urls_stderr t Hq).
      destruct (url_fails w url); [|done].
      destruct Hres as [_ Hres]. by specialize (Hres eq_refl).
Qed.

End Loop.

Lemma try_mod_url_trace w pid url s :
  ∃ t, st_trace (try_mod_url w pid url s).2 = st_trace s ++ EvGet url :: t
       ∧ forallb is_stderr t = true.
Proof.
  unfold try_mod_url. rewrite bind_run. cbn [emit].
  set (s0 := mkSt (st_cache s) (st_trace s ++ [EvGet url])).
  assert (Hrest : ∀ m : M (option Json), emits is_stderr m →
            ∃ t, st_trace (m s0).2 = st_trace s ++ EvGet url :: t
                 ∧ forallb is_stderr t = true).
  { intros m Hm. destruct (Hm s0) as (t & Ht & Hq). exists t.
    rewrite Ht. simpl. by rewrite <- app_assoc. }
  apply Hrest. destruct (http_get w url) as [e|status text].
  - destruct (caught_by_fetcher e); [|apply emits_raise].
    apply emits_bind; [by apply emits_stderr | intros _; apply emits_ret].
  - destruct (negb _); [apply emits_ret|].
    apply emits_bind; [by apply emits_cache_set_mod_info | intros _; apply emits_ret].
Qed.

Lemma try_mod_url_result w pid url s :
  (try_mod_url w pid url s).1 = Ok None ↔ url_fails w url = true.
Proof.
  destruct (try_mod_url_run w pid url s) as (s' & H). unfold url_fails.
  destruct (http_get w url) as [e|status text].
  - destruct H as [-> _]. simpl. by destruct (caught_by_fetcher e).
  - destruct (negb _); [by destruct H as [-> _]|].
    destruct H as (-> & _). done.
Qed.

Lemma try_file_url_trace w pid fid url s :
  ∃ t, st_trace (try_file_url w pid fid url s).2 = st_trace s ++ EvGet url :: t
       ∧ forallb is_stderr t = true.
Proof.
  unfold try_file_url. rewrite bind_run. cbn [emit].
  set (s0 := mkSt (st_cache s) (st_trace s ++ [EvGet url])).
  assert (Hrest : ∀ m : M (option Json), emits is_stderr m →
            ∃ t, st_trace (m s0).2 = st_trace s ++ EvGet url :: t
                 ∧ forallb is_stderr t = true).
  { intros m Hm. destruct (Hm s0) as (t & Ht & Hq). exists t.
    rewrite Ht. simpl. by rewrite <- app_assoc. }
  apply Hrest. destruct (http_get w url) as [e|status text].
  - destruct (caught_by_fetcher e); [|apply emits_raise].
    apply emits_bind; [by apply emits_stderr | intros _; apply emits_ret].
  - destruct (negb _); [apply emits_ret|].
    apply emits_bind; [by apply emits_cache_set_file_info | intros _; apply emits_ret].
Qed.

Lemma try_file_url_result w pid fid url s :
  (try_file_url w pid fid url s).1 = Ok None ↔ url_fails w url = true.
Proof.
  destruct (try_file_url_run w pid fid url s) as (s' & ->). unfold url_fails. simpl.
  destruct (http_get w url) as [e|status text].
  - by destruct (caught_by_fetcher e).
  - by destruct (negb _).
Qed.

(** The requests of [scrape_mod_info]. *)
Lemma scrape_mod_info_requests w pid s :
  ∃ t, st_trace (scrape_mod_info w pid s).2 = st_trace s ++ t
       ∧ requested_urls t = mod_requests w (st_cache s) pid.
Proof.
  unfold scrape_mod_info, mod_requests. rewrite bind_run.
  destruct (emits_cache_get_mod_info is_stderr (fun _ => eq_refl) pid s)
    as (t1 & Ht1 & Hq1).
  destruct (cache_get_mod_info_run pid s) as (s1 & Hrun & _).
  rewrite Hrun in Ht1 |- *. cbn [snd] in Ht1. unfold mod_lookup.
  destruct (mod_lookup_raises (st_cache s) pid).
  { exists t1. split; [done | by apply requested_urls_stderr]. }
  destruct (truthy (cached_mod (st_cache s) pid)).
  { exists t1. split; [done | by apply requested_urls_stderr]. }
  rewrite bind_run.
  destruct (for_urls_requests w (try_mod_url w pid)
              (try_mod_url_trace w pid) (try_mod_url_result w pid)
              (mod_urls pid) s1) as (t2 & Ht2 & Hreq2).
  destruct (for_urls (try_mod_url w pid) (mod_urls pid) s1) as [[[v|]|e] s2];
    cbn [snd] in Ht2.
  - exists (t1 ++ t2). split; [simpl; by rewrite Ht2, Ht1, app_assoc|].
    by rewrite requested_urls_app, (requested_urls_stderr t1 Hq1).
  - match goal with
    | |- context [ (?m ≫= ?f) s2 ] =>
        assert (Hm : emits is_stderr (m ≫= f))
    end.
    { apply emits_bind; [by apply emits_stderr|]. intros _.
      apply emits_bind; [by apply emits_cache_set_mod_info|].
      intros _. apply emits_ret. }
    destruct (Hm s2) as (t3 & Ht3 & Hq3).
    exists (t1 ++ t2 ++ t3). split.
    + rewrite Ht3, Ht2, Ht1. by rewrite <- !app_assoc.
    + rewrite !requested_urls_app, (requested_urls_stderr t1 Hq1),
        (requested_urls_stderr t3 Hq3), Hreq2. by rewrite app_nil_r.
  - exists (t1 ++ t2). split; [simpl; by rewrite Ht2, Ht1, app_assoc|].
    by rewrite requested_urls_app, (requested_urls_stderr t1 Hq1).
Qed.

(** The requests of [scrape_file_info]. *)
Lemma scrape_file_info_requests w pid fid s :
  ∃ t, st_trace (scrape_file_info w pid fid s).2 = st_trace s ++ t
       ∧ requested_urls t = file_requests w (st_cache s) pid fid.
Proof.
  unfold scrape_file_info, file_requests. rewrite bind_run.
  destruct (emits_cache_get_file_info is_stderr (fun _ => eq_refl) pid fid s)
    as (t1 & Ht1 & Hq1).
  destruct (cache_get_file_info_run pid fid s) as (s1 & Hrun).
  rewrite Hrun in Ht1 |- *. cbn [snd] in Ht1. unfold file_lookup.
  destruct (file_lookup_raises (st_cache s) pid fid).
  { exists t1. split; [done | by apply requested_urls_stderr]. }
  destruct (truthy (cached_file (st_cache s) pid fid)).
  { exists t1. split; [done | by apply requested_urls_stderr]. }
  rewrite bind_run.
  destruct (for_urls_requests w (try_file_url w pid fid)
              (try_file_url_trace w pid fid) (try_file_url_result w pid fid)
              (file_urls pid fid) s1) as (t2 & Ht2 & Hreq2).
  destruct (for_urls (try_file_url w pid fid) (file_urls pid fid) s1)
    as [[[v|]|e] s2]; cbn [snd] in Ht2.
  - exists (t1 ++ t2). split; [simpl; by rewrite Ht2, Ht1, app_assoc|].
    by rewrite requested_urls_app, (requested_urls_stderr t1 Hq1).
  - match goal with
    | |- context [ (?m ≫= ?f) s2 ] =>
        assert (Hm : emits is_stderr (m ≫= f))
    end.
    { apply emits_bind; [by apply emits_stderr|]. intros _.
      apply emits_bind; [by apply emits_cache_set_file_info|].
      intros _. apply emits_ret. }
    destruct (Hm s2) as (t3 & Ht3 & Hq3).
    exists (t1 ++ t2 ++ t3). split.
    + rewrite Ht3, Ht2, Ht1. by rewrite <- !app_assoc.
    + rewrite !requested_urls_app, (requested_urls_stderr t1 Hq1),
        (requested_urls_stderr t3 Hq3), Hreq2. by rewrite app_nil_r.
  - exists (t1 ++ t2). split; [simpl; by rewrite Ht2, Ht1, app_assoc|].
    by rewrite requested_urls_app, (requested_urls_stderr t1 Hq1).
Qed.



Lemma mod_requests_prefix w a pid : mod_requests w a pid `prefix_of` mod_urls pid.
Proof.
  unfold mod_requests. destruct (mod_lookup_raises a pid); [apply prefix_nil|].
  destruct (truthy _); [apply prefix_nil | apply urls_tried_prefix].
Qed.

Lemma file_requests_prefix w a pid fid :
  file_requests w a pid fid `prefix_of` file_urls pid fid.
Proof.
  unfold file_requests. destruct (file_lookup_raises a pid fid); [apply prefix_nil|].
  destruct (truthy _); [apply prefix_nil | apply urls_tried_prefix].
Qed.



End RequestFacts.

Import TraceFacts FileFetcherFacts RequestFacts.



(** X10.  A fetch requests nothing when the lookup of its key raises or
    gives a true value.  Otherwise it requests the candidate URLs of the
    key in their order, goes on to the next one only after a failure, and
    so never requests a URL that comes after one that was served or twice
    the same one.  This holds for both fetchers. *)
Theorem fetchers_request_candidates_in_order
    (w : World) (s : St) (project_id file_id : Z) :
  (∃ t, st_trace (scrape_mod_info w project_id s).2 = st_trace s ++ t
        ∧ requested_urls t
          = (if mod_lookup_raises (st_cache s) project_id then []
             else if truthy (cached_mod (st_cache s) project_id) then []
             else urls_tried w (mod_urls project_id))
        ∧ requested_urls t `prefix_of` mod_urls project_id)
  ∧ (∃ t, st_trace (scrape_file_info w project_id file_id s).2 = st_trace s ++ t
          ∧ requested_urls t
            = (if file_lookup_raises (st_cache s) project_id file_id then []
               else if truthy (cached_file (st_cache s) project_id file_id) then []
               else urls_tried w (file_urls project_id file_id))
          ∧ requested_urls t `prefix_of` file_urls project_id file_id).
Proof.
  split.
  - destruct (scrape_mod_info_requests w project_id s) as (t & Ht & Hreq).
    exists t. split_and!; [done..|]. rewrite Hreq. apply mod_requests_prefix.
  - destruct (scrape_file_info_requests w project_id file_id s) as (t & Ht & Hreq).
    exists t. split_and!; [done..|]. rewrite Hreq. apply file_requests_prefix.
Qed.



(** X12.  What a fetch returns it leaves in the cache: after a fetch that
    returned with a writable cache, the next fetch of the same key returns
    the same record without a request, whatever the network then does.  In
    particular a placeholder, once stored after every candidate failed, is
    what later fetches of the key return. *)
Theorem fetched_record_is_reused
    (w1 w2 : World) (project_id : Z) (s s1 : St) (v : Json) :
  st_cache s ≠ None →
  mod_write_ok w1 project_id = true →
  scrape_mod_info w1 project_id s = (Ok v, s1) →
  ∃ s2 t,
    scrape_mod_info w2 project_id s1 = (Ok v, s2)
    ∧ st_trace s2 = st_trace s1 ++ t
    ∧ requested_urls t = []
    ∧ (truthy (cached_mod (st_cache s) project_id) = false →
       (∀ url, url ∈ mod_urls project_id → url_fails w1 url = true) →
       v = mod_placeholder project_id).
Proof.
  intros Hcache Hwrite Hfirst.
  destruct (scrape_mod_info_run w1 project_id s) as (s' & Hrun & _ & Hwr).
  rewrite Hfirst in Hrun. injection Hrun as Hres <-.
  pose proof (eq_sym Hres) as Hres0.
  assert (Hfile : mod_file (st_cache s1) project_id = Some (FileJson v)).
  { by apply Hwr. }
  pose proof (mod_lookup_raises_written _ _ _ Hfile) as Hstored.
  assert (Htruthy : truthy v = true).
  { by eapply mod_resolution_truthy. }
  assert (Hcached : cached_mod (st_cache s1) project_id = v).
  { by rewrite cached_mod_file, Hfile. }
  destruct (scrape_mod_info_run w2 project_id s1) as (s2 & Hrun2 & _).
  destruct (scrape_mod_info_requests w2 project_id s1) as (t & Ht & Hreq).
  rewrite Hrun2 in Ht. cbn [snd] in Ht.
  exists s2, t. split_and!.
  - rewrite Hrun2. unfold mod_resolution. by rewrite Hstored, Hcached, Htruthy.
  - done.
  - rewrite Hreq. unfold mod_requests. by rewrite Hstored, Hcached, Htruthy.
  - intros Hmiss Hfail. unfold mod_resolution in Hres.
    rewrite (mod_resolution_returns_lookup _ _ _ _ Hres0), Hmiss in Hres.
    unfold mod_fetch in Hres. rewrite fetch_outcome_all_fail in Hres by done.
    by injection Hres.
Qed.

Lemma fetched_record_is_reused_witness :
  ∃ s1 s2 t,
    scrape_mod_info world_all_404 7 start_with_empty_cache
      = (Ok (mod_placeholder 7), s1)
    ∧ scrape_mod_info world_legacy_only 7 s1 = (Ok (mod_placeholder 7), s2)
    ∧ st_trace s2 = st_trace s1 ++ t
    ∧ requested_urls t = [].
Proof.
  assert (Hcache : st_cache start_with_empty_cache ≠ None) by discriminate.
  assert (Hwrite : mod_write_ok world_all_404 7 = true) by reflexivity.
  assert (Hfirst : scrape_mod_info world_all_404 7 start_with_empty_cache
                   = (Ok (mod_placeholder 7),
                      (scrape_mod_info world_all_404 7 start_with_empty_cache).2)).
  { vm_compute. reflexivity. }
  destruct (fetched_record_is_reused world_all_404 world_legacy_only 7 _ _ _
              Hcache Hwrite Hfirst) as (s2 & t & H2 & Ht & Hreq & _).
  exists (scrape_mod_info world_all_404 7 start_with_empty_cache).2, s2, t.
  split_and!; [exact Hfirst | exact H2 | exact Ht | exact Hreq].
Defined.



Import OrchestratorFacts.

(** X14.  When every lookup of its cache pass returns,
    [scrape_all_mod_info] returns whatever the fetches do.  Its map then
    holds exactly the projects of the manifest whose fetch returns, each
    with the record of that fetch, so with k raising fetches out of N
    distinct projects it has N−k entries; every raised exception is
    reported on stderr under its project.  When a lookup of the cache pass
    raises, on a cache file that cannot be decoded as text, the
    orchestrator raises: it has opened no pool, made no request and
    changed no cache file. *)
Theorem scrape_all_mod_info_partial_failures
    (w : World) (manifest : Manifest) (s : St) :
  let ids : gset Z := list_to_set (projectID <$> get_files manifest) in
  ((∀ q, q ∈ ids → mod_lookup_raises (st_cache s) q = false) →
   ∃ mod_info s' t,
     scrape_all_mod_info w manifest s = (Ok mod_info, s')
     ∧ st_trace s' = st_trace s ++ t
     ∧ (∀ q v, mod_info !! q = Some v ↔
               q ∈ ids ∧ (scrape_mod_info w q s).1 = Ok v)
     ∧ dom mod_info = filter (fun q => fetch_returns w s q = true) ids
     ∧ (size mod_info
        + size (filter (fun q => ¬ fetch_returns w s q = true) ids)
        = size ids)%nat
     ∧ (∀ q e, q ∈ ids → (scrape_mod_info w q s).1 = Raise e →
               EvStderr (ErrProcessingProject q e) ∈ t))
  ∧ ((∃ q, q ∈ ids ∧ mod_lookup_raises (st_cache s) q = true) →
     ∃ s' t,
       scrape_all_mod_info w manifest s = (Raise OtherException, s')
       ∧ st_trace s' = st_trace s ++ t
       ∧ pool_widths t = []
       ∧ requested_urls t = []
       ∧ same_mod_files (st_cache s) (st_cache s')).
Proof.
  intros ids. split.
  - intros Hreturns.
    destruct (scrape_all_mod_info_run w manifest s)
      as (m & s' & t & Hrun & Ht & _ & Hm & _ & _ & _ & _ & Herr).
    { intros q Hq. apply Hreturns. by apply elem_of_elements. }
    assert (Hlookup : ∀ q v, m !! q = Some v ↔
                             q ∈ ids ∧ (scrape_mod_info w q s).1 = Ok v).
    { intros q v. rewrite Hm, scrape_mod_info_result.
      case_decide as Hq; rewrite elem_of_elements in Hq.
      - destruct (mod_resolution w (st_cache s) q); split; try done.
        + by intros [= ->].
        + by intros [_ [= ->]].
        + by intros [_ ?].
      - split; [done | by intros [? _]]. }
    assert (Hdom : dom m = filter (fun q => fetch_returns w s q = true) ids).
    { apply set_eq. intros q. rewrite elem_of_dom, elem_of_filter.
      unfold fetch_returns. split.
      - intros [v [Hq Hv]%Hlookup]. by rewrite Hv.
      - intros [Hret Hq].
        destruct (scrape_mod_info w q s).1 as [v|e] eqn:Hv; [|done].
        exists v. by apply Hlookup. }
    exists m, s', t. split_and!; try done.
    + rewrite <- size_dom, Hdom.
      rewrite <- size_union by apply disjoint_filter_complement.
      by rewrite (filter_union_complement_L _ ids ids).
    + intros q e Hq He. apply Herr; [by apply elem_of_elements|].
      by rewrite <- scrape_mod_info_result.
  - intros (q & Hq & Hraises).
    destruct (scrape_all_mod_info_raises w manifest s)
      as (s' & t & Hrun & Ht & Hquiet & Hsame).
    { exists q. split; [by apply elem_of_elements | done]. }
    exists s', t. split_and!; [done | done | | by apply requested_urls_stderr | done].
    by apply pool_widths_stderr.
Qed.

Lemma scrape_all_mod_info_partial_failures_witness :
  (∃ mod_info s',
      scrape_all_mod_info world_project_2_raises manifest_1_2 start_with_empty_cache
      = (Ok mod_info, s')
      ∧ ∀ v, mod_info !! 2 = Some v ↔
             2 ∈ (list_to_set (projectID <$> get_files manifest_1_2) : gset Z)
             ∧ (scrape_mod_info world_project_2_raises 2 start_with_empty_cache).1
               = Ok v)
  ∧ (∃ s',
        scrape_all_mod_info world_project_2_raises manifest_1_2
          start_with_undecodable
        = (Raise OtherException, s')).
Proof.
  destruct (scrape_all_mod_info_partial_failures world_project_2_raises
              manifest_1_2 start_with_empty_cache) as [Hreturns _].
  destruct (scrape_all_mod_info_partial_failures world_project_2_raises
              manifest_1_2 start_with_undecodable) as [_ Hraises].
  split.
  - destruct Hreturns as (m & s' & t & Hrun & _ & Hm & _).
    { intros q _. unfold mod_lookup_raises, start_with_empty_cache, new_cache.
      simpl. by rewrite lookup_empty. }
    exists m, s'. split; [exact Hrun | exact (Hm 2)].
  - destruct Hraises as (s' & t & Hrun & _).
    { exists 2. split.
      - apply elem_of_list_to_set. simpl. right. left.
      - unfold mod_lookup_raises, start_with_undecodable, new_cache. simpl.
        by rewrite lookup_singleton_eq. }
    exists s'. exact Hrun.
Defined.

(** X15.  An empty manifest, or one without a [files] key, costs nothing:
    both orchestrators return an empty map and leave the cache object, its
    counters and the trace as they were. *)
Theorem orchestrators_on_empty_manifest (w : World) (manifest : Manifest) (s : St) :
  get_files manifest = [] →
  scrape_all_mod_info w manifest s = (Ok ∅, s)
  ∧ scrape_all_file_info w manifest s = (Ok ∅, s).
Proof.
  intros Hnil. unfold scrape_all_mod_info, scrape_all_file_info.
  rewrite Hnil. simpl. rewrite !elements_empty.
  rewrite !bind_run. by destruct (st_cache s).
Qed.

Lemma orchestrators_on_empty_manifest_witness :
  scrape_all_mod_info world_faulty (mkManifest None) start_with_empty_cache
  = (Ok ∅, start_with_empty_cache).
Proof.
  exact (proj1 (orchestrators_on_empty_manifest world_faulty (mkManifest None)
                  start_with_empty_cache eq_refl)).
Defined.

(** ** Pools and pauses *)
Module PacingFacts.
Import TraceFacts FetcherFacts OrchestratorFacts.

Lemma pool_widths_app t1 t2 : pool_widths (t1 ++ t2) = pool_widths t1 ++ pool_widths t2.
Proof. apply omap_app. Qed.

Lemma pacing_delays_app t1 t2 :
  pacing_delays (t1 ++ t2) = pacing_delays t1 ++ pacing_delays t2.
Proof. apply omap_app. Qed.

Lemma task_events_quiet t :
  forallb is_task_event t = true → pool_widths t = [] ∧ pacing_delays t = [].
Proof.
  induction t as [|ev t IH]; [done|]. simpl. intros [Hev Ht]%andb_true_iff.
  destruct (IH Ht) as [Hp Hd]. unfold pool_widths, pacing_delays in *. csimpl.
  rewrite Hp, Hd. by destruct ev.
Qed.

Lemma stderr_task_events t :
  forallb is_stderr t = true → forallb is_task_event t = true.
Proof.
  rewrite !forallb_forall. intros H ev Hev. specialize (H ev Hev). by destruct ev.
Qed.

(** The result loop pauses once for every task that returned. *)
Lemma collect_mod_results_pauses (res : Z → Exc Json) ids m s :
  ∃ t, st_trace (collect_mod_results ((fun q => (res q, q)) <$> ids) m s).2
       = st_trace s ++ t
       ∧ pool_widths t = []
       ∧ pacing_delays t
         = replicate (length (filter (fun q => is_ok (res q) = true) ids)) (1 # 2)%Q.
Proof.
  revert m s. induction ids as [|pid rest IH]; intros m s.
  - exists []. by rewrite app_nil_r.
  - rewrite fmap_cons. cbn [collect_mod_results]. rewrite filter_cons.
    destruct (res pid) as [v|e]; simpl.
    + rewrite bind_run. cbn [emit].
      set (m0 := if truthy v then _ else _).
      set (s0 := mkSt (st_cache s) _).
      destruct (IH m0 s0) as (t & Ht & Hp & Hd).
      exists (EvSleep (1 # 2) :: t). split_and!.
      * rewrite Ht. simpl. by rewrite <- app_assoc.
      * done.
      * unfold pacing_delays in *. csimpl. by rewrite Hd.
    + rewrite bind_run. cbn [stderr].
      set (s0 := mkSt (st_cache s) _).
      destruct (IH m s0) as (t & Ht & Hp & Hd).
      exists (EvStderr (ErrProcessingProject pid e) :: t). split_and!.
      * rewrite Ht. simpl. by rewrite <- app_assoc.
      * done.
      * done.
Qed.

(** The pool of [scrape_all_mod_info]: opened only for a non-empty list of
    keys, and paused once per returned task. *)
Lemma dispatch_mod_pauses w m1 ids1 s1 :
  NoDup ids1 →
  ∃ t,
    st_trace ((match ids1 with
               | [] => mret m1
               | _ :: _ =>
                   emit (EvPool 3);;
                   futures ← submit_mod_tasks w ids1;
                   collect_mod_results futures m1
               end) s1).2 = st_trace s1 ++ t
    ∧ pool_widths t = (match ids1 with [] => [] | _ :: _ => [3] end)
    ∧ pacing_delays t
      = replicate
          (length (filter (fun q => is_ok (mod_resolution w (st_cache s1) q) = true)
                          ids1))
          (1 # 2)%Q.
Proof.
  intros Hnd. destruct ids1 as [|pid rest].
  - exists []. by rewrite app_nil_r.
  - set (ids1 := pid :: rest) in *.
    rewrite bind_run. cbn [emit].
    set (s0 := mkSt (st_cache s1) (st_trace s1 ++ [EvPool 3])).
    destruct (submit_mod_tasks_run w ids1 s0 Hnd) as (s2 & t2' & Hrun2 & _).
    destruct (emits_submit_mod_tasks is_task_event
                (fun _ => eq_refl) (fun _ => eq_refl) (fun _ => eq_refl)
                w ids1 s0) as (t2 & Ht2 & Hq2).
    rewrite Hrun2 in Ht2. cbn [snd] in Ht2.
    rewrite bind_run, Hrun2.
    destruct (collect_mod_results_pauses (mod_resolution w (st_cache s0)) ids1 m1 s2)
      as (t3 & Ht3 & Hp3 & Hd3).
    destruct (task_events_quiet t2 Hq2) as [Hp2 Hd2].
    exists ([EvPool 3] ++ t2 ++ t3). split_and!.
    + rewrite Ht3, Ht2. simpl. by rewrite <- !app_assoc.
    + rewrite !pool_widths_app, Hp2, Hp3. done.
    + rewrite !pacing_delays_app, Hd2, Hd3. done.
Qed.

End PacingFacts.

Import PacingFacts.

(** X16.  [scrape_all_mod_info] opens a pool, always three workers wide,
    only when at least one key is dispatched, and it pauses half a second
    once for every dispatched fetch that returned: after a fetch that
    raised there is no pause. *)
Theorem scrape_all_mod_info_pool_and_pauses
    (w : World) (manifest : Manifest) (s : St) :
  ∃ t,
    st_trace (scrape_all_mod_info w manifest s).2 = st_trace s ++ t
    ∧ pool_widths t = (if decide (submitted_mods t = []) then [] else [3])
    ∧ pacing_delays t
      = replicate
          (length (filter (fun q => fetch_returns w s q = true) (submitted_mods t)))
          (1 # 2)%Q.
Proof.
  destruct (mod_lookups_return_or_raise (st_cache s)
              (elements (list_to_set (projectID <$> get_files manifest) : gset Z)))
    as [Hreturns|Hraises]; cycle 1.
  { destruct (scrape_all_mod_info_raises w manifest s Hraises)
      as (s' & t & -> & Ht & Hquiet & _).
    destruct (task_events_quiet t (stderr_task_events t Hquiet)) as [Hp Hd].
    assert (Hsub : submitted_mods t = []).
    { by apply submitted_mods_quiet, stderr_get_or_stderr. }
    exists t. rewrite Hp, Hd, Hsub. by split_and!. }
  unfold scrape_all_mod_info.
  set (ids := elements
                (list_to_set (projectID <$> get_files manifest) : gset Z)) in *.
  rewrite bind_run.
  destruct (cache_pass_mod_run ids s (NoDup_elements _) Hreturns)
    as (m1 & ids1 & s1 & t1 & -> & Ht1 & Hq1 & Hsame & Hnd1 & _ & _).
  destruct (dispatch_mod_run w m1 ids1 s1 Hnd1)
    as (m' & s' & t & Hrun & Ht & Hsub & _).
  destruct (dispatch_mod_pauses w m1 ids1 s1 Hnd1) as (t' & Ht' & Hp & Hd).
  rewrite Hrun in Ht' |- *. cbn [snd] in Ht' |- *.
  assert (t' = t) as -> by (rewrite Ht in Ht'; by apply app_inv_head in Ht').
  destruct (task_events_quiet t1 (stderr_task_events t1 Hq1)) as [Hp1 Hd1].
  assert (Hsub1 : submitted_mods t1 = []).
  { by apply submitted_mods_quiet, stderr_get_or_stderr. }
  exists (t1 ++ t). split_and!.
  - by rewrite Ht, Ht1, app_assoc.
  - rewrite pool_widths_app, Hp1, Hp, submitted_mods_app, Hsub1, Hsub. simpl.
    destruct ids1; by case_decide.
  - rewrite pacing_delays_app, Hd1, Hd, submitted_mods_app, Hsub1, Hsub. simpl.
    do 2 f_equal. apply list_filter_iff. intros q.
    unfold fetch_returns. rewrite scrape_mod_info_result.
    by rewrite (mod_resolution_ext w (st_cache s) (st_cache s1)) by apply Hsame.
Qed.

(** ** The enrichment block of [main] *)
Module MainFacts.
Import TraceFacts FetcherFacts OrchestratorFacts.

Lemma not_submit_mod_quiet t :
  forallb is_not_submit_mod t = true → submitted_mods t = [].
Proof.
  induction t as [|ev t IH]; [done|]. simpl. intros [Hev Ht]%andb_true_iff.
  unfold submitted_mods in *. csimpl. rewrite (IH Ht). by destruct ev.
Qed.

Lemma scrape_all_mod_info_extends w manifest s :
  ∃ t, st_trace (scrape_all_mod_info w manifest s).2 = st_trace s ++ t.
Proof.
  assert (H : emits (fun _ => true) (scrape_all_mod_info w manifest))
    by (by apply emits_scrape_all_mod_info).
  destruct (H s) as (t & Ht & _). by exists t.
Qed.

(** When the cache object can be made, or none is wanted, [main] goes
    through its enrichment block. *)
Lemma main_is_scrape_block w args mods fs old_manifest new_manifest :
  scrape args = true →
  (no_cache args = false → makedirs_ok w (args_cache_dir args) = true) →
  st_trace (main w args mods fs old_manifest new_manifest).2
  = st_trace (scrape_block w args old_manifest new_manifest
                (main_start args mods fs)).2.
Proof.
  intros Hscrape Hdirs. unfold main, main_start, create_cache. rewrite Hscrape.
  destruct (no_cache args); simpl.
  - rewrite bind_run. by destruct (scrape_block _ _ _ _ _) as [[enrichment|e] s1].
  - rewrite Hdirs by done. rewrite bind_run.
    by destruct (scrape_block _ _ _ _ _) as [[enrichment|e] s1].
Qed.

(** When the directories of the cache cannot be made, [main] stops there. *)
Lemma main_aborts_at_cache w args mods fs old_manifest new_manifest :
  scrape args = true →
  no_cache args = false →
  makedirs_ok w (args_cache_dir args) = false →
  main w args mods fs old_manifest new_manifest
  = (Raise OtherException, mkSt None []).
Proof.
  intros Hscrape Hcache Hdirs. unfold main, create_cache.
  by rewrite Hscrape, Hcache, Hdirs.
Qed.

(** The trace of the block: the two project orchestrations, the second
    only when the first returned and the project sets differ, then the
    file orchestration, which dispatches no project key. *)
Lemma scrape_block_trace w args old_manifest new_manifest s :
  ∃ t1 t2 t3,
    st_trace (scrape_all_mod_info w old_manifest s).2 = st_trace s ++ t1
    ∧ match scrape_all_mod_info w old_manifest s with
      | (Ok _, s1) =>
          if decide ((list_to_set (projectID <$> get_files old_manifest) : gset Z)
                     ≠ list_to_set (projectID <$> get_files new_manifest))
          then st_trace (scrape_all_mod_info w new_manifest s1).2 = st_trace s1 ++ t2
          else t2 = []
      | (Raise _, _) => t2 = []
      end
    ∧ st_trace (scrape_block w args old_manifest new_manifest s).2
      = st_trace s ++ t1 ++ t2 ++ t3
    ∧ submitted_mods t3 = [].
Proof.
  unfold scrape_block. rewrite bind_run.
  destruct (scrape_all_mod_info_extends w old_manifest s) as (t1 & Ht1).
  destruct (scrape_all_mod_info w old_manifest s) as [[m1|e1] s1];
    cbn [snd] in Ht1; cycle 1.
  { exists t1, [], []. by rewrite !app_nil_r. }
  rewrite bind_run.
  assert (Hlast : ∀ (m2 : gmap Z Json) (s2 : St),
            ∃ t3, st_trace
                    ((file_info ← (if negb (no_scrape_files args)
                                   then scrape_all_file_info w
                                          (combined_manifest old_manifest new_manifest)
                                   else mret ∅);
                      mret (m1, m2, file_info)) s2).2
                  = st_trace s2 ++ t3
                  ∧ submitted_mods t3 = []).
  { intros m2 s2.
    match goal with
    | |- ∃ t3, st_trace (?m s2).2 = _ ∧ _ =>
        assert (Hm : emits is_not_submit_mod m)
    end.
    { apply emits_bind; [|intros fi; apply emits_ret].
      destruct (negb _); [|apply emits_ret].
      by apply emits_scrape_all_file_info. }
    destruct (Hm s2) as (t3 & Ht3 & Hq3). exists t3. split; [done|].
    by apply not_submit_mod_quiet. }
  case_decide as Hdiff.
  - destruct (scrape_all_mod_info_extends w new_manifest s1) as (t2 & Ht2).
    destruct (scrape_all_mod_info w new_manifest s1) as [[m2|e2] s2];
      cbn [snd] in Ht2.
    + destruct (Hlast m2 s2) as (t3 & Ht3 & Hsub3).
      exists t1, t2, t3. split_and!; try done.
      etrans; [exact Ht3|]. rewrite Ht2, Ht1. by rewrite <- !app_assoc.
    + exists t1, t2, []. split_and!; try done.
      cbn [snd]. rewrite Ht2, Ht1. by rewrite app_nil_r, <- !app_assoc.
  - cbn [mret M_ret]. destruct (Hlast m1 s1) as (t3 & Ht3 & Hsub3).
    exists t1, [], t3. split_and!; try done.
    etrans; [exact Ht3|]. by rewrite Ht1, <- !app_assoc.
Qed.

(** Without a cache every project of the manifest is dispatched. *)
Lemma scrape_all_mod_info_no_cache w manifest s :
  st_cache s = None →
  ∃ m s' t, scrape_all_mod_info w manifest s = (Ok m, s')
    ∧ st_trace s' = st_trace s ++ t
    ∧ st_cache s' = None
    ∧ submitted_mods t
      = elements (list_to_set (projectID <$> get_files manifest) : gset Z).
Proof.
  intros Hnone. unfold scrape_all_mod_info. rewrite Hnone, bind_run.
  cbn [mret M_ret].
  destruct (dispatch_mod_run w ∅
              (elements (list_to_set (projectID <$> get_files manifest) : gset Z))
              s (NoDup_elements _))
    as (m & s' & t & Hrun & Ht & Hsub & _ & Hp & _).
  exists m, s', t. split_and!; try done.
  rewrite Hnone in Hp. by destruct (st_cache s').
Qed.

End MainFacts.

Import MainFacts.

(** X17.  With [--scrape --no-cache], [main] dispatches every project of
    the old manifest and then, when the two manifests do not have the same
    set of projects, every project of the new manifest: a project that is
    in both is then fetched twice. *)
Theorem main_without_cache_fetches_per_manifest
    (w : World) (args : Args) (mods fs : gmap string CacheFile)
    (old_manifest new_manifest : Manifest) :
  scrape args = true →
  no_cache args = true →
  let old_ids : gset Z := list_to_set (projectID <$> get_files old_manifest) in
  let new_ids : gset Z := list_to_set (projectID <$> get_files new_manifest) in
  submitted_mods (st_trace (main w args mods fs old_manifest new_manifest).2)
  = elements old_ids ++ (if decide (old_ids ≠ new_ids) then elements new_ids else []).
Proof.
  intros Hscrape Hnocache old_ids new_ids.
  rewrite main_is_scrape_block by (done || congruence).
  set (s0 := main_start args mods fs).
  assert (Hnone : st_cache s0 = None).
  { unfold s0, main_start. by rewrite Hscrape, Hnocache. }
  destruct (scrape_block_trace w args old_manifest new_manifest s0)
    as (t1 & t2 & t3 & Ht1 & Hsecond & Ht & Hsub3).
  destruct (scrape_all_mod_info_no_cache w old_manifest s0 Hnone)
    as (m & s1 & t & Hrun & Htr & Hnone1 & Hsub1).
  rewrite Hrun in Ht1, Hsecond. cbn [snd] in Ht1.
  assert (t = t1) as -> by (rewrite Ht1 in Htr; by apply app_inv_head in Htr).
  rewrite Ht. unfold s0 at 1. simpl.
  rewrite !submitted_mods_app, Hsub1, Hsub3, app_nil_r. f_equal.
  fold old_ids new_ids in Hsecond. destruct (decide (old_ids ≠ new_ids)).
  - destruct (scrape_all_mod_info_no_cache w new_manifest s1 Hnone1)
      as (m' & s2 & t' & Hrun' & Htr' & _ & Hsub2).
    rewrite Hrun' in Hsecond. cbn [snd] in Hsecond.
    assert (t' = t2) as ->
      by (rewrite Hsecond in Htr'; by apply app_inv_head in Htr').
    done.
  - by subst t2.
Qed.

Lemma main_without_cache_fetches_per_manifest_witness :
  submitted_mods
    (st_trace (main world_all_404 args_scrape_no_cache ∅ ∅
                 manifest_1_2 manifest_1_2_3).2)
  = elements (list_to_set (projectID <$> get_files manifest_1_2) : gset Z)
    ++ elements (list_to_set (projectID <$> get_files manifest_1_2_3) : gset Z).
Proof.
  etrans;
    [exact (main_without_cache_fetches_per_manifest world_all_404
              args_scrape_no_cache ∅ ∅ manifest_1_2 manifest_1_2_3
              eq_refl eq_refl)|].
  f_equal.
Defined.

(** X18.  With [--scrape] and a cache, [main] dispatches no project twice
    over its two project orchestrations, provided the cache files of the
    old manifest's projects can be written and their fetches return: what
    the first orchestration fetched, the second finds in the cache. *)
Theorem main_with_cache_fetches_once
    (w : World) (args : Args) (mods fs : gmap string CacheFile)
    (old_manifest new_manifest : Manifest) :
  let old_ids : gset Z := list_to_set (projectID <$> get_files old_manifest) in
  scrape args = true →
  no_cache args = false →
  (∀ q, q ∈ old_ids → mod_write_ok w q = true) →
  (∀ q e, q ∈ old_ids →
          (scrape_mod_info w q (main_start args mods fs)).1 ≠ Raise e) →
  NoDup (submitted_mods
           (st_trace (main w args mods fs old_manifest new_manifest).2)).
Proof.
  intros old_ids Hscrape Hcache Hwrite Hsafe.
  destruct (makedirs_ok w (args_cache_dir args)) eqn:Hdirs; cycle 1.
  { rewrite main_aborts_at_cache by done. apply NoDup_nil_2. }
  rewrite main_is_scrape_block by done.
  set (s0 := main_start args mods fs) in *.
  assert (Hsome : st_cache s0 ≠ None).
  { unfold s0, main_start. by rewrite Hscrape, Hcache. }
  destruct (scrape_block_trace w args old_manifest new_manifest s0)
    as (t1 & t2 & t3 & Ht1 & Hsecond & Ht & Hsub3).
  destruct (scrape_all_mod_info_run w old_manifest s0)
    as (m & s1 & t & Hrun & Htr & _ & _ & Hwr & Hnd1 & Hsub1 & _).
  { intros q Hq. apply elem_of_elements in Hq.
    destruct (mod_lookup_raises (st_cache s0) q) eqn:Hraises; [|done].
    destruct (Hsafe q OtherException Hq).
    rewrite scrape_mod_info_result. unfold mod_resolution. by rewrite Hraises. }
  rewrite Hrun in Ht1, Hsecond. cbn [snd] in Ht1.
  assert (t = t1) as -> by (rewrite Ht1 in Htr; by apply app_inv_head in Htr).
  rewrite Ht. unfold s0 at 1. simpl.
  rewrite !submitted_mods_app, Hsub3, app_nil_r.
  case_decide as Hdiff; [|subst t2; by rewrite app_nil_r].
  destruct (mod_lookups_return_or_raise (st_cache s1)
              (elements (list_to_set (projectID <$> get_files new_manifest)
                         : gset Z))) as [Hreturns|Hraises].
  - destruct (scrape_all_mod_info_run w new_manifest s1 Hreturns)
      as (m' & s2 & t' & Hrun' & Htr' & _ & _ & _ & Hnd2 & Hsub2 & _).
    rewrite Hrun' in Hsecond. cbn [snd] in Hsecond.
    assert (t' = t2) as ->
      by (rewrite Hsecond in Htr'; by apply app_inv_head in Htr').
    apply NoDup_app. split_and!; [done | | done].
    intros q [Hq _]%Hsub1 [_ Hmiss]%Hsub2.
    assert (Hq' : q ∈ old_ids) by (by apply elem_of_elements in Hq).
    specialize (Hsafe q). rewrite scrape_mod_info_result in Hsafe.
    destruct (mod_resolution w (st_cache s0) q) as [v|e] eqn:Hv;
      [|by destruct (Hsafe e)].
    pose proof (Hwr q v Hq Hsome (Hwrite q Hq') Hv) as Hfile.
    rewrite cached_mod_file, Hfile in Hmiss.
    by rewrite (mod_resolution_truthy _ _ _ _ Hv) in Hmiss.
  - destruct (scrape_all_mod_info_raises w new_manifest s1 Hraises)
      as (s2 & t' & Hrun' & Htr' & Hquiet & _).
    rewrite Hrun' in Hsecond. cbn [snd] in Hsecond.
    assert (t' = t2) as ->
      by (rewrite Hsecond in Htr'; by apply app_inv_head in Htr').
    rewrite (submitted_mods_quiet t2) by (by apply stderr_get_or_stderr).
    by rewrite app_nil_r.
Qed.

Lemma main_with_cache_fetches_once_witness :
  NoDup (submitted_mods
           (st_trace (main world_all_404 args_scrape ∅ ∅
                        manifest_1_2 manifest_1_2_3).2)).
Proof.
  apply (main_with_cache_fetches_once world_all_404 args_scrape ∅ ∅
           manifest_1_2 manifest_1_2_3).
  - reflexivity.
  - reflexivity.
  - intros q _. reflexivity.
  - intros q e _. rewrite scrape_mod_info_result.
    unfold mod_resolution, cached_mod, main_start. simpl.
    rewrite lookup_empty. discriminate.
Defined.

(** ** The combined manifest *)
Module CombinedFacts.
Import DifferFacts DifferMore.

Lemma elem_of_keys_add_new_file (acc : list FileEntry) (item : FileEntry) (k : Z * Z) :
  k ∈ file_key <$> add_new_file acc item ↔ k ∈ file_key <$> acc ∨ k = file_key item.
Proof.
  unfold add_new_file.
  destruct (existsb _ acc) eqn:Hex.
  - split; [by left|]. intros [?| ->]; [done|].
    apply existsb_exists in Hex as (f & Hf & Heq).
    apply andb_true_iff in Heq as [Hp Hfid].
    apply Z.eqb_eq in Hp, Hfid. apply list_elem_of_fmap. exists f. split.
    + unfold file_key. by rewrite Hp, Hfid.
    + by apply list_elem_of_In.
  - rewrite fmap_app, elem_of_app. simpl. rewrite list_elem_of_singleton. done.
Qed.

Lemma elem_of_keys_fold_add_new_file (l acc : list FileEntry) (k : Z * Z) :
  k ∈ file_key <$> fold_left add_new_file l acc ↔
  k ∈ file_key <$> acc ∨ k ∈ file_key <$> l.
Proof.
  revert acc. induction l as [|item l IH]; intros acc; cbn [fold_left].
  - split; [by left|]. intros [?|H]; [done|]. by apply not_elem_of_nil in H.
  - rewrite IH, elem_of_keys_add_new_file, fmap_cons, elem_of_cons. tauto.
Qed.

Lemma elem_of_keys_combined (old new : Manifest) (k : Z * Z) :
  k ∈ file_key <$> get_files (combined_manifest old new) ↔
  k ∈ file_key <$> get_files old ∨ k ∈ file_key <$> get_files new.
Proof.
  unfold combined_manifest, get_files at 1. simpl.
  rewrite elem_of_keys_fold_add_new_file, <- list_fmap_compose.
  assert (file_key ∘ (fun item => entry (projectID item) (fileID item)) = file_key)
    as -> by done.
  done.
Qed.

Lemma elem_of_file_key (l : list FileEntry) (e : FileEntry) :
  e ∈ l → file_key e ∈ file_key <$> l.
Proof. intros He. apply list_elem_of_fmap. by exists e. Qed.

Lemma required_fold_add_new_file (l acc : list FileEntry) :
  Forall (fun e => required e = None) acc →
  Forall (fun e => required e = None) (fold_left add_new_file l acc).
Proof.
  revert acc. induction l as [|item l IH]; intros acc Hacc; simpl; [done|].
  apply IH. unfold add_new_file. destruct (existsb _ acc); [done|].
  apply Forall_app. split; [done|]. by apply Forall_singleton.
Qed.

End CombinedFacts.

Import CombinedFacts.

(** X19.  The manifest that [main] hands to the file orchestrator covers
    the report: its (projectID, fileID) pairs are exactly the pairs of the
    two manifests, so they include the pair of every addition and of every
    removal and both the old and the new pair of every update.  Its entries
    carry nothing but the pair. *)
Theorem combined_manifest_covers_the_diff (old_manifest new_manifest : Manifest) :
  let keys := file_key <$> get_files (combined_manifest old_manifest new_manifest) in
  let r := compare_manifests old_manifest new_manifest in
  (∀ k, k ∈ keys ↔ k ∈ file_key <$> get_files old_manifest
                   ∨ k ∈ file_key <$> get_files new_manifest)
  ∧ (∀ e, e ∈ additions_of r → file_key e ∈ keys)
  ∧ (∀ e, e ∈ removals_of r → file_key e ∈ keys)
  ∧ (∀ u, u ∈ updates_of r →
          (u_projectID u, old_fileID u) ∈ keys
          ∧ (u_projectID u, new_fileID u) ∈ keys)
  ∧ Forall (fun e => required e = None)
           (get_files (combined_manifest old_manifest new_manifest)).
Proof.
  intros keys r. subst keys r. split_and!.
  - apply elem_of_keys_combined.
  - intros e He. rewrite additions_of_compare in He.
    apply elem_of_entries_not_in in He as [He _].
    apply elem_of_keys_combined. right.
    by apply elem_of_file_key, (last_entry_elem_of _ (projectID e)).
  - intros e He. rewrite removals_of_compare in He.
    apply elem_of_entries_not_in in He as [He _].
    apply elem_of_keys_combined. left.
    by apply elem_of_file_key, (last_entry_elem_of _ (projectID e)).
  - intros u (o & n & Ho & Hn & _ & Hof & Hnf)%elem_of_updates.
    rewrite !elem_of_keys_combined. split.
    + left. rewrite Hof, <- (last_entry_projectID _ _ _ Ho).
      by apply (elem_of_file_key _ o), (last_entry_elem_of _ (u_projectID u)).
    + right. rewrite Hnf, <- (last_entry_projectID _ _ _ Hn).
      by apply (elem_of_file_key _ n), (last_entry_elem_of _ (u_projectID u)).
  - unfold combined_manifest, get_files at 1. simpl.
    apply required_fold_add_new_file, Forall_fmap, Forall_forall. done.
Qed.

(** ** The three loops of the file orchestrator *)
Module FileOrchestratorFacts.
Import TraceFacts FetcherFacts FileFetcherFacts OrchestratorFacts CacheMore FrameFacts.

Lemma elem_of_remove_first {A} `{EqDecision A} (x q : A) (l : list A) :
  NoDup l → q ∈ list_remove_first x l ↔ q ∈ l ∧ q ≠ x.
Proof.
  induction l as [|y l IH]; simpl; intros Hnd.
  - split; [intros H0 | intros [H0 _]]; by apply not_elem_of_nil in H0.
  - apply NoDup_cons in Hnd as [Hy Hnd]. case_decide as Hyx.
    + subst y. rewrite elem_of_cons. split.
      * intros Hq. split; [by right|]. by intros ->.
      * by intros [[->|Hq] Hne].
    + rewrite !elem_of_cons, (IH Hnd). split.
      * intros [->|[Hq Hne]]; [by split; [left|] | by split; [right|]].
      * intros [[->|Hq] Hne]; [by left | by right].
Qed.

Lemma NoDup_remove_first {A} `{EqDecision A} (x : A) (l : list A) :
  NoDup l → NoDup (list_remove_first x l).
Proof.
  induction l as [|y l IH]; simpl; intros Hnd; [done|].
  pose proof Hnd as Hnd0. apply NoDup_cons in Hnd as [Hy Hnd]. case_decide; [done|].
  apply NoDup_cons. split; [|by apply IH].
  rewrite elem_of_remove_first by done. by intros [? _].
Qed.

Lemma same_file_files_refl a : same_file_files a a.
Proof. split; [apply same_presence_refl | done]. Qed.

Lemma same_file_files_trans a b c :
  same_file_files a b → same_file_files b c → same_file_files a c.
Proof.
  intros [P1 F1] [P2 F2]. split; [by eapply same_presence_trans|].
  intros k. by rewrite F2, F1.
Qed.

Lemma file_frame_refl key a : file_frame key a a.
Proof. split; [apply same_presence_refl | done]. Qed.

Lemma file_frame_trans key a b c :
  file_frame key a b → file_frame key b c → file_frame key a c.
Proof.
  intros [P1 F1] [P2 F2]. split; [by eapply same_presence_trans|].
  intros k Hk. by rewrite F2, F1.
Qed.

Lemma same_file_files_frame key a b : same_file_files a b → file_frame key a b.
Proof. intros [P1 F1]. split; [done | intros k _; apply F1]. Qed.

Lemma cached_file_file a pid fid :
  cached_file a pid fid = match file_file a (pid, fid) with
                          | Some (FileJson v) => v
                          | _ => JNull
                          end.
Proof. by destruct a. Qed.

Lemma cached_file_ext a b pid fid :
  file_file b (pid, fid) = file_file a (pid, fid) →
  cached_file b pid fid = cached_file a pid fid.
Proof. intros H0. by rewrite !cached_file_file, H0. Qed.

Lemma file_lookup_raises_file a pid fid :
  file_lookup_raises a pid fid = match file_file a (pid, fid) with
                                 | Some FileUndecodable => true
                                 | _ => false
                                 end.
Proof. by destruct a. Qed.

Lemma file_lookup_raises_ext a b pid fid :
  file_file b (pid, fid) = file_file a (pid, fid) →
  file_lookup_raises b pid fid = file_lookup_raises a pid fid.
Proof. intros H0. by rewrite !file_lookup_raises_file, H0. Qed.

Lemma file_resolution_ext w a b pid fid :
  file_file b (pid, fid) = file_file a (pid, fid) →
  file_resolution w b pid fid = file_resolution w a pid fid.
Proof.
  intros H0. unfold file_resolution.
  by rewrite (cached_file_ext a b), (file_lookup_raises_ext a b).
Qed.

(** Either every lookup of a list of keys returns, or one raises. *)
Lemma file_lookups_return_or_raise (a : option CurseForgeCache) (ids : list (Z * Z)) :
  (∀ k, k ∈ ids → file_lookup_raises a k.1 k.2 = false)
  ∨ (∃ k, k ∈ ids ∧ file_lookup_raises a k.1 k.2 = true).
Proof.
  induction ids as [|k rest [IH|(k' & Hk' & Hr)]].
  - left. intros k Hk. by apply not_elem_of_nil in Hk.
  - destruct (file_lookup_raises a k.1 k.2) eqn:Hk.
    + right. exists k. split; [by left | done].
    + left. intros k' [->|Hk']%elem_of_cons; [done | by apply IH].
  - right. exists k'. split; [by right | done].
Qed.

(** Reading the cache leaves the files alone. *)
Lemma same_file_files_get pid fid :
  preserves same_file_files (cache_get_file_info pid fid).
Proof.
  intros [[c|] tr]; unfold cache_get_file_info, get_file_info; simpl;
    [|apply same_file_files_refl].
  by destruct (file_files c !! file_cache_name pid fid) as [[v| | |]|].
Qed.

(** Writing the cache touches the file of one key. *)
Lemma file_frame_set w pid fid v :
  preserves (file_frame (pid, fid)) (cache_set_file_info w pid fid v).
Proof.
  intros [[c|] tr]; unfold cache_set_file_info, set_file_info; simpl;
    [|apply file_frame_refl].
  assert (Hother : ∀ (x : CacheFile) (k : Z * Z), k ≠ (pid, fid) →
            <[file_cache_name pid fid := x]> (file_files c)
              !! file_cache_name k.1 k.2
            = file_files c !! file_cache_name k.1 k.2).
  { intros x [q f] Hk. rewrite lookup_insert_ne; [done|].
    intros Hname. apply file_cache_name_inj in Hname as [-> ->]. done. }
  destruct (file_write_ok w (pid, fid)); simpl.
  - split; [done|]. intros k Hk. unfold file_file. simpl. by apply Hother.
  - destruct (file_write_leaves w (pid, fid)) as [remains|]; simpl;
      (split; [done|]); [|done].
    intros k Hk. unfold file_file. simpl. by apply Hother.
Qed.

(** A fetch touches no cache file but that of its own key. *)
Lemma file_frame_scrape_file_info w pid fid :
  preserves (file_frame (pid, fid)) (scrape_file_info w pid fid).
Proof.
  pose proof (file_frame_refl (pid, fid)) as Hrefl.
  pose proof (file_frame_trans (pid, fid)) as Htrans.
  unfold scrape_file_info. apply preserves_bind; [done| |].
  { intros s. apply same_file_files_frame, same_file_files_get. }
  intros cached. destruct (truthy cached); [by apply preserves_ret|].
  apply preserves_bind; [done| |].
  { apply preserves_for_urls; [done..|]. intros url. unfold try_file_url.
    apply preserves_bind; [done | by apply preserves_emit|]. intros _.
    destruct (http_get w url) as [e|status text].
    - destruct (caught_by_fetcher e); [|by apply preserves_raise].
      apply preserves_bind;
        [done | by apply preserves_stderr | intros _; by apply preserves_ret].
    - destruct (negb _); [by apply preserves_ret|].
      apply preserves_bind;
        [done | apply file_frame_set | intros _; by apply preserves_ret]. }
  intros [v|]; [by apply preserves_ret|].
  apply preserves_bind; [done | by apply preserves_stderr|]. intros _.
  apply preserves_bind;
    [done | apply file_frame_set | intros _; by apply preserves_ret].
Qed.

Lemma scrape_file_info_frame_run w pid fid s :
  ∃ s', scrape_file_info w pid fid s
        = (file_resolution w (st_cache s) pid fid, s')
    ∧ file_frame (pid, fid) (st_cache s) (st_cache s').
Proof.
  pose proof (file_frame_scrape_file_info w pid fid s) as Hframe.
  destruct (scrape_file_info_run w pid fid s) as (s' & Hrun).
  rewrite Hrun in Hframe. by exists s'.
Qed.

Lemma submitted_files_app t1 t2 :
  submitted_files (t1 ++ t2) = submitted_files t1 ++ submitted_files t2.
Proof. apply omap_app. Qed.

Lemma submitted_files_quiet t :
  forallb is_get_or_stderr t = true → submitted_files t = [].
Proof.
  induction t as [|ev t IH]; [done|]. simpl. intros [Hev Ht]%andb_true_iff.
  unfold submitted_files in *. csimpl. rewrite (IH Ht). by destruct ev.
Qed.

Lemma submitted_files_not_fetch t :
  forallb (fun ev => negb (is_fetch_event ev)) t = true → submitted_files t = [].
Proof.
  induction t as [|ev t IH]; [done|]. simpl. intros [Hev Ht]%andb_true_iff.
  unfold submitted_files in *. csimpl. rewrite (IH Ht). by destruct ev.
Qed.

(** The cache pass moves every key stored with a true value from [files]
    to [file_info]. *)
Lemma check_file_cache_run copy m ids s :
  NoDup ids →
  (∀ k, k ∈ copy → file_lookup_raises (st_cache s) k.1 k.2 = false) →
  ∃ m' ids' s', check_file_cache copy (m, ids) s = (Ok (m', ids'), s')
    ∧ same_file_files (st_cache s) (st_cache s')
    ∧ NoDup ids'
    ∧ (∀ k, k ∈ ids' ↔
            k ∈ ids
            ∧ ¬ (k ∈ copy ∧ truthy (cached_file (st_cache s) k.1 k.2) = true))
    ∧ (∀ k, m' !! k =
            if decide (k ∈ copy ∧ truthy (cached_file (st_cache s) k.1 k.2) = true)
            then Some (cached_file (st_cache s) k.1 k.2) else m !! k).
Proof.
  revert m ids s.
  induction copy as [|key rest IH]; intros m ids s Hnd Hok; cbn [check_file_cache].
  - exists m, ids, s. split_and!; [done | apply same_file_files_refl | done | |].
    + intros k. split; [intros Hk; split; [done|] | by intros [? _]].
      intros [Hin _]. by apply not_elem_of_nil in Hin.
    + intros k. case_decide as H0; [|done].
      destruct H0 as [Hin _]. by apply not_elem_of_nil in Hin.
  - rewrite bind_run.
    pose proof (same_file_files_get key.1 key.2 s) as Hsame.
    destruct (cache_get_file_info_run key.1 key.2 s) as (s1 & Hget).
    rewrite Hget in Hsame |- *. cbn [snd] in Hsame.
    unfold file_lookup. rewrite (Hok key) by left.
    assert (Hcached : ∀ k, cached_file (st_cache s1) k.1 k.2
                           = cached_file (st_cache s) k.1 k.2).
    { intros [q f]. apply cached_file_ext, Hsame. }
    assert (Hok1 : ∀ k, k ∈ rest → file_lookup_raises (st_cache s1) k.1 k.2 = false).
    { intros [q f] Hk. rewrite (file_lookup_raises_ext (st_cache s)) by apply Hsame.
      apply (Hok (q, f)). by right. }
    destruct (truthy (cached_file (st_cache s) key.1 key.2)) eqn:Htruthy.
    + destruct (IH (<[key := cached_file (st_cache s) key.1 key.2]> m)
                   (list_remove_first key ids) s1
                   (NoDup_remove_first _ _ Hnd) Hok1)
        as (m' & ids' & s' & Hrun & Hsame' & Hnd' & Hids & Hm).
      exists m', ids', s'. cbn [fst snd]. rewrite Hrun. split_and!.
      * done.
      * by eapply same_file_files_trans.
      * done.
      * intros k. rewrite Hids, elem_of_remove_first, Hcached by done.
        rewrite elem_of_cons. split.
        -- intros [[Hk Hne] Hnot]. split; [done|].
           intros [[->|Hin] Ht]; [done|]. by apply Hnot.
        -- intros [Hk Hnot]. split_and!; [done| |].
           ++ intros ->. apply Hnot. by split; [left|].
           ++ intros [Hin Ht]. apply Hnot. by split; [right|].
      * intros k. rewrite Hm, Hcached.
        destruct (decide (k = key)) as [->|Hne].
        -- rewrite lookup_insert_eq.
           rewrite (decide_True (P := key ∈ key :: rest ∧ _)) by (by split; [left|]).
           by case_decide.
        -- rewrite lookup_insert_ne by done.
           apply decide_ext. rewrite elem_of_cons. split.
           ++ intros [Hin Ht]. by split; [right|].
           ++ by intros [[->|Hin] Ht].
    + destruct (IH m ids s1 Hnd Hok1)
        as (m' & ids' & s' & Hrun & Hsame' & Hnd' & Hids & Hm).
      exists m', ids', s'. rewrite Hrun. split_and!.
      * done.
      * by eapply same_file_files_trans.
      * done.
      * intros k. rewrite Hids, Hcached, elem_of_cons.
        split; intros [Hk Hnot]; (split; [done|]).
        -- intros [[->|Hin] Ht]; [congruence|]. by apply Hnot.
        -- intros [Hin Ht]. apply Hnot. by split; [right|].
      * intros k. rewrite Hm, Hcached.
        apply decide_ext. rewrite elem_of_cons. split.
        -- intros [Hin Ht]. by split; [right|].
        -- intros [[->|Hin] Ht]; [congruence|done].
Qed.

(** The cache pass raises at the first key whose lookup raises. *)
Lemma check_file_cache_raises copy acc s :
  (∃ k, k ∈ copy ∧ file_lookup_raises (st_cache s) k.1 k.2 = true) →
  ∃ s', check_file_cache copy acc s = (Raise OtherException, s')
        ∧ same_file_files (st_cache s) (st_cache s').
Proof.
  revert acc s. induction copy as [|key rest IH]; intros acc s (k & Hk & Hraises).
  - by apply not_elem_of_nil in Hk.
  - cbn [check_file_cache]. rewrite bind_run.
    pose proof (same_file_files_get key.1 key.2 s) as Hsame.
    destruct (cache_get_file_info_run key.1 key.2 s) as (s1 & Hget).
    rewrite Hget in Hsame |- *. cbn [snd] in Hsame.
    unfold file_lookup.
    destruct (file_lookup_raises (st_cache s) key.1 key.2) eqn:Hkey; [by exists s1|].
    assert (Hrest : ∃ k', k' ∈ rest
                          ∧ file_lookup_raises (st_cache s1) k'.1 k'.2 = true).
    { exists k. apply elem_of_cons in Hk as [->|Hk]; [congruence|].
      split; [done|]. destruct k as [q f].
      by rewrite (file_lookup_raises_ext (st_cache s)) by apply Hsame. }
    destruct (truthy (cached_file (st_cache s) key.1 key.2));
      (edestruct IH as (s' & Hrun & Hsame'); [exact Hrest|];
       exists s'; split; [exact Hrun | by eapply same_file_files_trans]).
Qed.

(** The dispatch loop hands every key to the fetcher once; each task sees
    the cache file of its key as it was before the loop. *)
Lemma submit_file_tasks_run w ids s :
  NoDup ids →
  ∃ s' t, submit_file_tasks w ids s
          = (Ok ((fun k => (file_resolution w (st_cache s) k.1 k.2, k)) <$> ids), s')
    ∧ st_trace s' = st_trace s ++ t
    ∧ submitted_files t = ids
    ∧ same_presence (st_cache s) (st_cache s')
    ∧ (∀ k, k ∉ ids → file_file (st_cache s') k = file_file (st_cache s) k).
Proof.
  revert s. induction ids as [|[pid fid] rest IH]; intros s Hnd;
    cbn [submit_file_tasks].
  - exists s, []. rewrite app_nil_r.
    split_and!; [done | done | done | apply same_presence_refl | done].
  - apply NoDup_cons in Hnd as [Hkey Hnd].
    rewrite bind_run. cbn [emit]. rewrite bind_run. unfold submit.
    set (s0 := mkSt (st_cache s) (st_trace s ++ [EvSubmitFile pid fid])).
    destruct (scrape_file_info_frame_run w pid fid s0) as (s1 & Hrun & [Hp1 Hframe1]).
    destruct (emits_scrape_file_info is_get_or_stderr
                (fun _ => eq_refl) (fun _ => eq_refl) w pid fid s0)
      as (t1 & Ht1 & Hq1).
    rewrite Hrun in Ht1 |- *. cbn [snd] in Ht1.
    destruct (IH s1 Hnd) as (s2 & t2 & Hrun2 & Ht2 & Hsub2 & Hp2 & Hframe2).
    rewrite bind_run, Hrun2. cbn [mret M_ret].
    exists s2, ([EvSubmitFile pid fid] ++ t1 ++ t2). split_and!.
    + unfold mret, M_ret. rewrite fmap_cons.
      assert ((fun k => (file_resolution w (st_cache s1) k.1 k.2, k)) <$> rest
              = (fun k => (file_resolution w (st_cache s) k.1 k.2, k)) <$> rest)
        as ->; [|done].
      apply list_fmap_ext. intros i [q f] Hk%list_elem_of_lookup_2.
      f_equal. apply file_resolution_ext, Hframe1. by intros [= -> ->].
    + rewrite Ht2, Ht1. simpl. by rewrite <- !app_assoc.
    + rewrite !submitted_files_app, (submitted_files_quiet t1 Hq1), Hsub2. done.
    + by eapply same_presence_trans.
    + intros k Hk. apply not_elem_of_cons in Hk as [Hne Hk].
      rewrite Hframe2, Hframe1; done.
Qed.

(** The result loop stores what every task returned and reports what it
    raised. *)
Lemma collect_file_results_run (res : Z * Z → Exc Json) ids m s :
  ∃ m' s' t, collect_file_results ((fun k => (res k, k)) <$> ids) m s = (Ok m', s')
    ∧ st_cache s' = st_cache s
    ∧ st_trace s' = st_trace s ++ t
    ∧ forallb (fun ev => negb (is_fetch_event ev)) t = true
    ∧ (∀ k e, k ∈ ids → res k = Raise e →
              EvStderr (ErrProcessingFile k.1 k.2 e) ∈ t)
    ∧ (∀ k, m' !! k =
            if decide (k ∈ ids)
            then match res k with
                 | Ok v => if truthy v then Some v else m !! k
                 | Raise _ => m !! k
                 end
            else m !! k).
Proof.
  revert m s. induction ids as [|[pid fid] rest IH]; intros m s.
  - exists m, s, []. rewrite app_nil_r. split_and!; try done.
    intros k e Hk. by apply not_elem_of_nil in Hk.
  - rewrite fmap_cons. cbn [collect_file_results].
    destruct (res (pid, fid)) as [v|e] eqn:Hres.
    + rewrite bind_run. cbn [emit].
      set (m0 := if truthy v then <[(pid, fid) := v]> m else m).
      set (s0 := mkSt (st_cache s) (st_trace s ++ [EvSleep (1 # 2)])).
      destruct (IH m0 s0) as (m' & s' & t & -> & Hc & Ht & Hq & Herr & Hm).
      exists m', s', ([EvSleep (1 # 2)] ++ t). split_and!.
      * done.
      * done.
      * rewrite Ht. simpl. by rewrite <- app_assoc.
      * done.
      * intros k e' Hin Hr. apply elem_of_cons in Hin as [->|Hin]; [congruence|].
        apply elem_of_app. right. by apply Herr.
      * intros k. rewrite Hm. destruct (decide (k = (pid, fid))) as [->|Hne].
        -- rewrite (decide_True (P := (pid, fid) ∈ (pid, fid) :: rest)) by left.
           rewrite Hres. subst m0.
           case_decide; destruct (truthy v) eqn:Hv; try done.
           by rewrite lookup_insert_eq.
        -- assert (m0 !! k = m !! k) as ->.
           { subst m0. destruct (truthy v); [by rewrite lookup_insert_ne|done]. }
           apply decide_ext. rewrite elem_of_cons. split; [by right|by intros [?|?]].
    + rewrite bind_run. cbn [stderr].
      set (s0 := mkSt (st_cache s) _).
      destruct (IH m s0) as (m' & s' & t & -> & Hc & Ht & Hq & Herr & Hm).
      exists m', s', ([EvStderr (ErrProcessingFile pid fid e)] ++ t). split_and!.
      * done.
      * done.
      * rewrite Ht. simpl. by rewrite <- app_assoc.
      * done.
      * intros k e' Hin Hr. apply elem_of_cons in Hin as [->|Hin].
        -- rewrite Hres in Hr. injection Hr as <-. apply elem_of_app. left. by left.
        -- apply elem_of_app. right. by apply Herr.
      * intros k. rewrite Hm. destruct (decide (k = (pid, fid))) as [->|Hne].
        -- rewrite (decide_True (P := (pid, fid) ∈ (pid, fid) :: rest)) by left.
           rewrite Hres. by case_decide.
        -- apply decide_ext. rewrite elem_of_cons. split; [by right|by intros [?|?]].
Qed.

(** The pool: nothing happens for an empty list of keys. *)
Lemma dispatch_file_run w m1 ids1 s1 :
  NoDup ids1 →
  ∃ m' s' t,
    (match ids1 with
     | [] => mret m1
     | _ :: _ =>
         emit (EvPool 3);;
         futures ← submit_file_tasks w ids1;
         collect_file_results futures m1
     end) s1 = (Ok m', s')
    ∧ st_trace s' = st_trace s1 ++ t
    ∧ submitted_files t = ids1
    ∧ same_presence (st_cache s1) (st_cache s')
    ∧ (∀ k e, k ∈ ids1 → file_resolution w (st_cache s1) k.1 k.2 = Raise e →
              EvStderr (ErrProcessingFile k.1 k.2 e) ∈ t)
    ∧ (∀ k, m' !! k =
            if decide (k ∈ ids1)
            then match file_resolution w (st_cache s1) k.1 k.2 with
                 | Ok v => if truthy v then Some v else m1 !! k
                 | Raise _ => m1 !! k
                 end
            else m1 !! k).
Proof.
  intros Hnd. destruct ids1 as [|key rest].
  - exists m1, s1, []. rewrite app_nil_r.
    split_and!; try done; try apply same_presence_refl.
    intros k e Hk. by apply not_elem_of_nil in Hk.
  - set (ids1 := key :: rest) in *.
    rewrite bind_run. cbn [emit].
    set (s0 := mkSt (st_cache s1) (st_trace s1 ++ [EvPool 3])).
    destruct (submit_file_tasks_run w ids1 s0 Hnd)
      as (s2 & t2 & Hrun2 & Ht2 & Hsub2 & Hp2 & Hframe2).
    rewrite bind_run, Hrun2.
    destruct (collect_file_results_run
                (fun k => file_resolution w (st_cache s0) k.1 k.2) ids1 m1 s2)
      as (m' & s3 & t3 & Hrun3 & Hc3 & Ht3 & Hq3 & Herr3 & Hm3).
    rewrite Hrun3. exists m', s3, ([EvPool 3] ++ t2 ++ t3). split_and!.
    + done.
    + rewrite Ht3, Ht2. simpl. by rewrite <- !app_assoc.
    + rewrite !submitted_files_app, Hsub2, (submitted_files_not_fetch t3 Hq3).
      simpl. by rewrite app_nil_r.
    + by rewrite Hc3.
    + intros k e Hk Hr. apply elem_of_app. right. apply elem_of_app. right.
      by apply Herr3.
    + done.
Qed.

(** When the lookups of its cache pass return, [scrape_all_file_info]
    returns; its map holds, for every pair of the manifest, what the key
    resolves to, unless the fetch raised. *)
Lemma scrape_all_file_info_run w manifest s :
  let ids := elements (list_to_set (file_key <$> get_files manifest) : gset (Z * Z)) in
  (∀ k, k ∈ ids → file_lookup_raises (st_cache s) k.1 k.2 = false) →
  ∃ m' s' t, scrape_all_file_info w manifest s = (Ok m', s')
    ∧ st_trace s' = st_trace s ++ t
    ∧ same_presence (st_cache s) (st_cache s')
    ∧ (∀ k, m' !! k =
            if decide (k ∈ ids)
            then match file_resolution w (st_cache s) k.1 k.2 with
                 | Ok v => Some v
                 | Raise _ => None
                 end
            else None)
    ∧ NoDup (submitted_files t)
    ∧ (∀ k, k ∈ submitted_files t ↔
            k ∈ ids ∧ truthy (cached_file (st_cache s) k.1 k.2) = false)
    ∧ (∀ k e, k ∈ ids → file_resolution w (st_cache s) k.1 k.2 = Raise e →
              EvStderr (ErrProcessingFile k.1 k.2 e) ∈ t).
Proof.
  intros ids Hok. unfold scrape_all_file_info.
  change (fun item : FileEntry => (projectID item, fileID item)) with file_key.
  fold ids. rewrite bind_run.
  assert (Hpass : ∃ m1 ids1 s1 t1,
    (match st_cache s with
     | Some _ => check_file_cache ids (∅, ids)
     | None => mret (∅, ids)
     end) s = (Ok (m1, ids1), s1)
    ∧ st_trace s1 = st_trace s ++ t1
    ∧ forallb is_stderr t1 = true
    ∧ same_file_files (st_cache s) (st_cache s1)
    ∧ NoDup ids1
    ∧ (∀ k, k ∈ ids1 ↔
            k ∈ ids ∧ truthy (cached_file (st_cache s) k.1 k.2) = false)
    ∧ (∀ k, m1 !! k =
            if decide (k ∈ ids ∧ truthy (cached_file (st_cache s) k.1 k.2) = true)
            then Some (cached_file (st_cache s) k.1 k.2) else None)).
  { destruct (st_cache s) as [c|] eqn:Hcache.
    - destruct (check_file_cache_run ids ∅ ids s (NoDup_elements _))
        as (m1 & ids1 & s1 & Hrun & Hsame & Hnd1 & Hids & Hm).
      { intros k Hk. rewrite Hcache. by apply Hok. }
      destruct (emits_check_file_cache is_stderr (fun _ => eq_refl) ids (∅, ids) s)
        as (t1 & Ht1 & Hq1).
      rewrite Hrun in Ht1 |- *. rewrite Hcache in *.
      exists m1, ids1, s1, t1. split_and!; try done.
      intros k. rewrite Hids. split.
      + intros [Hk Hnot]. split; [done|].
        destruct (truthy _) eqn:E; [|done]. by destruct Hnot.
      + intros [Hk Hf]. split; [done|]. intros [_ Ht]. congruence.
    - exists ∅, ids, s, []. rewrite app_nil_r, Hcache.
      split_and!; try done.
      + apply NoDup_elements.
      + intros k. simpl. split; [by intros ? | by intros [? _]].
      + intros k. rewrite lookup_empty. simpl.
        by case_decide as H0; [destruct H0|]. }
  destruct Hpass as (m1 & ids1 & s1 & t1 & -> & Ht1 & Hq1 & Hsame & Hnd1 & Hids1 & Hm1).
  destruct (dispatch_file_run w m1 ids1 s1 Hnd1)
    as (m' & s' & t & Hrun & Ht & Hsub & Hp & Herr & Hm).
  rewrite Hrun.
  assert (Hres : ∀ k, file_resolution w (st_cache s1) k.1 k.2
                      = file_resolution w (st_cache s) k.1 k.2).
  { intros [q f]. apply file_resolution_ext, Hsame. }
  assert (Hsub1 : submitted_files t1 = []).
  { by apply submitted_files_quiet, stderr_get_or_stderr. }
  exists m', s', (t1 ++ t). split_and!.
  - done.
  - by rewrite Ht, Ht1, app_assoc.
  - eapply same_presence_trans; [apply Hsame | done].
  - intros k. rewrite Hm, Hres, Hm1.
    destruct (decide (k ∈ ids1)) as [Hin|Hnin].
    + apply Hids1 in Hin as [Hk Hfalse].
      rewrite (decide_True (P := k ∈ ids)) by done.
      rewrite (decide_False (P := k ∈ ids ∧ _)) by (intros [_ ?]; congruence).
      destruct (file_resolution w (st_cache s) k.1 k.2) as [v|e] eqn:Hr; [|done].
      by rewrite (file_resolution_truthy _ _ _ _ _ Hr).
    + destruct (decide (k ∈ ids)) as [Hk|Hk].
      * destruct (truthy (cached_file (st_cache s) k.1 k.2)) eqn:Ht'.
        -- rewrite decide_True by done. unfold file_resolution.
           by rewrite (Hok k Hk), Ht'.
        -- destruct Hnin. by apply Hids1.
      * by rewrite decide_False by (by intros [? _]).
  - by rewrite submitted_files_app, Hsub1, Hsub.
  - intros k. by rewrite submitted_files_app, Hsub1, Hsub, Hids1.
  - intros k e Hk Hr. apply elem_of_app. right.
    apply Herr; [|by rewrite Hres].
    apply Hids1. split; [done|].
    unfold file_resolution in Hr. rewrite (Hok k Hk) in Hr.
    by destruct (truthy _).
Qed.

(** When a lookup of its cache pass raises, [scrape_all_file_info] raises,
    having printed at most error lines. *)
Lemma scrape_all_file_info_raises w manifest s :
  let ids := elements (list_to_set (file_key <$> get_files manifest) : gset (Z * Z)) in
  (∃ k, k ∈ ids ∧ file_lookup_raises (st_cache s) k.1 k.2 = true) →
  ∃ s' t, scrape_all_file_info w manifest s = (Raise OtherException, s')
    ∧ st_trace s' = st_trace s ++ t
    ∧ forallb is_stderr t = true
    ∧ same_file_files (st_cache s) (st_cache s').
Proof.
  intros ids Hraises. unfold scrape_all_file_info.
  change (fun item : FileEntry => (projectID item, fileID item)) with file_key.
  fold ids. rewrite bind_run.
  destruct (st_cache s) as [c|] eqn:Hcache;
    [|by destruct Hraises as (k & _ & ?)].
  destruct (check_file_cache_raises ids (∅, ids) s) as (s' & Hrun & Hsame).
  { by rewrite Hcache. }
  destruct (emits_check_file_cache is_stderr (fun _ => eq_refl) ids (∅, ids) s)
    as (t & Ht & Hq).
  rewrite Hrun in Ht |- *. rewrite Hcache in Hsame. by exists s', t.
Qed.

End FileOrchestratorFacts.

Import FileOrchestratorFacts.

(** X20.  When every lookup of its cache pass returns,
    [scrape_all_file_info] returns whatever the fetches do.  Its map then
    holds exactly the (project, file) pairs of the manifest whose fetch
    returns, each with the record of that fetch; the pairs it dispatches,
    each once, are those for which the cache has no true value; and every
    raised exception is reported on stderr under its pair.  When a lookup
    of the cache pass raises, on a cache file that cannot be decoded as
    text, the orchestrator raises: it has dispatched no pair, made no
    request and changed no cache file. *)
Theorem scrape_all_file_info_partial_failures
    (w : World) (manifest : Manifest) (s : St) :
  let keys : gset (Z * Z) := list_to_set (file_key <$> get_files manifest) in
  ((∀ k, k ∈ keys → file_lookup_raises (st_cache s) k.1 k.2 = false) →
   ∃ file_info s' t,
     scrape_all_file_info w manifest s = (Ok file_info, s')
     ∧ st_trace s' = st_trace s ++ t
     ∧ (∀ k v, file_info !! k = Some v ↔
               k ∈ keys ∧ (scrape_file_info w k.1 k.2 s).1 = Ok v)
     ∧ dom file_info = filter (fun k => file_fetch_returns w s k = true) keys
     ∧ NoDup (submitted_files t)
     ∧ (∀ k, k ∈ submitted_files t ↔
             k ∈ keys ∧ truthy (cached_file (st_cache s) k.1 k.2) = false)
     ∧ (∀ k e, k ∈ keys → (scrape_file_info w k.1 k.2 s).1 = Raise e →
               EvStderr (ErrProcessingFile k.1 k.2 e) ∈ t))
  ∧ ((∃ k, k ∈ keys ∧ file_lookup_raises (st_cache s) k.1 k.2 = true) →
     ∃ s' t,
       scrape_all_file_info w manifest s = (Raise OtherException, s')
       ∧ st_trace s' = st_trace s ++ t
       ∧ submitted_files t = []
       ∧ requested_urls t = []
       ∧ same_file_files (st_cache s) (st_cache s')).
Proof.
  intros keys. split.
  - intros Hreturns.
    destruct (scrape_all_file_info_run w manifest s)
      as (m & s' & t & Hrun & Ht & _ & Hm & Hnd & Hsub & Herr).
    { intros k Hk. apply Hreturns. by apply elem_of_elements. }
    assert (Hlookup : ∀ k v, m !! k = Some v ↔
                             k ∈ keys ∧ (scrape_file_info w k.1 k.2 s).1 = Ok v).
    { intros k v. rewrite Hm, scrape_file_info_result.
      case_decide as Hk; rewrite elem_of_elements in Hk.
      - destruct (file_resolution w (st_cache s) k.1 k.2); split; try done.
        + by intros [= ->].
        + by intros [_ [= ->]].
        + by intros [_ ?].
      - split; [done | by intros [? _]]. }
    exists m, s', t. split_and!; try done.
    + apply set_eq. intros k. rewrite elem_of_dom, elem_of_filter.
      unfold file_fetch_returns, is_ok. split.
      * intros [v [Hk Hv]%Hlookup]. by rewrite Hv.
      * intros [Hret Hk].
        destruct (scrape_file_info w k.1 k.2 s).1 as [v|e] eqn:Hv; [|done].
        exists v. by apply Hlookup.
    + intros k. rewrite Hsub. by rewrite elem_of_elements.
    + intros k e Hk He. apply Herr; [by apply elem_of_elements|].
      by rewrite <- scrape_file_info_result.
  - intros (k & Hk & Hraises).
    destruct (scrape_all_file_info_raises w manifest s)
      as (s' & t & Hrun & Ht & Hquiet & Hsame).
    { exists k. split; [by apply elem_of_elements | done]. }
    exists s', t. split_and!; [done | done | | by apply requested_urls_stderr | done].
    by apply submitted_files_quiet, stderr_get_or_stderr.
Qed.

Lemma scrape_all_file_info_partial_failures_witness :
  (∃ file_info s',
      scrape_all_file_info world_all_404 manifest_1_2 start_with_empty_cache
      = (Ok file_info, s')
      ∧ ∀ v, file_info !! (2, 20) = Some v ↔
             (2, 20) ∈ (list_to_set (file_key <$> get_files manifest_1_2)
                        : gset (Z * Z))
             ∧ (scrape_file_info world_all_404 2 20 start_with_empty_cache).1
               = Ok v)
  ∧ (∃ s',
        scrape_all_file_info world_all_404 manifest_1_2 start_with_undecodable
        = (Raise OtherException, s')).
Proof.
  destruct (scrape_all_file_info_partial_failures world_all_404
              manifest_1_2 start_with_empty_cache) as [Hreturns _].
  destruct (scrape_all_file_info_partial_failures world_all_404
              manifest_1_2 start_with_undecodable) as [_ Hraises].
  split.
  - destruct Hreturns as (m & s' & t & Hrun & _ & Hm & _).
    { intros k _. unfold file_lookup_raises, start_with_empty_cache, new_cache.
      simpl. by rewrite lookup_empty. }
    exists m, s'. split; [exact Hrun | exact (Hm (2, 20))].
  - destruct Hraises as (s' & t & Hrun & _).
    { exists (2, 20). split.
      - apply elem_of_list_to_set. simpl. right. left.
      - unfold file_lookup_raises, start_with_undecodable, new_cache. simpl.
        by rewrite lookup_singleton_eq. }
    exists s'. exact Hrun.
Defined.

(** ** The enrichment [main] hands to the report *)
Module EnrichmentFacts.
Import TraceFacts FetcherFacts FileFetcherFacts OrchestratorFacts.
Import FileOrchestratorFacts CombinedFacts FrameFacts MainFacts.

(** An orchestration returns, or raises the exception of a lookup of its
    cache pass. *)
Lemma scrape_all_mod_info_cases w manifest s :
  (∃ m s', scrape_all_mod_info w manifest s = (Ok m, s'))
  ∨ (∃ s', scrape_all_mod_info w manifest s = (Raise OtherException, s')).
Proof.
  destruct (mod_lookups_return_or_raise (st_cache s)
              (elements (list_to_set (projectID <$> get_files manifest) : gset Z)))
    as [Hreturns|Hraises].
  - destruct (scrape_all_mod_info_run w manifest s Hreturns)
      as (m & s' & t & Hrun & _).
    left. by exists m, s'.
  - destruct (scrape_all_mod_info_raises w manifest s Hraises)
      as (s' & t & Hrun & _).
    right. by exists s'.
Qed.

Lemma scrape_all_file_info_cases w manifest s :
  (∃ m s', scrape_all_file_info w manifest s = (Ok m, s'))
  ∨ (∃ s', scrape_all_file_info w manifest s = (Raise OtherException, s')).
Proof.
  destruct (file_lookups_return_or_raise (st_cache s)
              (elements (list_to_set (file_key <$> get_files manifest)
                         : gset (Z * Z))))
    as [Hreturns|Hraises].
  - destruct (scrape_all_file_info_run w manifest s Hreturns)
      as (m & s' & t & Hrun & _).
    left. by exists m, s'.
  - destruct (scrape_all_file_info_raises w manifest s Hraises)
      as (s' & t & Hrun & _).
    right. by exists s'.
Qed.

(** An orchestration that returned met no lookup that raises. *)
Lemma scrape_all_mod_info_ok_lookups w manifest s m s' :
  scrape_all_mod_info w manifest s = (Ok m, s') →
  ∀ q, q ∈ elements (list_to_set (projectID <$> get_files manifest) : gset Z) →
       mod_lookup_raises (st_cache s) q = false.
Proof.
  intros Hrun.
  destruct (mod_lookups_return_or_raise (st_cache s)
              (elements (list_to_set (projectID <$> get_files manifest) : gset Z)))
    as [Hreturns|Hraises]; [done|].
  destruct (scrape_all_mod_info_raises w manifest s Hraises)
    as (s'' & t & Hrun' & _).
  congruence.
Qed.

Lemma scrape_all_file_info_ok_lookups w manifest s m s' :
  scrape_all_file_info w manifest s = (Ok m, s') →
  ∀ k, k ∈ elements (list_to_set (file_key <$> get_files manifest) : gset (Z * Z)) →
       file_lookup_raises (st_cache s) k.1 k.2 = false.
Proof.
  intros Hrun.
  destruct (file_lookups_return_or_raise (st_cache s)
              (elements (list_to_set (file_key <$> get_files manifest)
                         : gset (Z * Z))))
    as [Hreturns|Hraises]; [done|].
  destruct (scrape_all_file_info_raises w manifest s Hraises)
    as (s'' & t & Hrun' & _).
  congruence.
Qed.

(** What the block returned, its three orchestrations returned. *)
Lemma scrape_block_inv w args old_manifest new_manifest s m1 m2 m3 s3 :
  scrape_block w args old_manifest new_manifest s = (Ok (m1, m2, m3), s3) →
  ∃ s1 s2,
    scrape_all_mod_info w old_manifest s = (Ok m1, s1)
    ∧ (if decide ((list_to_set (projectID <$> get_files old_manifest) : gset Z)
                  ≠ list_to_set (projectID <$> get_files new_manifest))
       then scrape_all_mod_info w new_manifest s1 = (Ok m2, s2)
       else m2 = m1 ∧ s2 = s1)
    ∧ (if no_scrape_files args
       then m3 = ∅ ∧ s3 = s2
       else scrape_all_file_info w (combined_manifest old_manifest new_manifest) s2
            = (Ok m3, s3)).
Proof.
  unfold scrape_block. rewrite bind_run.
  destruct (scrape_all_mod_info w old_manifest s) as [[m1'|e1] s1] eqn:Hrun1;
    [|done].
  rewrite bind_run.
  assert (Hfiles : ∀ (m2' : gmap Z Json) (s2 : St),
            ((file_info ← (if negb (no_scrape_files args)
                           then scrape_all_file_info w
                                  (combined_manifest old_manifest new_manifest)
                           else mret ∅);
              mret (m1', m2', file_info)) : M Enrichment) s2
            = (Ok (m1, m2, m3), s3) →
            m1' = m1 ∧ m2' = m2
            ∧ (if no_scrape_files args
               then m3 = ∅ ∧ s3 = s2
               else scrape_all_file_info w
                      (combined_manifest old_manifest new_manifest) s2
                    = (Ok m3, s3))).
  { intros m2' s2. rewrite bind_run. destruct (no_scrape_files args); simpl.
    - by intros [= -> -> <- <-].
    - destruct (scrape_all_file_info w _ s2) as [[m3'|e3] s3'] eqn:Hrun3; [|done].
      by intros [= -> -> -> ->]. }
  case_decide as Hdiff.
  - destruct (scrape_all_mod_info w new_manifest s1) as [[m2'|e2] s2] eqn:Hrun2;
      [|done].
    intros (-> & -> & H3)%Hfiles. by exists s1, s2.
  - cbn [mret M_ret]. intros (-> & -> & H3)%Hfiles. by exists s1, s1.
Qed.

(** The block raises nothing but the exception of a lookup. *)
Lemma scrape_block_raises w args old_manifest new_manifest s e s' :
  scrape_block w args old_manifest new_manifest s = (Raise e, s') →
  e = OtherException.
Proof.
  unfold scrape_block. rewrite bind_run.
  destruct (scrape_all_mod_info_cases w old_manifest s)
    as [(m1 & s1 & ->)|(s1 & ->)]; [|by intros [= <- _]].
  rewrite bind_run.
  assert (Hfiles : ∀ (m2 : gmap Z Json) (s2 : St),
            ((file_info ← (if negb (no_scrape_files args)
                           then scrape_all_file_info w
                                  (combined_manifest old_manifest new_manifest)
                           else mret ∅);
              mret (m1, m2, file_info)) : M Enrichment) s2
            = (Raise e, s') → e = OtherException).
  { intros m2 s2. rewrite bind_run. destruct (no_scrape_files args); simpl; [done|].
    destruct (scrape_all_file_info_cases w
                (combined_manifest old_manifest new_manifest) s2)
      as [(m3 & s3 & ->)|(s3 & ->)]; [done | by intros [= <- _]]. }
  case_decide as Hdiff.
  - destruct (scrape_all_mod_info_cases w new_manifest s1)
      as [(m2 & s2 & ->)|(s2 & ->)]; [apply Hfiles | by intros [= <- _]].
  - apply Hfiles.
Qed.

Lemma mod_side_only_file_lookup a b k :
  mod_side_only a b →
  file_lookup_raises b k.1 k.2 = file_lookup_raises a k.1 k.2.
Proof.
  destruct a as [x|], b as [y|]; simpl; try done.
  intros (_ & Hfiles & _). by rewrite Hfiles.
Qed.

Lemma mod_side_only_scrape_all_mod_info w manifest s :
  mod_side_only (st_cache s) (st_cache (scrape_all_mod_info w manifest s).2).
Proof.
  apply (preserves_scrape_all_mod_info mod_side_only
           mod_side_only_refl mod_side_only_trans w
           mod_side_only_get (fun pid v _ => mod_side_only_set w pid v)).
Qed.

(** The block returns when no lookup of its three cache passes raises. *)
Lemma scrape_block_returns w args old_manifest new_manifest s :
  (∀ q, q ∈ (list_to_set (projectID <$> get_files old_manifest) : gset Z) →
        mod_lookup_raises (st_cache s) q = false) →
  ((list_to_set (projectID <$> get_files old_manifest) : gset Z)
     ≠ list_to_set (projectID <$> get_files new_manifest) →
   ∀ m1 s1 q, scrape_all_mod_info w old_manifest s = (Ok m1, s1) →
              mod_lookup_raises (st_cache s1) q = false) →
  (no_scrape_files args = false →
   ∀ k, file_lookup_raises (st_cache s) k.1 k.2 = false) →
  ∃ enrichment s',
    scrape_block w args old_manifest new_manifest s = (Ok enrichment, s').
Proof.
  intros Hold Hnew Hfs. unfold scrape_block. rewrite bind_run.
  destruct (scrape_all_mod_info_run w old_manifest s)
    as (m1 & s1 & t1 & Hrun1 & _).
  { intros q Hq. apply Hold. by apply elem_of_elements in Hq. }
  pose proof (mod_side_only_scrape_all_mod_info w old_manifest s) as Hside1.
  rewrite Hrun1 in Hside1 |- *. cbn [snd] in Hside1. rewrite bind_run.
  assert (Hfiles : ∀ (m2 : gmap Z Json) (s2 : St),
            mod_side_only (st_cache s) (st_cache s2) →
            ∃ (enrichment : Enrichment) (s' : St),
            ((file_info ← (if negb (no_scrape_files args)
                           then scrape_all_file_info w
                                  (combined_manifest old_manifest new_manifest)
                           else mret ∅);
              mret (m1, m2, file_info)) : M Enrichment) s2
            = (Ok enrichment, s')).
  { intros m2 s2 Hside. rewrite bind_run.
    destruct (no_scrape_files args); simpl; [by eexists _, _|].
    destruct (scrape_all_file_info_run w
                (combined_manifest old_manifest new_manifest) s2)
      as (m3 & s3 & t3 & Hrun3 & _).
    { intros k _. rewrite (mod_side_only_file_lookup _ _ k Hside). by apply Hfs. }
    rewrite Hrun3. by eexists _, _. }
  case_decide as Hdiff.
  - destruct (scrape_all_mod_info_run w new_manifest s1)
      as (m2 & s2 & t2 & Hrun2 & _).
    { intros q _. by eapply Hnew. }
    pose proof (mod_side_only_scrape_all_mod_info w new_manifest s1) as Hside2.
    rewrite Hrun2 in Hside2 |- *. cbn [snd] in Hside2.
    apply Hfiles. by eapply mod_side_only_trans.
  - cbn [mret M_ret]. by apply Hfiles.
Qed.

Lemma keeps_mods_decodable_refl a : keeps_mods_decodable a a.
Proof. destruct a; simpl; auto. Qed.

Lemma keeps_mods_decodable_trans a b c :
  keeps_mods_decodable a b → keeps_mods_decodable b c → keeps_mods_decodable a c.
Proof. destruct a, b, c; simpl; try done. auto. Qed.

Lemma keeps_mods_decodable_get pid :
  preserves keeps_mods_decodable (cache_get_mod_info pid).
Proof.
  intros [[c|] tr]; unfold cache_get_mod_info, get_mod_info; simpl; [|done].
  destruct (mod_files c !! mod_cache_name pid) as [[v| | |]|]; simpl; auto.
Qed.

Lemma keeps_mods_decodable_set w pid v :
  writes_leave_text w → preserves keeps_mods_decodable (cache_set_mod_info w pid v).
Proof.
  intros Hw [[c|] tr]; unfold cache_set_mod_info, set_mod_info; simpl; [|done].
  destruct (mod_write_ok w pid); simpl.
  - intros Hdec name. rewrite lookup_insert_Some.
    intros [[_ ?]|[_ Hfile]]; [done | by eapply Hdec].
  - destruct (mod_write_leaves w pid) as [remains|] eqn:Hleaves; simpl; [|auto].
    intros Hdec name. rewrite lookup_insert_Some.
    intros [[_ ->]|[_ Hfile]]; [by eapply Hw | by eapply Hdec].
Qed.

(** No lookup raises on a cache whose project files can be decoded. *)
Lemma decodable_mod_lookup a q :
  (∀ c, a = Some c → decodable (mod_files c)) → mod_lookup_raises a q = false.
Proof.
  intros Hdec. destruct a as [c|]; [|done]. simpl.
  pose proof (Hdec c eq_refl (mod_cache_name q)) as Hq.
  by destruct (mod_files c !! mod_cache_name q) as [[v| | |]|].
Qed.

Lemma decodable_file_lookup a q f :
  (∀ c, a = Some c → decodable (file_files c)) → file_lookup_raises a q f = false.
Proof.
  intros Hdec. destruct a as [c|]; [|done]. simpl.
  pose proof (Hdec c eq_refl (file_cache_name q f)) as Hq.
  by destruct (file_files c !! file_cache_name q f) as [[v| | |]|].
Qed.

(** After an orchestration on a cache that can be decoded, and whose
    failed writes leave text, the cache can still be decoded. *)
Lemma mod_lookups_after w manifest s m s' q :
  (st_cache s ≠ None → writes_leave_text w) →
  (∀ c, st_cache s = Some c → decodable (mod_files c)) →
  scrape_all_mod_info w manifest s = (Ok m, s') →
  mod_lookup_raises (st_cache s') q = false.
Proof.
  intros Hw Hdec Hrun. apply decodable_mod_lookup. intros c' Hc'.
  destruct (st_cache s) as [c|] eqn:Hc.
  - pose proof (preserves_scrape_all_mod_info keeps_mods_decodable
                  keeps_mods_decodable_refl keeps_mods_decodable_trans w
                  keeps_mods_decodable_get
                  (fun pid v _ => keeps_mods_decodable_set w pid v
                                    (Hw ltac:(done)))
                  manifest s) as Hkeep.
    rewrite Hrun, Hc in Hkeep. cbn [snd] in Hkeep. rewrite Hc' in Hkeep.
    by apply Hkeep, Hdec.
  - pose proof (mod_side_only_scrape_all_mod_info w manifest s) as Hside.
    rewrite Hrun, Hc in Hside. cbn [snd] in Hside. by rewrite Hc' in Hside.
Qed.

(** [main] goes through its block and the diff when the cache object can
    be made or is not wanted. *)
Lemma main_unfold w args mods fs old_manifest new_manifest :
  (scrape args = true → no_cache args = false →
   makedirs_ok w (args_cache_dir args) = true) →
  main w args mods fs old_manifest new_manifest
  = ((enrichment ← (if scrape args
                    then scrape_block w args old_manifest new_manifest
                    else mret (∅, ∅, ∅));
      mret (enrichment, compare_manifests old_manifest new_manifest))
     : M (Enrichment * (list FileEntry * list FileEntry * list Update)))
      (main_start args mods fs).
Proof.
  intros Hdirs. unfold main, main_start, create_cache.
  destruct (scrape args); simpl; [|done].
  destruct (no_cache args); simpl; [done|]. by rewrite Hdirs.
Qed.

(** [main] reaches the report generator, with the enrichment of its block
    and the diff, or stops on the exception of the cache. *)
Lemma main_cases w args mods fs old_manifest new_manifest :
  (∃ enrichment s',
      main w args mods fs old_manifest new_manifest
      = (Ok (enrichment, compare_manifests old_manifest new_manifest), s')
      ∧ (if scrape args
         then scrape_block w args old_manifest new_manifest
                (main_start args mods fs) = (Ok enrichment, s')
         else enrichment = (∅, ∅, ∅)))
  ∨ (∃ s', main w args mods fs old_manifest new_manifest
           = (Raise OtherException, s')).
Proof.
  destruct (scrape args) eqn:Hscrape.
  - destruct (no_cache args) eqn:Hcache, (makedirs_ok w (args_cache_dir args))
      eqn:Hdirs;
      try (rewrite main_aborts_at_cache by done; right; by eexists).
    all: rewrite main_unfold by (intros; congruence).
    all: rewrite bind_run, Hscrape.
    all: destruct (scrape_block w args old_manifest new_manifest
                     (main_start args mods fs)) as [[enrichment|e] s'] eqn:Hblock;
      [left; by exists enrichment, s'
      |right; exists s'; by rewrite (scrape_block_raises _ _ _ _ _ _ _ Hblock)].
  - rewrite main_unfold by (intros; congruence). rewrite bind_run, Hscrape.
    left. by eexists _, _.
Qed.

(** [main] reaches the report generator when the cache object can be made
    and no file that a cache pass reads is undecodable. *)
Lemma main_returns w args mods fs old_manifest new_manifest :
  (scrape args = true → no_cache args = false →
   makedirs_ok w (args_cache_dir args) = true
   ∧ decodable mods
   ∧ (no_scrape_files args = false → decodable fs)
   ∧ ((list_to_set (projectID <$> get_files old_manifest) : gset Z)
        ≠ list_to_set (projectID <$> get_files new_manifest) →
      writes_leave_text w)) →
  ∃ enrichment s',
    main w args mods fs old_manifest new_manifest
    = (Ok (enrichment, compare_manifests old_manifest new_manifest), s')
    ∧ (if scrape args
       then scrape_block w args old_manifest new_manifest
              (main_start args mods fs) = (Ok enrichment, s')
       else enrichment = (∅, ∅, ∅)).
Proof.
  intros Hcache. rewrite main_unfold by (intros; by apply Hcache).
  rewrite bind_run. destruct (scrape args) eqn:Hscrape; [|by eexists _, _].
  assert (Hstart : ∀ c, st_cache (main_start args mods fs) = Some c →
                        no_cache args = false
                        ∧ mod_files c = mods ∧ file_files c = fs).
  { unfold main_start. rewrite Hscrape. simpl.
    destruct (no_cache args); simpl; [done|]. by intros c [= <-]. }
  destruct (scrape_block_returns w args old_manifest new_manifest
              (main_start args mods fs)) as (enrichment & s' & Hblock).
  - intros q _. apply decodable_mod_lookup. intros c Hc.
    destruct (Hstart c Hc) as (Hno & -> & _). by apply Hcache.
  - intros Hdiff m1 s1 q Hrun1. eapply mod_lookups_after; [| |exact Hrun1].
    + intros Hsome. destruct (st_cache (main_start args mods fs)) as [c|] eqn:Hc;
        [|done].
      destruct (Hstart c eq_refl) as (Hno & _). by apply Hcache.
    + intros c Hc. destruct (Hstart c Hc) as (Hno & -> & _). by apply Hcache.
  - intros Hfiles k. apply decodable_file_lookup. intros c Hc.
    destruct (Hstart c Hc) as (Hno & _ & ->). by apply Hcache.
  - rewrite Hblock. by exists enrichment, s'.
Qed.





End EnrichmentFacts.

Import EnrichmentFacts.



(** ** The report *)
Module ReportFacts.
Import DifferFacts.

Lemma nonempty_empty `{Countable K} {V} : nonempty (∅ : gmap K V) = false.
Proof. unfold nonempty. by rewrite map_size_empty. Qed.

Lemma nonempty_true `{Countable K} {V} (d : gmap K V) :
  nonempty d = true ↔ d ≠ ∅.
Proof.
  unfold nonempty. rewrite negb_true_iff, Nat.eqb_neq.
  by rewrite <- map_size_empty_iff.
Qed.

Lemma is_ok_and_then {A B} (r : Exc A) (k : A → Exc B) :
  is_ok (and_then r k) = false ↔
  is_ok r = false ∨ ∃ a, r = Ok a ∧ is_ok (k a) = false.
Proof.
  destruct r as [a|e]; simpl.
  - split; [intros Hk; right; by exists a | by intros [?|(a' & [= <-] & ?)]].
  - split; [by left | done].
Qed.

(** A loop over rows raises exactly when one of its rows does. *)
Lemma is_ok_for_rows {A} (row : A → Exc string) (l : list A) (markdown : string) :
  is_ok (for_rows row l markdown) = false ↔ ∃ x, x ∈ l ∧ is_ok (row x) = false.
Proof.
  revert markdown. induction l as [|x rest IH]; intros markdown; simpl.
  - split; [done | intros (x & Hx & _); by apply not_elem_of_nil in Hx].
  - rewrite is_ok_and_then. split.
    + intros [Hx|(r & Hr & Hrest)].
      * exists x. split; [by left | done].
      * apply IH in Hrest as (y & Hy & Hrow). exists y. split; [by right | done].
    + intros (y & [->|Hy]%elem_of_cons & Hrow); [by left|].
      destruct (row x) as [r|e] eqn:Hx; [|by left].
      right. exists r. split; [done|]. apply IH. by exists y.
Qed.

Lemma for_rows_raises {A} (row : A → Exc string) (l : list A) (markdown : string) e :
  (∀ x e', row x = Raise e' → e' = AttributeError) →
  for_rows row l markdown = Raise e → e = AttributeError.
Proof.
  intros Hrow. revert markdown. induction l as [|x rest IH]; intros markdown; simpl.
  - done.
  - destruct (row x) as [r|e'] eqn:Hx; simpl; [apply IH|].
    intros [= <-]. by eapply Hrow.
Qed.

Lemma json_get_raises record key dflt e :
  json_get record key dflt = Raise e → e = AttributeError.
Proof. destruct record; simpl; congruence. Qed.

Lemma is_ok_json_get record key dflt :
  is_ok (json_get record key dflt) = is_dict record.
Proof. by destruct record. Qed.

Lemma is_ok_mod_name_of (mod_info : gmap Z Json) (project_id : Z) :
  is_ok (mod_name_of mod_info project_id) = false ↔ not_a_record mod_info project_id.
Proof.
  unfold mod_name_of, not_a_record.
  destruct (mod_info !! project_id) as [record|]; simpl.
  - rewrite is_ok_json_get. split; [by exists record | by intros (? & [= <-] & ?)].
  - split; [done | by intros (? & ? & _)].
Qed.

Lemma is_ok_file_name_of (file_info : gmap (Z * Z) Json) (key : Z * Z) :
  is_ok (file_name_of file_info key) = false ↔ not_a_record file_info key.
Proof.
  unfold file_name_of, not_a_record.
  destruct (file_info !! key) as [record|]; simpl.
  - rewrite is_ok_json_get. split; [by exists record | by intros (? & [= <-] & ?)].
  - split; [done | by intros (? & ? & _)].
Qed.

Lemma is_ok_version_of (file_info : gmap (Z * Z) Json) (key : Z * Z) :
  is_ok (version_of file_info key) = false ↔ not_a_record file_info key.
Proof.
  unfold version_of, not_a_record.
  destruct (file_info !! key) as [record|]; simpl.
  - destruct record; simpl;
      (split; [try done; by eexists | by intros (? & [= <-] & ?)]).
  - split; [done | by intros (? & ? & _)].
Qed.

Lemma mod_name_of_raises mod_info project_id e :
  mod_name_of mod_info project_id = Raise e → e = AttributeError.
Proof.
  unfold mod_name_of. destruct (mod_info !! project_id); [|done].
  apply json_get_raises.
Qed.

Lemma file_name_of_raises file_info key e :
  file_name_of file_info key = Raise e → e = AttributeError.
Proof.
  unfold file_name_of. destruct (file_info !! key); [|done].
  apply json_get_raises.
Qed.

Lemma version_of_raises file_info key e :
  version_of file_info key = Raise e → e = AttributeError.
Proof.
  unfold version_of. destruct (file_info !! key) as [record|]; [|done].
  destruct record; simpl; congruence.
Qed.

Section Rows.
Variable py_repr : Json → string.

Lemma is_ok_entry_row mod_info file_info (item : FileEntry) :
  is_ok (entry_row py_repr mod_info file_info item) = false ↔
  not_a_record mod_info (projectID item) ∨ not_a_record file_info (file_key item).
Proof.
  unfold entry_row, file_key.
  rewrite <- is_ok_mod_name_of, <- is_ok_file_name_of.
  destruct (mod_name_of mod_info (projectID item)) as [mod_name|e]; simpl;
    [|by split; [left|]].
  destruct (file_name_of file_info (projectID item, fileID item))
    as [file_name|e] eqn:Hname; simpl; [|by split; [right|]].
  assert (is_ok (version_of file_info (projectID item, fileID item)) = true) as Hv.
  { destruct (is_ok (version_of _ _)) eqn:E; [done|].
    apply is_ok_version_of, is_ok_file_name_of in E. by rewrite Hname in E. }
  destruct (version_of _ _); [|done]. simpl. by split; [|intros [?|?]].
Qed.

Lemma entry_row_raises mod_info file_info (item : FileEntry) e :
  entry_row py_repr mod_info file_info item = Raise e → e = AttributeError.
Proof.
  unfold entry_row.
  destruct (mod_name_of _ _) eqn:E1; simpl; [|intros [= <-]; by eapply mod_name_of_raises].
  destruct (file_name_of _ _) eqn:E2; simpl;
    [|intros [= <-]; by eapply file_name_of_raises].
  destruct (version_of _ _) eqn:E3; simpl; [done|].
  intros [= <-]; by eapply version_of_raises.
Qed.

Lemma is_ok_update_row mod_info file_info (item : Update) :
  is_ok (update_row py_repr mod_info file_info item) = false ↔
  not_a_record mod_info (u_projectID item)
  ∨ not_a_record file_info (u_projectID item, old_fileID item)
  ∨ not_a_record file_info (u_projectID item, new_fileID item).
Proof.
  unfold update_row.
  rewrite <- is_ok_mod_name_of, <- !is_ok_version_of.
  destruct (mod_name_of _ _); simpl; [|by split; [left|]].
  destruct (version_of file_info (_, old_fileID item)); simpl;
    [|by split; [right; left|]].
  destruct (version_of file_info (_, new_fileID item)); simpl;
    [|by split; [right; right|]].
  by split; [|intros [?|[?|?]]].
Qed.

Lemma update_row_raises mod_info file_info (item : Update) e :
  update_row py_repr mod_info file_info item = Raise e → e = AttributeError.
Proof.
  unfold update_row.
  destruct (mod_name_of _ _) eqn:E1; simpl; [|intros [= <-]; by eapply mod_name_of_raises].
  destruct (version_of file_info (_, old_fileID item)) eqn:E2; simpl;
    [|intros [= <-]; by eapply version_of_raises].
  destruct (version_of file_info (_, new_fileID item)) eqn:E3; simpl; [done|].
  intros [= <-]; by eapply version_of_raises.
Qed.

(** A section raises exactly when it has the enhanced table and a row of
    it raises. *)
Lemma is_ok_entries_section title entries mod_info file_info markdown :
  is_ok (entries_section py_repr title entries mod_info file_info markdown) = false ↔
  mod_info ≠ ∅ ∧ file_info ≠ ∅
  ∧ ∃ item, item ∈ entries
            ∧ (not_a_record mod_info (projectID item)
               ∨ not_a_record file_info (file_key item)).
Proof.
  unfold entries_section. destruct entries as [|item0 rest].
  { simpl. split; [done|]. intros (_ & _ & item & Hin & _).
    by apply not_elem_of_nil in Hin. }
  set (entries := item0 :: rest).
  rewrite is_ok_and_then.
  destruct (nonempty mod_info) eqn:Hm; destruct (nonempty file_info) eqn:Hf;
    cbn [andb].
  - apply nonempty_true in Hm, Hf. rewrite is_ok_for_rows. split.
    + intros [(item & Hin & Hrow)|(md & _ & ?)]; [|done].
      split_and!; [done..|]. exists item. split; [done|].
      by apply is_ok_entry_row.
    + intros (_ & _ & item & Hin & Hrow). left. exists item. split; [done|].
      by apply is_ok_entry_row.
  - split.
    + intros [(item & Hin & ?)%is_ok_for_rows|(md & _ & ?)]; done.
    + intros (_ & Hne & _). apply nonempty_true in Hne. congruence.
  - split.
    + intros [(item & Hin & ?)%is_ok_for_rows|(md & _ & ?)]; done.
    + intros (Hne & _). apply nonempty_true in Hne. congruence.
  - split.
    + intros [(item & Hin & ?)%is_ok_for_rows|(md & _ & ?)]; done.
    + intros (Hne & _). apply nonempty_true in Hne. congruence.
Qed.

Lemma is_ok_updates_section updates mod_info file_info markdown :
  is_ok (updates_section py_repr updates mod_info file_info markdown) = false ↔
  mod_info ≠ ∅ ∧ file_info ≠ ∅
  ∧ ∃ item, item ∈ updates
            ∧ (not_a_record mod_info (u_projectID item)
               ∨ not_a_record file_info (u_projectID item, old_fileID item)
               ∨ not_a_record file_info (u_projectID item, new_fileID item)).
Proof.
  unfold updates_section. destruct updates as [|item0 rest].
  { simpl. split; [done|]. intros (_ & _ & item & Hin & _).
    by apply not_elem_of_nil in Hin. }
  set (updates := item0 :: rest).
  rewrite is_ok_and_then.
  destruct (nonempty mod_info) eqn:Hm; destruct (nonempty file_info) eqn:Hf;
    cbn [andb].
  - apply nonempty_true in Hm, Hf. rewrite is_ok_for_rows. split.
    + intros [(item & Hin & Hrow)|(md & _ & ?)]; [|done].
      split_and!; [done..|]. exists item. split; [done|].
      by apply is_ok_update_row.
    + intros (_ & _ & item & Hin & Hrow). left. exists item. split; [done|].
      by apply is_ok_update_row.
  - split.
    + intros [(item & Hin & ?)%is_ok_for_rows|(md & _ & ?)]; done.
    + intros (_ & Hne & _). apply nonempty_true in Hne. congruence.
  - split.
    + intros [(item & Hin & ?)%is_ok_for_rows|(md & _ & ?)]; done.
    + intros (Hne & _). apply nonempty_true in Hne. congruence.
  - split.
    + intros [(item & Hin & ?)%is_ok_for_rows|(md & _ & ?)]; done.
    + intros (Hne & _). apply nonempty_true in Hne. congruence.
Qed.

Lemma entries_section_raises title entries mod_info file_info markdown e :
  entries_section py_repr title entries mod_info file_info markdown = Raise e →
  e = AttributeError.
Proof.
  unfold entries_section. destruct entries as [|item0 rest]; [done|].
  destruct (nonempty mod_info && nonempty file_info).
  - destruct (for_rows _ _ _) eqn:E; simpl; [done|]. intros [= <-].
    eapply for_rows_raises; [|exact E]. intros x e'. apply entry_row_raises.
  - destruct (for_rows _ _ _) eqn:E; simpl; [done|]. intros [= <-].
    eapply for_rows_raises; [|exact E]. by intros x e'.
Qed.

Lemma updates_section_raises updates mod_info file_info markdown e :
  updates_section py_repr updates mod_info file_info markdown = Raise e →
  e = AttributeError.
Proof.
  unfold updates_section. destruct updates as [|item0 rest]; [done|].
  destruct (nonempty mod_info && nonempty file_info).
  - destruct (for_rows _ _ _) eqn:E; simpl; [done|]. intros [= <-].
    eapply for_rows_raises; [|exact E]. intros x e'. apply update_row_raises.
  - destruct (for_rows _ _ _) eqn:E; simpl; [done|]. intros [= <-].
    eapply for_rows_raises; [|exact E]. by intros x e'.
Qed.

(** Without file records every table is the basic one, whatever the
    project records are. *)
Lemma entries_section_basic title entries mod_info markdown :
  entries_section py_repr title entries mod_info ∅ markdown
  = entries_section py_repr title entries ∅ ∅ markdown.
Proof.
  unfold entries_section. by rewrite !nonempty_empty, !andb_false_r.
Qed.

Lemma updates_section_basic updates mod_info markdown :
  updates_section py_repr updates mod_info ∅ markdown
  = updates_section py_repr updates ∅ ∅ markdown.
Proof.
  unfold updates_section. by rewrite !nonempty_empty, !andb_false_r.
Qed.

Lemma generate_markdown_basic old_header new_header additions removals updates
    old_mod_info new_mod_info :
  generate_markdown py_repr old_header new_header additions removals updates
    old_mod_info new_mod_info ∅
  = generate_markdown py_repr old_header new_header additions removals updates
      ∅ ∅ ∅.
Proof.
  unfold generate_markdown.
  rewrite (entries_section_basic _ additions new_mod_info).
  destruct (entries_section _ _ additions ∅ ∅ _); simpl; [|done].
  rewrite (entries_section_basic _ removals old_mod_info).
  destruct (entries_section _ _ removals ∅ ∅ _); simpl; [|done].
  apply updates_section_basic.
Qed.

Lemma is_ok_generate_markdown old_header new_header additions removals updates
    old_mod_info new_mod_info file_info :
  is_ok (generate_markdown py_repr old_header new_header additions removals updates
           old_mod_info new_mod_info file_info) = false ↔
  file_info ≠ ∅
  ∧ ((new_mod_info ≠ ∅
      ∧ ∃ item, item ∈ additions
                ∧ (not_a_record new_mod_info (projectID item)
                   ∨ not_a_record file_info (file_key item)))
     ∨ (old_mod_info ≠ ∅
        ∧ ∃ item, item ∈ removals
                  ∧ (not_a_record old_mod_info (projectID item)
                     ∨ not_a_record file_info (file_key item)))
     ∨ (new_mod_info ≠ ∅
        ∧ ∃ item, item ∈ updates
                  ∧ (not_a_record new_mod_info (u_projectID item)
                     ∨ not_a_record file_info (u_projectID item, old_fileID item)
                     ∨ not_a_record file_info
                         (u_projectID item, new_fileID item)))).
Proof.
  unfold generate_markdown.
  rewrite is_ok_and_then, is_ok_entries_section.
  setoid_rewrite is_ok_and_then.
  setoid_rewrite is_ok_entries_section.
  setoid_rewrite is_ok_updates_section.
  split.
  - intros [(Hm & Hf & Hrow)|(md1 & _ & [(Hm & Hf & Hrow)|(md2 & _ & Hm & Hf & Hrow)])].
    + split; [done|]. by left.
    + split; [done|]. right. by left.
    + split; [done|]. right. by right.
  - intros [Hf [[Hm Hrow]|[[Hm Hrow]|[Hm Hrow]]]].
    + by left.
    + destruct (entries_section py_repr "Additions" additions new_mod_info file_info
                  (report_head old_header new_header)) as [md1|e] eqn:E1.
      * right. exists md1. split; [done|]. by left.
      * left. apply is_ok_entries_section with (title := "Additions")
                (markdown := report_head old_header new_header).
        by rewrite E1.
    + destruct (entries_section py_repr "Additions" additions new_mod_info file_info
                  (report_head old_header new_header)) as [md1|e] eqn:E1.
      * right. exists md1. split; [done|].
        destruct (entries_section py_repr "Removals" removals old_mod_info file_info
                    md1) as [md2|e] eqn:E2.
        -- right. by exists md2.
        -- left. apply is_ok_entries_section with (title := "Removals")
                   (markdown := md1).
           by rewrite E2.
      * left. apply is_ok_entries_section with (title := "Additions")
                (markdown := report_head old_header new_header).
        by rewrite E1.
Qed.

Lemma generate_markdown_raises old_header new_header additions removals updates
    old_mod_info new_mod_info file_info e :
  generate_markdown py_repr old_header new_header additions removals updates
    old_mod_info new_mod_info file_info = Raise e →
  e = AttributeError.
Proof.
  unfold generate_markdown.
  destruct (entries_section _ "Additions" _ _ _ _) as [md1|e1] eqn:E1; simpl;
    [|intros [= <-]; by eapply entries_section_raises].
  destruct (entries_section _ "Removals" _ _ _ _) as [md2|e2] eqn:E2; simpl;
    [|intros [= <-]; by eapply entries_section_raises].
  apply updates_section_raises.
Qed.

End Rows.

End ReportFacts.

Import ReportFacts.

(** X22.  Without file records the project records are not used.  A run
    without [--scrape] always produces its report.  A run with
    [--no-scrape-files] either produces that very report, whatever the
    project orchestrations fetched, or stops on the exception of the cache
    (directories that cannot be made, a cache file that cannot be
    decoded) and produces none.  It produces the report when, unless
    [--no-cache] is given, the directories can be made, no project file of
    the cache is undecodable and no failed write leaves one. *)
Theorem main_report_needs_file_records
    (py_repr : Json → string) (w : World) (args args' : Args)
    (mods fs : gmap string CacheFile) (old_header new_header : Header)
    (old_manifest new_manifest : Manifest) :
  no_scrape_files args = true →
  scrape args' = false →
  ∃ markdown,
    main_report py_repr w args' mods fs old_header new_header
      old_manifest new_manifest = Ok markdown
    ∧ (main_report py_repr w args mods fs old_header new_header
         old_manifest new_manifest = Ok markdown
       ∨ main_report py_repr w args mods fs old_header new_header
           old_manifest new_manifest = Raise OtherException)
    ∧ ((scrape args = true → no_cache args = false →
        makedirs_ok w (args_cache_dir args) = true
        ∧ decodable mods ∧ writes_leave_text w) →
       main_report py_repr w args mods fs old_header new_header
         old_manifest new_manifest = Ok markdown).
Proof.
  intros Hfiles Hscrape.
  destruct (compare_manifests old_manifest new_manifest) as [[adds rems] upds]
    eqn:Hdiff.
  destruct (generate_markdown py_repr old_header new_header adds rems upds ∅ ∅ ∅)
    as [markdown|e] eqn:E; cycle 1.
  { assert (is_ok (generate_markdown py_repr old_header new_header adds rems upds
                     ∅ ∅ ∅) = false) as Hraise by (by rewrite E).
    by apply is_ok_generate_markdown in Hraise as [? _]. }
  assert (Hreport : ∀ (a : Args) enrichment s',
            main w a mods fs old_manifest new_manifest
            = (Ok (enrichment, compare_manifests old_manifest new_manifest), s') →
            (if scrape a
             then no_scrape_files a = true
                  ∧ scrape_block w a old_manifest new_manifest
                      (main_start a mods fs) = (Ok enrichment, s')
             else enrichment = (∅, ∅, ∅)) →
            main_report py_repr w a mods fs old_header new_header
              old_manifest new_manifest = Ok markdown).
  { intros a [[m1 m2] m3] s' Hmain Hblock. unfold main_report.
    rewrite Hmain, Hdiff. cbn [fst and_then].
    assert (m3 = ∅) as ->.
    { destruct (scrape a); [|by injection Hblock].
      destruct Hblock as [Hno Hblock].
      apply scrape_block_inv in Hblock as (s1 & s2 & _ & _ & Hrun3).
      rewrite Hno in Hrun3. by destruct Hrun3. }
    by rewrite generate_markdown_basic. }
  exists markdown. split_and!.
  - destruct (main_returns w args' mods fs old_manifest new_manifest)
      as (enrichment & s' & Hmain & Hblock); [intros; congruence|].
    apply (Hreport args' enrichment s' Hmain). by rewrite Hscrape in Hblock |- *.
  - destruct (main_cases w args mods fs old_manifest new_manifest)
      as [(enrichment & s' & Hmain & Hblock)|(s' & Hmain)].
    + left. apply (Hreport args enrichment s' Hmain). by destruct (scrape args).
    + right. unfold main_report. by rewrite Hmain.
  - intros Hcache.
    destruct (main_returns w args mods fs old_manifest new_manifest)
      as (enrichment & s' & Hmain & Hblock).
    { intros Hs Hno. destruct (Hcache Hs Hno) as (? & ? & ?).
      split_and!; [done | done | congruence | done]. }
    apply (Hreport args enrichment s' Hmain). by destruct (scrape args).
Qed.

Lemma main_report_needs_file_records_witness :
  ∃ markdown,
    main_report (fun _ => "") world_legacy_only
      (default_args "old.zip" "new.zip") ∅ ∅ header_1 header_1
      manifest_1_2 manifest_2_3 = Ok markdown
    ∧ (main_report (fun _ => "") world_legacy_only args_scrape ∅ ∅
         header_1 header_1 manifest_1_2 manifest_2_3 = Ok markdown
       ∨ main_report (fun _ => "") world_legacy_only args_scrape ∅ ∅
           header_1 header_1 manifest_1_2 manifest_2_3 = Raise OtherException)
    ∧ main_report (fun _ => "") world_legacy_only args_scrape ∅ ∅
        header_1 header_1 manifest_1_2 manifest_2_3 = Ok markdown.
Proof.
  destruct (main_report_needs_file_records (fun _ => "") world_legacy_only
              args_scrape (default_args "old.zip" "new.zip") ∅ ∅
              header_1 header_1 manifest_1_2 manifest_2_3 eq_refl eq_refl)
    as (markdown & Hplain & Hcases & Hcache).
  exists markdown. split_and!; [exact Hplain | exact Hcases |].
  apply Hcache. intros _ _. split_and!.
  - reflexivity.
  - intros name. rewrite lookup_empty. discriminate.
  - intros q. discriminate.
Defined.

(** X23.  A pack compared with itself gives a report of the two title
    lines only, with no version change, no loader change and no table,
    whatever the options and the network are, unless the run stops on the
    exception of the cache and gives no report.  It gives the report when,
    under [--scrape] without [--no-cache], the directories of the cache can
    be made and none of the cache files it reads is undecodable. *)
Theorem main_report_of_a_pack_with_itself
    (py_repr : Json → string) (w : World) (args : Args)
    (mods fs : gmap string CacheFile) (header : Header) (manifest : Manifest) :
  let pack_name := default "Unknown" (pack_name header) in
  let pack_version := default "Unknown" (pack_version header) in
  let report :=
    ("# Manifest Comparison" +:+ LF +:+ LF)
      +:+ "Comparing " +:+ pack_name +:+ " v" +:+ pack_version +:+ " to "
      +:+ pack_name +:+ " v" +:+ pack_version +:+ LF +:+ LF in
  (main_report py_repr w args mods fs header header manifest manifest = Ok report
   ∨ main_report py_repr w args mods fs header header manifest manifest
     = Raise OtherException)
  ∧ ((scrape args = true → no_cache args = false →
      makedirs_ok w (args_cache_dir args) = true
      ∧ decodable mods
      ∧ (no_scrape_files args = false → decodable fs)) →
     main_report py_repr w args mods fs header header manifest manifest
     = Ok report).
Proof.
  intros pack_name pack_version report.
  assert (Hreport : ∀ enrichment s',
            main w args mods fs manifest manifest
            = (Ok (enrichment, compare_manifests manifest manifest), s') →
            main_report py_repr w args mods fs header header manifest manifest
            = Ok report).
  { intros [[m1 m2] m3] s' Hmain. unfold main_report. rewrite Hmain.
    cbn [fst and_then]. rewrite compare_manifests_self.
    unfold generate_markdown, report_head.
    cbn [entries_section updates_section and_then].
    rewrite !decide_False by (by intros ?). done. }
  split.
  - destruct (main_cases w args mods fs manifest manifest)
      as [(enrichment & s' & Hmain & _)|(s' & Hmain)].
    + left. by eapply Hreport.
    + right. unfold main_report. by rewrite Hmain.
  - intros Hcache.
    destruct (main_returns w args mods fs manifest manifest)
      as (enrichment & s' & Hmain & _); [|by eapply Hreport].
    intros Hs Hno. destruct (Hcache Hs Hno) as (? & ? & ?). by split_and!.
Qed.

Lemma main_report_of_a_pack_with_itself_witness :
  main_report (fun _ => "") world_all_404 args_scrape_files ∅ ∅
    header_1 header_1 manifest_1_2 manifest_1_2
  = Ok (("# Manifest Comparison" +:+ LF +:+ LF)
          +:+ "Comparing " +:+ default "Unknown" (pack_name header_1)
          +:+ " v" +:+ default "Unknown" (pack_version header_1) +:+ " to "
          +:+ default "Unknown" (pack_name header_1)
          +:+ " v" +:+ default "Unknown" (pack_version header_1) +:+ LF +:+ LF)
  ∧ main_report (fun _ => "") world_no_cache_dir args_scrape_files ∅ ∅
      header_1 header_1 manifest_1_2 manifest_1_2
    = Raise OtherException.
Proof.
  split.
  - apply (main_report_of_a_pack_with_itself (fun _ => "") world_all_404
             args_scrape_files ∅ ∅ header_1 manifest_1_2).
    intros _ _. split_and!.
    + reflexivity.
    + intros name. rewrite lookup_empty. discriminate.
    + intros _ name. rewrite lookup_empty. discriminate.
  - reflexivity.
Defined.

(** X24.  The report generator raises only [AttributeError], and exactly
    when an enhanced table comes to an entry whose project record or file
    record is not a JSON object: there are file records, there are project
    records on the side the table reads ([new_mod_info] for additions and
    updates, [old_mod_info] for removals), and one of the records the table
    looks up for a listed entry is not a dictionary. *)
Theorem generate_markdown_raises_iff
    (py_repr : Json → string) (old_header new_header : Header)
    (additions removals : list FileEntry) (updates : list Update)
    (old_mod_info new_mod_info : gmap Z Json) (file_info : gmap (Z * Z) Json)
    (e : exn) :
  generate_markdown py_repr old_header new_header additions removals updates
    old_mod_info new_mod_info file_info = Raise e
  ↔ e = AttributeError
    ∧ file_info ≠ ∅
    ∧ ((new_mod_info ≠ ∅
        ∧ ∃ item, item ∈ additions
                  ∧ (not_a_record new_mod_info (projectID item)
                     ∨ not_a_record file_info (file_key item)))
       ∨ (old_mod_info ≠ ∅
          ∧ ∃ item, item ∈ removals
                    ∧ (not_a_record old_mod_info (projectID item)
                       ∨ not_a_record file_info (file_key item)))
       ∨ (new_mod_info ≠ ∅
          ∧ ∃ item, item ∈ updates
                    ∧ (not_a_record new_mod_info (u_projectID item)
                       ∨ not_a_record file_info (u_projectID item, old_fileID item)
                       ∨ not_a_record file_info
                           (u_projectID item, new_fileID item)))).
Proof.
  rewrite <- is_ok_generate_markdown with (py_repr := py_repr)
    (old_header := old_header) (new_header := new_header). split.
  - intros Hraise. split; [by eapply generate_markdown_raises|]. by rewrite Hraise.
  - intros [-> Hnot].
    destruct (generate_markdown _ _ _ _ _ _ _ _ _) as [markdown|e] eqn:E; [done|].
    by rewrite (generate_markdown_raises _ _ _ _ _ _ _ _ _ _ E).
Qed.

(** ** The records of the enrichment are dictionaries *)
Module RecordFacts.
Import TraceFacts FetcherFacts FileFetcherFacts OrchestratorFacts.
Import FileOrchestratorFacts FrameFacts EnrichmentFacts.

Lemma fetch_outcome_is_dict w record title label fallback urls v :
  (∀ n u, is_dict (record n u) = true) → is_dict fallback = true →
  fetch_outcome w record title label fallback urls = Ok v → is_dict v = true.
Proof.
  intros Hrec Hfb [->|(n & u & _ & ->)]%fetch_outcome_shape; [done | apply Hrec].
Qed.

Lemma mod_resolution_is_dict w a q v :
  (∀ c, a = Some c → holds_records (mod_files c)) →
  mod_resolution w a q = Ok v → is_dict v = true.
Proof.
  intros Hrecords. unfold mod_resolution.
  destruct (mod_lookup_raises a q); [done|].
  destruct (truthy (cached_mod a q)) eqn:Ht.
  - intros [= <-]. destruct a as [c|]; [|done]. simpl in *.
    destruct (mod_files c !! mod_cache_name q) as [[v| | |]|] eqn:Hfile; try done.
    by eapply Hrecords.
  - by apply fetch_outcome_is_dict.
Qed.

Lemma file_resolution_is_dict w a q f v :
  (∀ c, a = Some c → holds_records (file_files c)) →
  file_resolution w a q f = Ok v → is_dict v = true.
Proof.
  intros Hrecords. unfold file_resolution.
  destruct (file_lookup_raises a q f); [done|].
  destruct (truthy (cached_file a q f)) eqn:Ht.
  - intros [= <-]. destruct a as [c|]; [|done]. simpl in *.
    destruct (file_files c !! file_cache_name q f) as [[v| | |]|] eqn:Hfile; try done.
    by eapply Hrecords.
  - by apply fetch_outcome_is_dict.
Qed.

Lemma keeps_mod_records_refl a : keeps_mod_records a a.
Proof. destruct a; simpl; auto. Qed.

Lemma keeps_mod_records_trans a b c :
  keeps_mod_records a b → keeps_mod_records b c → keeps_mod_records a c.
Proof. destruct a, b, c; simpl; try done. auto. Qed.

Lemma keeps_mod_records_get pid : preserves keeps_mod_records (cache_get_mod_info pid).
Proof.
  intros [[c|] tr]; unfold cache_get_mod_info, get_mod_info; simpl; [|done].
  destruct (mod_files c !! mod_cache_name pid) as [[v| | |]|]; simpl; auto.
Qed.

Lemma keeps_mod_records_set w pid v :
  writes_leave_records w →
  is_dict v = true → preserves keeps_mod_records (cache_set_mod_info w pid v).
Proof.
  intros Hw Hv [[c|] tr]; unfold cache_set_mod_info, set_mod_info; simpl; [|done].
  destruct (mod_write_ok w pid); simpl.
  - intros Hrecords name v'. rewrite lookup_insert_Some.
    intros [[_ [= <-]]|[_ Hfile]]; [done | by eapply Hrecords].
  - destruct (mod_write_leaves w pid) as [remains|] eqn:Hleaves; simpl; [|auto].
    intros Hrecords name v'. rewrite lookup_insert_Some.
    intros [[_ ->]|[_ Hfile]]; [by eapply Hw | by eapply Hrecords].
Qed.

(** The records of a project orchestration are dictionaries when the
    project files of the cache are. *)
Lemma scrape_all_mod_info_records w manifest s m s' :
  writes_leave_records w →
  (∀ c, st_cache s = Some c → holds_records (mod_files c)) →
  scrape_all_mod_info w manifest s = (Ok m, s') →
  (∀ q v, m !! q = Some v → is_dict v = true)
  ∧ (∀ c, st_cache s' = Some c → holds_records (mod_files c))
  ∧ mod_side_only (st_cache s) (st_cache s').
Proof.
  intros Hw Hrecords Hrun.
  destruct (scrape_all_mod_info_run w manifest s
              (scrape_all_mod_info_ok_lookups _ _ _ _ _ Hrun))
    as (m0 & s0 & t & Hrun0 & _ & _ & Hm & _).
  rewrite Hrun in Hrun0. injection Hrun0 as <- <-.
  pose proof (preserves_scrape_all_mod_info keeps_mod_records
                keeps_mod_records_refl keeps_mod_records_trans w
                keeps_mod_records_get
                (fun pid v => keeps_mod_records_set w pid v Hw) manifest s)
    as Hkeep.
  pose proof (mod_side_only_scrape_all_mod_info w manifest s) as Hside.
  rewrite Hrun in Hkeep, Hside. cbn [snd] in Hkeep, Hside. split_and!.
  - intros q v. rewrite Hm. case_decide; [|done].
    destruct (mod_resolution w (st_cache s) q) as [v'|e] eqn:Hres; [|done].
    intros [= <-]. by eapply mod_resolution_is_dict.
  - intros c' Hc'. rewrite Hc' in Hkeep.
    destruct (st_cache s) as [c|]; [|done]. by apply Hkeep, Hrecords.
  - done.
Qed.

Lemma scrape_all_file_info_records w manifest s m s' :
  (∀ c, st_cache s = Some c → holds_records (file_files c)) →
  scrape_all_file_info w manifest s = (Ok m, s') →
  ∀ k v, m !! k = Some v → is_dict v = true.
Proof.
  intros Hrecords Hrun.
  destruct (scrape_all_file_info_run w manifest s
              (scrape_all_file_info_ok_lookups _ _ _ _ _ Hrun))
    as (m0 & s0 & t & Hrun0 & _ & _ & Hm & _).
  rewrite Hrun in Hrun0. injection Hrun0 as <- <-.
  intros k v. rewrite Hm. case_decide; [|done].
  destruct (file_resolution w (st_cache s) k.1 k.2) as [v'|e] eqn:Hres; [|done].
  intros [= <-]. by eapply file_resolution_is_dict.
Qed.

Lemma mod_side_only_file_records a b :
  mod_side_only a b →
  (∀ c, a = Some c → holds_records (file_files c)) →
  ∀ c, b = Some c → holds_records (file_files c).
Proof.
  destruct a as [x|], b as [y|]; simpl; try done.
  intros (_ & Hfiles & _) Hrecords c [= <-]. rewrite Hfiles. by apply Hrecords.
Qed.

Lemma records_not_a_record `{Countable K} (d : gmap K Json) (key : K) :
  (∀ k v, d !! k = Some v → is_dict v = true) → ¬ not_a_record d key.
Proof. intros Hd (v & Hv & Hnot). apply Hd in Hv. congruence. Qed.

End RecordFacts.

Import RecordFacts.

(** X25.  When every file of the cache directory that parses holds a JSON
    object, and so does what a failed write of a project record leaves,
    no row of a table raises, whatever the options and the network are:
    the records [main] fetches, stores and finds are all dictionaries, and
    [main] produces its report unless it stops on the exception of the
    cache.  It produces the report when, under [--scrape] without
    [--no-cache], the directories of the cache can be made, no file of the
    cache is undecodable and no failed write of a project record leaves
    one. *)
Theorem main_report_is_produced
    (py_repr : Json → string) (w : World) (args : Args)
    (mods fs : gmap string CacheFile) (old_header new_header : Header)
    (old_manifest new_manifest : Manifest) :
  holds_records mods →
  holds_records fs →
  writes_leave_records w →
  ((∃ markdown,
       main_report py_repr w args mods fs old_header new_header
         old_manifest new_manifest = Ok markdown)
   ∨ main_report py_repr w args mods fs old_header new_header
       old_manifest new_manifest = Raise OtherException)
  ∧ ((scrape args = true → no_cache args = false →
      makedirs_ok w (args_cache_dir args) = true
      ∧ decodable mods ∧ decodable fs ∧ writes_leave_text w) →
     ∃ markdown,
       main_report py_repr w args mods fs old_header new_header
         old_manifest new_manifest = Ok markdown).
Proof.
  intros Hmods Hfs Hw.
  assert (Hreport : ∀ enrichment s',
            main w args mods fs old_manifest new_manifest
            = (Ok (enrichment, compare_manifests old_manifest new_manifest), s') →
            (if scrape args
             then scrape_block w args old_manifest new_manifest
                    (main_start args mods fs) = (Ok enrichment, s')
             else enrichment = (∅, ∅, ∅)) →
            ∃ markdown,
              main_report py_repr w args mods fs old_header new_header
                old_manifest new_manifest = Ok markdown).
  { intros [[m1 m2] m3] s' Hmain Hblock. unfold main_report. rewrite Hmain.
    cbn [fst and_then].
    destruct (compare_manifests old_manifest new_manifest) as [[adds rems] upds].
    assert (Hrecords : (∀ q v, m1 !! q = Some v → is_dict v = true)
                       ∧ (∀ q v, m2 !! q = Some v → is_dict v = true)
                       ∧ (∀ k v, m3 !! k = Some v → is_dict v = true)).
    { destruct (scrape args); [|by injection Hblock as -> -> ->].
      apply scrape_block_inv in Hblock as (s1 & s2 & Hrun1 & Hrun2 & Hrun3).
      assert (Hstart_mods : ∀ c, st_cache (main_start args mods fs) = Some c →
                                 holds_records (mod_files c)).
      { unfold main_start. simpl. destruct (_ && _); [|done]. by intros c [= <-]. }
      assert (Hstart_files : ∀ c, st_cache (main_start args mods fs) = Some c →
                                  holds_records (file_files c)).
      { unfold main_start. simpl. destruct (_ && _); [|done]. by intros c [= <-]. }
      destruct (scrape_all_mod_info_records _ _ _ _ _ Hw Hstart_mods Hrun1)
        as (Hm1 & Hmods1 & Hside1).
      pose proof (mod_side_only_file_records _ _ Hside1 Hstart_files) as Hfiles1.
      assert (Hm2 : (∀ q v, m2 !! q = Some v → is_dict v = true)
                    ∧ (∀ c, st_cache s2 = Some c → holds_records (file_files c))).
      { case_decide as Hdiff.
        - destruct (scrape_all_mod_info_records _ _ _ _ _ Hw Hmods1 Hrun2)
            as (Hm2 & _ & Hside2).
          split; [done|]. by eapply mod_side_only_file_records.
        - by destruct Hrun2 as [-> ->]. }
      destruct Hm2 as [Hm2 Hfiles2]. split_and!; [done..|].
      destruct (no_scrape_files args).
      - destruct Hrun3 as [-> _]. intros k v. by rewrite lookup_empty.
      - by eapply scrape_all_file_info_records. }
    destruct Hrecords as (Hm1 & Hm2 & Hm3).
    destruct (generate_markdown py_repr old_header new_header adds rems upds m1 m2 m3)
      as [markdown|e] eqn:E; [by exists markdown|].
    assert (is_ok (generate_markdown py_repr old_header new_header adds rems upds
                     m1 m2 m3) = false) as Hraise by (by rewrite E).
    apply is_ok_generate_markdown in Hraise
      as [_ [[_ (item & _ & [Hbad|Hbad])]
            |[[_ (item & _ & [Hbad|Hbad])]
             |[_ (item & _ & [Hbad|[Hbad|Hbad]])]]]];
      by eapply records_not_a_record in Hbad. }
  split.
  - destruct (main_cases w args mods fs old_manifest new_manifest)
      as [(enrichment & s' & Hmain & Hblock)|(s' & Hmain)].
    + left. by eapply Hreport.
    + right. unfold main_report. by rewrite Hmain.
  - intros Hcache.
    destruct (main_returns w args mods fs old_manifest new_manifest)
      as (enrichment & s' & Hmain & Hblock); [|by eapply Hreport].
    intros Hs Hno. destruct (Hcache Hs Hno) as (? & ? & ? & ?). by split_and!.
Qed.

Lemma main_report_is_produced_witness :
  ∃ markdown,
    main_report (fun _ => "") world_legacy_only args_scrape_files
      {[ mod_cache_name 1 := FileJson (mod_record 1 "One" "") ]} ∅
      header_1 header_1 manifest_1_2 manifest_2_3 = Ok markdown.
Proof.
  destruct (main_report_is_produced (fun _ => "") world_legacy_only
              args_scrape_files
              {[ mod_cache_name 1 := FileJson (mod_record 1 "One" "") ]} ∅
              header_1 header_1 manifest_1_2 manifest_2_3) as [_ Hcache].
  - intros name v [_ [= <-]]%lookup_singleton_Some. reflexivity.
  - intros name v. rewrite lookup_empty. discriminate.
  - intros q v. discriminate.
  - apply Hcache. intros _ _. split_and!.
    + reflexivity.
    + intros name [_ ?]%lookup_singleton_Some. discriminate.
    + intros name. rewrite lookup_empty. discriminate.
    + intros q. discriminate.
Defined.

(** ** The statistics of the cache *)
Module StatsFacts.
Import TraceFacts FetcherFacts OrchestratorFacts FrameFacts.

Lemma counts_misses_refl a : counts_misses 0 a a.
Proof. destruct a; simpl; [|done]. split; [done | lia]. Qed.

Lemma counts_misses_trans n m a b c :
  counts_misses n a b → counts_misses m b c → counts_misses (n + m) a c.
Proof.
  destruct a, b, c; simpl; try done. intros [? ?] [? ?]. split; [congruence | lia].
Qed.

Lemma counts_no_misses_trans a b c :
  counts_misses 0 a b → counts_misses 0 b c → counts_misses 0 a c.
Proof. apply (counts_misses_trans 0 0). Qed.

Lemma counts_misses_set w pid v :
  preserves (counts_misses 0) (cache_set_mod_info w pid v).
Proof.
  intros [[c|] tr]; unfold cache_set_mod_info, set_mod_info; simpl; [|done].
  destruct (mod_write_ok w pid); simpl; [split; done || lia|].
  destruct (mod_write_leaves w pid); simpl; split; done || lia.
Qed.

(** After its lookup a fetch leaves the counters alone. *)
Lemma counts_misses_fetch w pid :
  preserves (counts_misses 0)
    (r ← for_urls (try_mod_url w pid) (mod_urls pid);
     match r with
     | Some mod_info => mret mod_info
     | None =>
         stderr [FailedToScrapeProject pid];;
         cache_set_mod_info w pid (mod_placeholder pid);;
         mret (mod_placeholder pid)
     end).
Proof.
  pose proof counts_misses_refl as Hrefl.
  pose proof counts_no_misses_trans as Htrans.
  apply preserves_bind; [done| |].
  { apply preserves_for_urls; [done..|]. intros url. unfold try_mod_url.
    apply preserves_bind; [done | by apply preserves_emit|]. intros _.
    destruct (http_get w url) as [e|status text].
    - destruct (caught_by_fetcher e); [|by apply preserves_raise].
      apply preserves_bind;
        [done | by apply preserves_stderr | intros _; by apply preserves_ret].
    - destruct (negb _); [by apply preserves_ret|].
      apply preserves_bind;
        [done | apply counts_misses_set | intros _; by apply preserves_ret]. }
  intros [v|]; [by apply preserves_ret|].
  apply preserves_bind; [done | by apply preserves_stderr|]. intros _.
  apply preserves_bind;
    [done | apply counts_misses_set | intros _; by apply preserves_ret].
Qed.

Lemma cache_get_mod_info_absent pid c tr :
  mod_files c !! mod_cache_name pid = None →
  cache_get_mod_info pid (mkSt (Some c) tr)
  = (Ok JNull, mkSt (Some (mod_miss c)) (tr ++ [])).
Proof.
  intros Hfile. unfold cache_get_mod_info, get_mod_info. cbn [st_cache st_trace].
  by rewrite Hfile.
Qed.

Lemma counts_misses_one c : counts_misses 1 (Some c) (Some (mod_miss c)).
Proof. by split. Qed.

(** A fetch of a project without a cache file counts one miss. *)
Lemma scrape_mod_info_absent w pid s :
  st_cache s ≠ None →
  mod_file (st_cache s) pid = None →
  counts_misses 1 (st_cache s) (st_cache (scrape_mod_info w pid s).2).
Proof.
  destruct s as [[c|] tr]; [intros _ | done]. cbn [st_cache mod_file]. intros Hfile.
  unfold scrape_mod_info.
  rewrite bind_run, (cache_get_mod_info_absent pid c tr Hfile). cbn [truthy].
  apply (counts_misses_trans 1 0 (Some c) (Some (mod_miss c)));
    [apply counts_misses_one|].
  apply (counts_misses_fetch w pid (mkSt (Some (mod_miss c)) (tr ++ []))).
Qed.

(** The cache pass over projects without a cache file keeps every key and
    counts one miss for each. *)
Lemma check_mod_cache_absent copy acc s :
  st_cache s ≠ None →
  (∀ q, q ∈ copy → mod_file (st_cache s) q = None) →
  ∃ s', check_mod_cache copy acc s = (Ok acc, s')
    ∧ counts_misses (Z.of_nat (length copy)) (st_cache s) (st_cache s')
    ∧ same_mod_files (st_cache s) (st_cache s').
Proof.
  revert s. induction copy as [|pid rest IH]; intros s Hcache Habsent.
  - exists s. split_and!; [done | apply counts_misses_refl | apply same_mod_files_refl].
  - cbn [check_mod_cache]. rewrite bind_run.
    destruct s as [[c|] tr]; [|done]. cbn [st_cache mod_file] in Habsent.
    rewrite (cache_get_mod_info_absent pid c tr) by (apply Habsent; left).
    cbn [truthy].
    destruct (IH (mkSt (Some (mod_miss c)) (tr ++ []))) as (s' & -> & Hcount & Hsame);
      [done | intros q Hq; cbn [st_cache mod_file]; apply Habsent; by right |].
    exists s'. cbn [st_cache] in *. split_and!; [done | |].
    + assert (Z.of_nat (length (pid :: rest)) = 1 + Z.of_nat (length rest)) as ->
        by (cbn [length]; lia).
      apply (counts_misses_trans 1 _ (Some c) (Some (mod_miss c)));
        [apply counts_misses_one | exact Hcount].
    + eapply same_mod_files_trans; [|exact Hsame]. by split.
Qed.

(** The dispatch of projects without a cache file counts one miss for
    each. *)
Lemma submit_mod_tasks_absent w ids s :
  NoDup ids →
  st_cache s ≠ None →
  (∀ q, q ∈ ids → mod_file (st_cache s) q = None) →
  counts_misses (Z.of_nat (length ids)) (st_cache s)
    (st_cache (submit_mod_tasks w ids s).2).
Proof.
  revert s. induction ids as [|pid rest IH]; intros s Hnd Hcache Habsent.
  - apply counts_misses_refl.
  - apply NoDup_cons in Hnd as [Hpid Hnd].
    cbn [submit_mod_tasks]. rewrite bind_run. cbn [emit]. rewrite bind_run.
    unfold submit.
    set (s0 := mkSt (st_cache s) (st_trace s ++ [EvSubmitMod pid])).
    pose proof (scrape_mod_info_absent w pid s0 Hcache
                  (Habsent pid (list_elem_of_here _ _))) as Hone.
    destruct (scrape_mod_info_run w pid s0) as (s1 & Hrun & [Hp1 Hframe1] & _).
    rewrite Hrun in Hone |- *. cbn [snd] in Hone. simpl in Hp1.
    assert (Hcache1 : st_cache s1 ≠ None).
    { by destruct (st_cache s), (st_cache s1). }
    assert (Habsent1 : ∀ q, q ∈ rest → mod_file (st_cache s1) q = None).
    { intros q Hq. rewrite Hframe1 by (by intros ->). apply Habsent. by right. }
    specialize (IH s1 Hnd Hcache1 Habsent1).
    rewrite bind_run.
    assert (Z.of_nat (length (pid :: rest)) = 1 + Z.of_nat (length rest)) as ->
      by (cbn [length]; lia).
    destruct (submit_mod_tasks w rest s1) as [[futs|e] s2]; cbn [snd mret M_ret] in *;
      apply (counts_misses_trans 1 _ (st_cache s) (st_cache s1)); done.
Qed.

Lemma collect_mod_results_cache futures m s :
  st_cache (collect_mod_results futures m s).2 = st_cache s.
Proof.
  revert m s. induction futures as [|[[v|e] pid] rest IH]; intros m s; simpl.
  - done.
  - rewrite bind_run. cbn [emit]. by rewrite IH.
  - rewrite bind_run. cbn [stderr]. by rewrite IH.
Qed.

End StatsFacts.

Import StatsFacts.

(** X26.  On a cache that has no file for any project of the manifest,
    [scrape_all_mod_info] counts two misses for every project and no hit:
    the orchestrator looks each key up, and the fetcher it then dispatches
    looks it up again.  The statistics of [get_stats] show twice the
    number of projects fetched, and the file counters are as they were. *)
Theorem cold_cache_counts_two_misses
    (w : World) (manifest : Manifest) (c : CurseForgeCache) (tr : list Event) :
  let ids : gset Z := list_to_set (projectID <$> get_files manifest) in
  (∀ q, q ∈ ids → mod_files c !! mod_cache_name q = None) →
  ∃ c',
    st_cache (scrape_all_mod_info w manifest (mkSt (Some c) tr)).2 = Some c'
    ∧ stat_mod_hits (get_stats c') = stat_mod_hits (get_stats c)
    ∧ stat_mod_misses (get_stats c') = stat_mod_misses (get_stats c) + 2 * Z.of_nat (size ids)
    ∧ stat_total_hits (get_stats c') = stat_total_hits (get_stats c)
    ∧ stat_total_misses (get_stats c')
      = stat_total_misses (get_stats c) + 2 * Z.of_nat (size ids).
Proof.
  intros ids Habsent.
  pose proof (preserves_scrape_all_mod_info mod_side_only
                mod_side_only_refl mod_side_only_trans w
                mod_side_only_get (fun pid v _ => mod_side_only_set w pid v)
                manifest (mkSt (Some c) tr)) as Hside.
  assert (Hcount : counts_misses (2 * Z.of_nat (size ids)) (Some c)
                     (st_cache (scrape_all_mod_info w manifest (mkSt (Some c) tr)).2)).
  { unfold scrape_all_mod_info. fold ids. cbn [st_cache]. rewrite bind_run.
    assert (Hlen : length (elements ids) = size ids) by done.
    assert (Hnd : NoDup (elements ids)) by apply NoDup_elements.
    assert (Hids : ∀ q, q ∈ elements ids →
                        mod_file (st_cache (mkSt (Some c) tr)) q = None).
    { intros q Hq%elem_of_elements. by apply Habsent. }
    destruct (check_mod_cache_absent (elements ids) (∅, elements ids)
                (mkSt (Some c) tr)) as (s1 & -> & Hcount1 & [Hp1 Hsame1]);
      [done | done |].
    cbn [st_cache] in Hp1, Hcount1, Hsame1, Hids.
    rewrite Hlen in Hcount1. revert Hlen Hnd Hids.
    generalize (elements ids). intros [|pid rest] Hlen Hnd Hids.
    - cbn [mret M_ret snd]. cbn [length] in Hlen. rewrite <- Hlen in Hcount1 |- *.
      exact Hcount1.
    - rewrite bind_run. cbn [emit]. rewrite bind_run.
      set (s0 := mkSt (st_cache s1) (st_trace s1 ++ [EvPool 3])).
      assert (Hcache0 : st_cache s0 ≠ None).
      { cbn [st_cache s0]. by destruct (st_cache s1). }
      assert (Habsent0 : ∀ q, q ∈ pid :: rest → mod_file (st_cache s0) q = None).
      { intros q Hq. cbn [st_cache s0]. rewrite Hsame1. by apply Hids. }
      pose proof (submit_mod_tasks_absent w (pid :: rest) s0 Hnd Hcache0 Habsent0)
        as Hcount2.
      rewrite Hlen in Hcount2. cbn [st_cache s0] in Hcount2.
      assert (2 * Z.of_nat (size ids) = Z.of_nat (size ids) + Z.of_nat (size ids))
        as -> by lia.
      destruct (submit_mod_tasks w (pid :: rest) s0) as [[futs|e] s2];
        cbn [snd] in *; rewrite ?collect_mod_results_cache;
        apply (counts_misses_trans _ _ (Some c) (st_cache s1)); done. }
  cbn [st_cache] in Hside.
  destruct (st_cache (scrape_all_mod_info w manifest (mkSt (Some c) tr)).2)
    as [c'|]; [|done].
  simpl in Hside, Hcount. destruct Hside as (_ & _ & Hfh & Hfm & _ & _).
  destruct Hcount as [Hh Hm].
  exists c'. unfold get_stats. simpl. split_and!; [done | done | lia | lia | lia].
Qed.

Lemma cold_cache_counts_two_misses_witness :
  ∃ c',
    st_cache (scrape_all_mod_info world_legacy_only manifest_1_2_3
                (mkSt (Some (new_cache ".cursecache" ∅ ∅)) [])).2 = Some c'
    ∧ stat_mod_hits (get_stats c')
      = stat_mod_hits (get_stats (new_cache ".cursecache" ∅ ∅))
    ∧ stat_mod_misses (get_stats c')
      = stat_mod_misses (get_stats (new_cache ".cursecache" ∅ ∅))
        + 2 * Z.of_nat
              (size (list_to_set (projectID <$> get_files manifest_1_2_3) : gset Z))
    ∧ stat_total_hits (get_stats c')
      = stat_total_hits (get_stats (new_cache ".cursecache" ∅ ∅))
    ∧ stat_total_misses (get_stats c')
      = stat_total_misses (get_stats (new_cache ".cursecache" ∅ ∅))
        + 2 * Z.of_nat
              (size (list_to_set (projectID <$> get_files manifest_1_2_3) : gset Z)).
Proof.
  apply (cold_cache_counts_two_misses world_legacy_only manifest_1_2_3
           (new_cache ".cursecache" ∅ ∅) []).
  intros q _. reflexivity.
Defined.
